(** * CYCLES: judging engine, scoring tracker and chart decoder

    A shallow embedding of [src/components/GameCanvas.tsx] (the judging
    engine: [handleInput], [detectPatterns], [registerHit], [updateStats],
    and the miss scan of [gameLoop]) and of [src/utils/osuParser.ts]
    ([parseOsuText], [parseOSZ]).

    Conventions of the embedding.
    - A JavaScript number that the modelled code obtains from [parseInt] or
      from integer arithmetic is a [num]: either [NaN] or an integer
      [Int z].  Magnitudes are taken in the exactly representable range.
    - The engine clock ([currentTimeMs]) is sampled as an integer number of
      milliseconds.
    - The displayed score, the one number that passes through
      [Math.floor] after a division, is computed in binary64 ([Double]).
    - Chart text is ASCII; a JavaScript string is a [string].
    - [undefined] is [None]. *)

From Stdlib Require Import ZArith Zquot QArith Qabs Qround Qpower Lia Lqa Ascii Sorted.
From Stdlib Require Floats.
From stdpp Require Import base gmap sets list strings.

Local Open Scope Z_scope.

#[local] Set Warnings "-clear-no-such-hyp".

(** ** JavaScript values and library functions used by the sources *)

Module Js.

Inductive num := NaN | Int (z : Z).

#[global] Instance num_eq_dec : EqDecision num.
Proof. solve_decision. Defined.

Definition nsub (a b : num) : num :=
  match a, b with Int p, Int q => Int (p - q) | _, _ => NaN end.

Definition nadd (a b : num) : num :=
  match a, b with Int p, Int q => Int (p + q) | _, _ => NaN end.

Definition nabs (a : num) : num :=
  match a with Int p => Int (Z.abs p) | NaN => NaN end.

(** Comparisons: any comparison with [NaN] is false. *)
Definition nltb (a b : num) : bool :=
  match a, b with Int p, Int q => p <? q | _, _ => false end.
Definition nleb (a b : num) : bool :=
  match a, b with Int p, Int q => p <=? q | _, _ => false end.
Definition ngtb (a b : num) : bool := nltb b a.
Definition ngeb (a b : num) : bool := nleb b a.

(** [a === b] on numbers: [NaN] is different from everything. *)
Definition nstrict_eqb (a b : num) : bool :=
  match a, b with Int p, Int q => p =? q | _, _ => false end.

(** Truthiness of a number: [0] and [NaN] are falsy. *)
Definition truthy (a : num) : bool :=
  match a with Int p => negb (p =? 0) | NaN => false end.

(** [Math.max] and [Math.min] propagate [NaN]. *)
Definition nmax (a b : num) : num :=
  match a, b with Int p, Int q => Int (Z.max p q) | _, _ => NaN end.
Definition nmin (a b : num) : num :=
  match a, b with Int p, Int q => Int (Z.min p q) | _, _ => NaN end.

(** [Math.floor(a * b / d)] and [Math.floor(a / d)] for a positive
    literal divisor [d]. *)
Definition nfloor_muldiv (a b : num) (d : Z) : num :=
  match a, b with Int p, Int q => Int ((p * q) / d) | _, _ => NaN end.
Definition nfloor_div (a : num) (d : Z) : num :=
  match a with Int p => Int (p / d) | NaN => NaN end.

(** [a % d]: the remainder takes the sign of the dividend. *)
Definition nrem (a : num) (d : Z) : num :=
  match a with Int p => Int (Z.rem p d) | NaN => NaN end.

(** [ToInt32], used by the bitwise operators. *)
Definition toInt32 (a : num) : Z :=
  match a with
  | Int p => (p + 2 ^ 31) mod 2 ^ 32 - 2 ^ 31
  | NaN => 0
  end.

(** [Array.prototype.sort(cmp)].  The sort is stable; a comparator
    result of [NaN] counts as [0].  When the comparator is consistent
    the result is the unique stable ordering, which is what this
    insertion sort computes.  (With an inconsistent comparator, which
    here means a [NaN] key, the order is implementation-defined; no
    statement below depends on the order in that case.) *)
Section Sort.
Context {A : Type} (cmp : A -> A -> num).

Definition cmp_le (a b : A) : bool :=
  match cmp a b with Int c => c <=? 0 | NaN => true end.

Fixpoint insert_sorted (a : A) (l : list A) : list A :=
  match l with
  | [] => [a]
  | b :: l' => if cmp_le a b then a :: l else b :: insert_sorted a l'
  end.

Definition sort (l : list A) : list A := foldr insert_sorted [] l.
End Sort.

(** A [Set<number>] iterated in insertion order ([Array.from]). *)
Definition set_add {A} `{EqDecision A} (a : A) (l : list A) : list A :=
  if decide (a ∈ l) then l else l ++ [a].

Definition set_of_list {A} `{EqDecision A} (l : list A) : list A :=
  foldl (fun acc a => set_add a acc) [] l.

(** An array paired with its indices, as seen by the callbacks
    [(obj, idx) => ...].  The hit objects are distinct objects, so
    [hitObjects.indexOf(obj)] is the position of [obj]. *)
Definition indexed {A} (l : list A) : list (nat * A) := imap (fun i a => (i, a)) l.

(** *** Strings *)

(** White space as [trim] and [parseInt] see it (ASCII part). *)
Definition isWhiteSpace (a : ascii) : bool :=
  let n := nat_of_ascii a in
  ((9 <=? n) && (n <=? 13))%nat || (n =? 32)%nat.

Fixpoint trimStart (s : string) : string :=
  match s with
  | String a s' => if isWhiteSpace a then trimStart s' else s
  | EmptyString => EmptyString
  end.

Fixpoint trimEnd (s : string) : string :=
  match s with
  | String a s' =>
    match trimEnd s' with
    | EmptyString => if isWhiteSpace a then EmptyString else String a EmptyString
    | r => String a r
    end
  | EmptyString => EmptyString
  end.

Definition trim (s : string) : string := trimEnd (trimStart s).

(** [s.split(sep)] for a one-character separator: never empty. *)
Fixpoint split (sep : ascii) (s : string) : list string :=
  match s with
  | EmptyString => [EmptyString]
  | String a s' =>
    if Ascii.eqb a sep then EmptyString :: split sep s'
    else match split sep s' with
         | h :: t => String a h :: t
         | [] => [String a EmptyString]
         end
  end.

Definition startsWith (s p : string) : bool := String.prefix p s.

Fixpoint dropLast (s : string) : string :=
  match s with
  | String a EmptyString => EmptyString
  | String a s' => String a (dropLast s')
  | EmptyString => EmptyString
  end.

Definition endsWith (s p : string) : bool :=
  let n := String.length s in
  let m := String.length p in
  (m <=? n)%nat && String.eqb (String.substring (n - m) m s) p.

(** [s.slice(1, -1)] *)
Definition slice_1_m1 (s : string) : string :=
  match s with
  | String _ s' => dropLast s'
  | EmptyString => EmptyString
  end.

Definition lowerChar (a : ascii) : ascii :=
  let n := nat_of_ascii a in
  if ((65 <=? n) && (n <=? 90))%nat then ascii_of_nat (n + 32) else a.

Fixpoint toLowerCase (s : string) : string :=
  match s with
  | String a s' => String (lowerChar a) (toLowerCase s')
  | EmptyString => EmptyString
  end.

(** *** [parseInt(s)] without radix argument *)

Definition digitValue (radix : Z) (a : ascii) : option Z :=
  let n := Z.of_nat (nat_of_ascii a) in
  let v := if (48 <=? n) && (n <=? 57) then Some (n - 48)
           else if (97 <=? n) && (n <=? 122) then Some (n - 87)
           else if (65 <=? n) && (n <=? 90) then Some (n - 55)
           else None in
  match v with
  | Some d => if d <? radix then Some d else None
  | None => None
  end.

(** The longest prefix of digits; [None] when there is no digit. *)
Fixpoint parseDigits (radix : Z) (s : string) (acc : option Z) : option Z :=
  match s with
  | String a s' =>
    match digitValue radix a with
    | Some d => parseDigits radix s' (Some (radix * default 0 acc + d))
    | None => acc
    end
  | EmptyString => acc
  end.

Definition parseInt (s : string) : num :=
  let s := trimStart s in
  let '(sign, s) :=
    match s with
    | String "-" r => (-1, r)
    | String "+" r => (1, r)
    | _ => (1, s)
    end in
  let '(radix, s) :=
    match s with
    | String "0" (String "x" r) => (16, r)
    | String "0" (String "X" r) => (16, r)
    | _ => (10, s)
    end in
  match parseDigits radix s None with
  | Some v => Int (sign * v)
  | None => NaN
  end.

(** [parseInt] of a possibly [undefined] argument. *)
Definition parseIntOpt (o : option string) : num :=
  match o with Some s => parseInt s | None => NaN end.

(** What a function throws, or a promise rejects with: a [TypeError],
    an [Error] with its message, or a [DOMException] with its name. *)
Inductive exn := TypeError | Error (message : string) | DOMException (name : string).

(** What [decodeAudioData] rejects with for data that is not audio. *)
Definition EncodingError : exn := DOMException "EncodingError".

Inductive result (A : Type) := Ok (a : A) | Throw (e : exn).
Arguments Ok {A} a.
Arguments Throw {A} e.

Definition bindR {A B} (r : result A) (f : A -> result B) : result B :=
  match r with Ok a => f a | Throw e => Throw e end.

(** A [for ... of] loop whose body may throw. *)
Fixpoint forOf {S A} (body : S -> A -> result S) (st : S) (l : list A) : result S :=
  match l with
  | [] => Ok st
  | a :: l' => bindR (body st a) (fun st' => forOf body st' l')
  end.

End Js.

Import Js.

(** ** Floating point

    [Math.floor] makes the rounding of a floating-point product visible,
    so the displayed score is computed as JavaScript computes it: in IEEE
    754 binary64 with rounding to nearest, ties to even.  A finite double
    is the rational it denotes.  No operation below produces an infinity:
    its operands are counters, far below 2^53. *)

Module Double.

(** 53 bits of precision; the unit of a subnormal is 2^-1074. *)
Definition prec : Z := 53.
Definition emin : Z := -1074.

Definition pow2 (k : Z) : Q := (2 ^ k)%Q.

(** The exponent [e] of a positive rational: [2^e <= q < 2^(e+1)]. *)
Definition ilog2 (q : Q) : Z :=
  if Qle_bool 1 q then Z.log2 (Qfloor q)
  else - Z.log2_up (Qceiling (/ q)).

(** The nearest integer, the even one of two that are equally near. *)
Definition nearestEven (q : Q) : Z :=
  let f := Qfloor q in
  match (q - inject_Z f ?= 1 # 2)%Q with
  | Lt => f
  | Gt => f + 1
  | Eq => if Z.even f then f else f + 1
  end.

(** The exponent of the unit in the last place of the doubles around
    [q]. *)
Definition ulp (q : Q) : Z := Z.max (ilog2 (Qabs q) - (prec - 1)) emin.

(** The double nearest to [q]. *)
Definition round (q : Q) : Q :=
  if Qeq_bool q 0 then 0%Q
  else (inject_Z (nearestEven (q / pow2 (ulp q))) * pow2 (ulp q))%Q.

(** [a / b] and [a * b] on doubles. *)
Definition div (a b : Q) : Q := round (a / b).
Definition mul (a b : Q) : Q := round (a * b).

(** [Math.floor] *)
Definition floor (a : Q) : Z := Qfloor a.

(** The same operations on the primitive binary64 numbers of the proof
    assistant, for the comparison in [DoubleFacts]. *)
Definition ofSpecFloat (f : SpecFloat.spec_float) : option Q :=
  match f with
  | SpecFloat.S754_zero _ => Some 0%Q
  | SpecFloat.S754_finite s m e =>
    Some ((if s then - inject_Z (Zpos m) else inject_Z (Zpos m)) * pow2 e)%Q
  | _ => None
  end.

Definition primitive (n : Z) : PrimFloat.float :=
  PrimFloat.of_uint63 (Uint63.of_Z n).

Definition primitiveMulDiv (a b c : Z) : option Q :=
  ofSpecFloat (FloatOps.Prim2SF
    (PrimFloat.mul (PrimFloat.div (primitive a) (primitive b)) (primitive c))).

Definition sameDouble (x : option Q) (y : Q) : bool :=
  match x with Some q => Qeq_bool q y | None => false end.

(** Operands [(a, b, c)] of [(a / b) * c]: score fractions, a quotient
    that is not a double, and integers beyond 2^53 between two doubles. *)
Definition samples : list (Z * Z * Z) :=
  [(6150, 12000, 1010000); (300, 300, 1010000); (0, 300, 1010000);
   (1, 3, 1010000); (50, 300, 1010000); (17950, 18000, 1010000);
   (1, 10, 3); (2, 3, 1); (9007199254740993, 1, 1); (9007199254740995, 1, 1);
   (1, 9007199254740991, 3); (123456789, 1000, 101)].

(** The score fractions of every chart of up to [notes] notes:
    [currentPoints] is a multiple of 50 up to [maxMapPoints]. *)
Definition scoreFractions (notes : nat) : list (Z * Z * Z) :=
  n ← seq 1 notes;
  k ← seq 0 (6 * n + 1);
  [(50 * Z.of_nat k, 300 * Z.of_nat n, 1010000)].

End Double.

(** ** [types.ts] *)

Record HitObject := mkHitObject {
  x : num;
  y : num;
  time : num;
  type : num;
  hitSound : num;
  endTime : option num;
  column : num
}.

Record GameStats := mkGameStats {
  gs_score : Z;
  gs_combo : Z;
  gs_maxCombo : Z;
  gs_perfect : Z;
  gs_good : Z;
  gs_bad : Z;
  gs_miss : Z;
  gs_accuracy : Q
}.

(** [BeatmapData] without [id] (built from [Date.now()]), [audioBuffer]
    (see [OsuParser.Loaded]) and [bpm] (derived in floating point from the
    timing points, independently of the notes).  The string fields can
    hold [undefined]: [parseOsuText] assigns them a destructured value. *)
Record BeatmapData := mkBeatmapData {
  title : option string;
  artist : option string;
  creator : option string;
  version : option string;
  audioFilename : option string;
  hitObjects : list HitObject;
  backgroundImage : option string
}.

(** ** [components/GameCanvas.tsx]: the judging engine *)

Module GameCanvas.

(** Timing windows *)
Definition HIT_WINDOW_PERFECT : Z := 80.
Definition HIT_WINDOW_GOOD : Z := 120.
Definition HIT_WINDOW_BAD : Z := 160.

(** D=BL(4,5), F=TL(6,7), J=TR(0,1), K=BR(2,3); any other key code has
    no entry. *)
Definition INPUT_MAPPING (code : string) : option (list Z) :=
  if String.eqb code "KeyD" then Some [4; 5]
  else if String.eqb code "KeyF" then Some [6; 7]
  else if String.eqb code "KeyJ" then Some [0; 1]
  else if String.eqb code "KeyK" then Some [2; 3]
  else None.

(** The first argument of [registerHit]. *)
Inductive HitKind := Perfect | Good | Bad | Miss.

#[global] Instance HitKind_eq_dec : EqDecision HitKind.
Proof. solve_decision. Defined.

(** [GameStateRef], restricted to the fields that judging and scoring
    read.  The remaining fields (particles, geoFlashes, judgement,
    keyState, inputState, lastPressTimes, lastHitTimes, screenShake,
    ringPulse, rotation, the pulses, tick, hitDeviations, ...) are only
    written by the modelled functions or read by the renderer, and
    [missedIndices] is never written at all. *)
Record GameStateRef := mkGameStateRef {
  score : Z;
  combo : Z;
  maxCombo : Z;
  perfect : Z;
  good : Z;
  bad : Z;
  miss : Z;
  processedIndices : gset nat;
  holdingIndices : list nat
}.

(** The component: the mutable ref and the React state [currentStats]. *)
Record Game := mkGame {
  state : GameStateRef;
  currentStats : GameStats
}.

(** What the engine hands to its collaborators: a call
    [registerHit(type, col, diffMs)] for the note [idx] that was just
    added to [processedIndices], or a call [spawnGeometricFlash(cols)]. *)
Inductive Output :=
| Judgement (idx : nat) (type : HitKind) (col : num) (diffMs : num)
| GeometricFlash (cols : list num).

Definition set_score (v : Z) (s : GameStateRef) : GameStateRef :=
  mkGameStateRef v (combo s) (maxCombo s) (perfect s) (good s) (bad s) (miss s)
    (processedIndices s) (holdingIndices s).
Definition set_combo (v : Z) (s : GameStateRef) : GameStateRef :=
  mkGameStateRef (score s) v (maxCombo s) (perfect s) (good s) (bad s) (miss s)
    (processedIndices s) (holdingIndices s).
Definition set_maxCombo (v : Z) (s : GameStateRef) : GameStateRef :=
  mkGameStateRef (score s) (combo s) v (perfect s) (good s) (bad s) (miss s)
    (processedIndices s) (holdingIndices s).
Definition set_perfect (v : Z) (s : GameStateRef) : GameStateRef :=
  mkGameStateRef (score s) (combo s) (maxCombo s) v (good s) (bad s) (miss s)
    (processedIndices s) (holdingIndices s).
Definition set_good (v : Z) (s : GameStateRef) : GameStateRef :=
  mkGameStateRef (score s) (combo s) (maxCombo s) (perfect s) v (bad s) (miss s)
    (processedIndices s) (holdingIndices s).
Definition set_bad (v : Z) (s : GameStateRef) : GameStateRef :=
  mkGameStateRef (score s) (combo s) (maxCombo s) (perfect s) (good s) v (miss s)
    (processedIndices s) (holdingIndices s).
Definition set_miss (v : Z) (s : GameStateRef) : GameStateRef :=
  mkGameStateRef (score s) (combo s) (maxCombo s) (perfect s) (good s) (bad s) v
    (processedIndices s) (holdingIndices s).
Definition set_processedIndices (v : gset nat) (s : GameStateRef) : GameStateRef :=
  mkGameStateRef (score s) (combo s) (maxCombo s) (perfect s) (good s) (bad s) (miss s)
    v (holdingIndices s).
Definition set_holdingIndices (v : list nat) (s : GameStateRef) : GameStateRef :=
  mkGameStateRef (score s) (combo s) (maxCombo s) (perfect s) (good s) (bad s) (miss s)
    (processedIndices s) v.

Definition initialState : GameStateRef :=
  mkGameStateRef 0 0 0 0 0 0 0 ∅ [].

Definition initialStats : GameStats :=
  mkGameStats 0 0 0 0 0 0 0 101%Q.

Definition initialGame : Game := mkGame initialState initialStats.

Section Engine.

(** [beatmap.hitObjects], the [autoPlay] prop, and [noteSpeed * 1000]. *)
Variable hitObjects : list HitObject.
Variable autoPlay : bool.
Variable noteSpeedMs : Z.

(** [updateStats].  The accuracy is the exact fraction that its formula
    denotes; the displayed score, which passes through [Math.floor], is
    computed in binary64. *)
Definition updateStats (s : GameStateRef) : GameStats :=
  let currentPoints := perfect s * 300 + good s * 100 + bad s * 50 in
  let hitsSoFar := perfect s + good s + bad s + miss s in
  let maxPointsSoFar := hitsSoFar * 300 in
  let accuracy :=
    if maxPointsSoFar >? 0
    then (inject_Z currentPoints / inject_Z maxPointsSoFar * 101)%Q
    else 101%Q in
  let totalMapNotes := Z.of_nat (length hitObjects) in
  let maxMapPoints := totalMapNotes * 300 in
  let scoreDisplay :=
    if maxMapPoints >? 0
    then Double.floor (Double.mul (Double.div (inject_Z currentPoints)
                                              (inject_Z maxMapPoints)) 1010000)
    else 0 in
  mkGameStats scoreDisplay (combo s) (maxCombo s) (perfect s) (good s) (bad s)
    (miss s) accuracy.

(** [registerHit(type, col, diffMs, isJack)]: [col], [diffMs] and
    [isJack] only feed particles, [hitDeviations] and [lastHitTimes]. *)
Definition registerHit (type : HitKind) (g : Game) : Game :=
  let s := state g in
  let s :=
    match type with
    | Miss => set_miss (miss s + 1) (set_combo 0 s)
    | _ =>
      let s := set_combo (combo s + 1) s in
      let s := if combo s >? maxCombo s then set_maxCombo (combo s) s else s in
      let s := match type with
               | Perfect => set_perfect (perfect s + 1) (set_score (score s + 300) s)
               | _ => s
               end in
      let s := match type with
               | Good => set_good (good s + 1) (set_score (score s + 100) s)
               | _ => s
               end in
      match type with
      | Bad => set_bad (bad s + 1) (set_score (score s + 50) s)
      | _ => s
      end
    end in
  mkGame s (updateStats s).

Definition has_processed (s : GameStateRef) (idx : nat) : bool :=
  bool_decide (idx ∈ processedIndices s).
Definition has_holding (s : GameStateRef) (idx : nat) : bool :=
  bool_decide (idx ∈ holdingIndices s).

Definition add_processed (idx : nat) (g : Game) : Game :=
  mkGame (set_processedIndices ({[idx]} ∪ processedIndices (state g)) (state g))
    (currentStats g).
Definition add_holding (idx : nat) (g : Game) : Game :=
  mkGame (set_holdingIndices (set_add idx (holdingIndices (state g))) (state g))
    (currentStats g).
Definition delete_holding (idx : nat) (g : Game) : Game :=
  mkGame (set_holdingIndices
            (List.filter (fun i => negb (Nat.eqb i idx)) (holdingIndices (state g)))
            (state g))
    (currentStats g).

(** [if (note.endTime)] *)
Definition endTime_truthy (note : HitObject) : bool :=
  match endTime note with Some e => truthy e | None => false end.

(** [detectPatterns(currentTimeMs)] *)
Definition detectPatterns (currentTimeMs : Z) (s : GameStateRef) : list Output :=
  let recentHits :=
    List.filter (fun '(idx, obj) =>
      has_processed s idx &&
      nltb (nabs (nsub (time obj) (Int currentTimeMs))) (Int 40))
      (indexed hitObjects) in
  let uniqueCols := set_of_list (map (fun h => column (snd h)) recentHits) in
  if 2 <=? Z.of_nat (length uniqueCols) then [GeometricFlash uniqueCols] else [].

Record BestHit := mkBestHit {
  bh_note : HitObject;
  bh_idx : nat;
  bh_diff : num;
  bh_absDiff : num
}.

(** The [lanes.forEach] loop of [handleInput] that selects [bestHit]. *)
Definition laneNotes (s : GameStateRef) (currentTimeMs : Z) (col : Z)
  : list (nat * HitObject) :=
  List.filter (fun '(idx, obj) =>
    nstrict_eqb (column obj) (Int col) &&
    negb (has_processed s idx) &&
    nltb (nsub (time obj) (Int currentTimeMs)) (Int HIT_WINDOW_BAD))
    (indexed hitObjects).

Definition byAbsDiff (currentTimeMs : Z) (a b : nat * HitObject) : num :=
  nsub (nabs (nsub (time (snd a)) (Int currentTimeMs)))
       (nabs (nsub (time (snd b)) (Int currentTimeMs))).

Definition selectLane (s : GameStateRef) (currentTimeMs : Z)
    (bestHit : option BestHit) (col : Z) : option BestHit :=
  let visibleNotes := laneNotes s currentTimeMs col in
  match sort (byAbsDiff currentTimeMs) visibleNotes with
  | [] => bestHit
  | (idx, candidate) :: _ =>
    let diff := nsub (time candidate) (Int currentTimeMs) in
    let absDiff := nabs diff in
    let found := Some (mkBestHit candidate idx diff absDiff) in
    match bestHit with
    | None => found
    | Some b => if nltb absDiff (bh_absDiff b) then found else bestHit
    end
  end.

Definition selectBestHit (s : GameStateRef) (currentTimeMs : Z) (lanes : list Z)
  : option BestHit :=
  foldl (selectLane s currentTimeMs) None lanes.

(** The three grading branches of [handleInput]. *)
Definition gradeOf (diff absDiff : num) : option HitKind :=
  if nleb absDiff (Int HIT_WINDOW_PERFECT) then Some Perfect
  else if nleb absDiff (Int HIT_WINDOW_GOOD) then Some Good
  else if ngtb diff (Int HIT_WINDOW_GOOD) && nleb diff (Int HIT_WINDOW_BAD)
       then Some Bad
  else None.

Definition judge (b : BestHit) (g : Game) : Game * list Output :=
  match gradeOf (bh_diff b) (bh_absDiff b) with
  | Some type =>
    let g := add_processed (bh_idx b) g in
    let g := if endTime_truthy (bh_note b) then add_holding (bh_idx b) g else g in
    (registerHit type g,
     [Judgement (bh_idx b) type (column (bh_note b)) (bh_diff b)])
  | None => (g, [])
  end.

(** The key-up branch: per lane, release the first held note of that
    lane (in insertion order of [holdingIndices]). *)
Definition releaseLane (g : Game) (col : Z) : Game :=
  match List.find (fun idx =>
          match hitObjects !! idx with
          | Some obj => nstrict_eqb (column obj) (Int col)
          | None => false
          end) (holdingIndices (state g)) with
  | Some holdingIdx => delete_holding holdingIdx g
  | None => g
  end.

(** [handleInput(lanes, isDown)], with the clock sample it takes. *)
Definition handleInput (lanes : list Z) (isDown : bool) (currentTimeMs : Z)
    (g : Game) : Game * list Output :=
  if isDown then
    let '(g, out) :=
      match selectBestHit (state g) currentTimeMs lanes with
      | Some b => judge b g
      | None => (g, [])
      end in
    (g, out ++ detectPatterns currentTimeMs (state g))
  else (foldl releaseLane g lanes, []).

(** [progress < 0] for [progress = 1 - timeUntilHit / (noteSpeed * 1000)]. *)
Definition progress_negative (timeUntilHit : num) : bool :=
  match timeUntilHit with
  | Int t =>
    if 0 <? noteSpeedMs then noteSpeedMs <? t
    else if noteSpeedMs <? 0 then t <? noteSpeedMs
    else 0 <? t
  | NaN => false
  end.

(** The part of [gameLoop] that touches judging state: the
    [visibleNotes] filter and the miss check of the drawing loop. *)
Definition visibleNotes (s : GameStateRef) (currentTimeMs : Z)
  : list (nat * HitObject) :=
  List.filter (fun '(idx, obj) =>
    if has_processed s idx && negb (has_holding s idx) then false
    else ngeb (time obj) (Int (currentTimeMs - 200)) &&
         nleb (time obj) (Int (currentTimeMs + noteSpeedMs)))
    (indexed hitObjects).

Definition scanNote (currentTimeMs : Z) (acc : Game * list Output)
    (n : nat * HitObject) : Game * list Output :=
  let '(g, out) := acc in
  let '(idx, obj) := n in
  let timeUntilHit := nsub (time obj) (Int currentTimeMs) in
  if progress_negative timeUntilHit then acc
  else if negb (has_processed (state g) idx) &&
          nltb timeUntilHit (Int (- HIT_WINDOW_BAD))
  then (registerHit Miss (add_processed idx g),
        out ++ [Judgement idx Miss (column obj) (Int 0)])
  else acc.

Definition gameLoop (currentTimeMs : Z) (g : Game) : Game * list Output :=
  foldl (scanNote currentTimeMs) (g, []) (visibleNotes (state g) currentTimeMs).

(** The events that drive the component, each with the engine clock
    sampled while it is handled. *)
Inductive Event :=
| KeyDown (code : string) (repeat : bool) (currentTimeMs : Z)
| KeyUp (code : string) (currentTimeMs : Z)
| AnimationFrame (currentTimeMs : Z).

Definition handleKeyDown (code : string) (repeat : bool) (currentTimeMs : Z)
    (g : Game) : Game * list Output :=
  if autoPlay || repeat then (g, [])
  else match INPUT_MAPPING code with
       | Some lanes => handleInput lanes true currentTimeMs g
       | None => (g, [])
       end.

Definition handleKeyUp (code : string) (currentTimeMs : Z) (g : Game)
  : Game * list Output :=
  if autoPlay then (g, [])
  else match INPUT_MAPPING code with
       | Some lanes => handleInput lanes false currentTimeMs g
       | None => (g, [])
       end.

Definition step (g : Game) (e : Event) : Game * list Output :=
  match e with
  | KeyDown code repeat t => handleKeyDown code repeat t g
  | KeyUp code t => handleKeyUp code t g
  | AnimationFrame t => gameLoop t g
  end.

(** A run: the events handled one after the other. *)
Fixpoint run (g : Game) (events : list Event) : Game * list Output :=
  match events with
  | [] => (g, [])
  | e :: events' =>
    let '(g1, out1) := step g e in
    let '(g2, out2) := run g1 events' in
    (g2, out1 ++ out2)
  end.

(** *** Reading the output stream *)

(** The judgement events (note index, grade) of an output stream, and
    the lane sets of its simultaneous-hit events. *)
Definition judgements (out : list Output) : list (nat * HitKind) :=
  out ≫= (fun o => match o with
                    | Judgement idx type _ _ => [(idx, type)]
                    | GeometricFlash _ => []
                    end).

Definition flashes (out : list Output) : list (list num) :=
  out ≫= (fun o => match o with
                    | Judgement _ _ _ _ => []
                    | GeometricFlash cols => [cols]
                    end).

Definition countKind (k : HitKind) (js : list (nat * HitKind)) : Z :=
  Z.of_nat (length (List.filter (fun j => bool_decide (snd j = k)) js)).

(** The elementary state changes that the handlers are made of: a
    still unprocessed note is marked processed (and possibly held) and
    handed to [registerHit]; a held note is released; a flash is
    spawned. *)
Inductive change : Game -> list Output -> Game -> Prop :=
| change_judge g idx type hold col diffMs :
    idx ∉ processedIndices (state g) ->
    change g [Judgement idx type col diffMs]
      (registerHit type
         (if hold : bool then add_holding idx (add_processed idx g)
          else add_processed idx g))
| change_release g idx :
    change g [] (delete_holding idx g)
| change_flash g cols :
    change g [GeometricFlash cols] g.

Inductive changes : Game -> list Output -> Game -> Prop :=
| changes_nil g : changes g [] g
| changes_cons g1 out1 g2 out2 g3 :
    change g1 out1 g2 -> changes g2 out2 g3 -> changes g1 (out1 ++ out2) g3.

(** What [selectBestHit] is shown to return: a still unprocessed note
    of one of the lanes, less than 160 ms ahead of the clock, with the
    deviation computed from its time. *)
Definition candidate (s : GameStateRef) (currentTimeMs : Z) (lanes : list Z)
    (b : BestHit) : Prop :=
  exists col t,
    col ∈ lanes /\
    hitObjects !! bh_idx b = Some (bh_note b) /\
    column (bh_note b) = Int col /\
    (bh_idx b ∉ processedIndices s) /\
    time (bh_note b) = Int t /\
    bh_diff b = Int (t - currentTimeMs) /\
    bh_absDiff b = Int (Z.abs (t - currentTimeMs)) /\
    t - currentTimeMs < HIT_WINDOW_BAD.

(** The points of a grade, and the counters of a state as the scoring
    fold sees them. *)
Definition points (k : HitKind) : Z :=
  match k with Perfect => 300 | Good => 100 | Bad => 50 | Miss => 0 end.

(** What handling a press must have done when the press resolves the
    note [idx], [note], with the grade [k] (not a Miss): [r] is the
    outcome of handling it in [g].  The note is judged once, marked
    processed, held if it is a hold note, and counted by the scoring
    tracker, whose display is refreshed. *)
Definition resolves (g : Game) (r : Game * list Output) (idx : nat)
    (note : HitObject) (k : HitKind) : Prop :=
  let s := state g in
  let s' := state (fst r) in
  judgements (snd r) = [(idx, k)] /\
  processedIndices s' = {[idx]} ∪ processedIndices s /\
  holdingIndices s' =
    (if endTime_truthy note then set_add idx (holdingIndices s)
     else holdingIndices s) /\
  score s' = score s + points k /\
  perfect s' = perfect s + (if decide (k = Perfect) then 1 else 0) /\
  good s' = good s + (if decide (k = Good) then 1 else 0) /\
  bad s' = bad s + (if decide (k = Bad) then 1 else 0) /\
  miss s' = miss s /\
  combo s' = combo s + 1 /\
  maxCombo s' = Z.max (maxCombo s) (combo s + 1) /\
  currentStats (fst r) = updateStats s'.

(** The press resolves no note: nothing is judged and the component is
    as it was. *)
Definition resolvesNothing (g : Game) (r : Game * list Output) : Prop :=
  judgements (snd r) = [] /\ fst r = g.

Definition counters_le (s s' : GameStateRef) : Prop :=
  score s <= score s' /\ maxCombo s <= maxCombo s' /\
  perfect s <= perfect s' /\ good s <= good s' /\
  bad s <= bad s' /\ miss s <= miss s'.

(** The state is consistent: the displayed statistics are those of the
    counters, the score is the sum of the points of the grades counted,
    and no counter is negative. *)
Definition consistent (g : Game) : Prop :=
  currentStats g = updateStats (state g) /\
  score (state g) =
    perfect (state g) * 300 + good (state g) * 100 + bad (state g) * 50 /\
  0 <= perfect (state g) /\ 0 <= good (state g) /\
  0 <= bad (state g) /\ 0 <= miss (state g).

(** The judgement events of a sequence of changes: their note indices
    are pairwise different and were unprocessed before; afterwards exactly
    they have been added to [processedIndices], and each of them has been
    counted once, in the counter of its grade. *)
Definition traced (g : Game) (out : list Output) (g' : Game) : Prop :=
  let js := judgements out in
  NoDup js.*1 /\
  (forall i, i ∈ js.*1 -> i ∉ processedIndices (state g)) /\
  processedIndices (state g') = processedIndices (state g) ∪ list_to_set js.*1 /\
  perfect (state g') = perfect (state g) + countKind Perfect js /\
  good (state g') = good (state g) + countKind Good js /\
  bad (state g') = bad (state g) + countKind Bad js /\
  miss (state g') = miss (state g) + countKind Miss js.

End Engine.

(** *** Sample charts *)

(** A tap note of lane [col] at [t] ms, as the decoder builds it. *)
Definition tapAt (t : Z) (col : Z) : HitObject :=
  mkHitObject (Int 0) (Int 0) (Int t) (Int 1) (Int 0) None (Int col).

(** One press of the J key (lanes 0 and 1) at clock 1000 on a chart
    whose only note lies [diff] ms ahead on lane 0: the judgement
    events it produces. *)
Definition pressOutcome (diff : Z) : list (nat * HitKind) :=
  judgements (snd (handleInput [tapAt (1000 + diff) 0] [0; 1] true 1000 initialGame)).

(** The component after that press. *)
Definition pressGame (diff : Z) : Game :=
  fst (handleInput [tapAt (1000 + diff) 0] [0; 1] true 1000 initialGame).

(** Note 0 is processed, and the counters are [perfect], [good], [bad]
    with the score [sc]. *)
Definition judgedAs (g : Game) (sc perfect' good' bad' : Z) : Prop :=
  (0%nat ∈ processedIndices (state g)) /\
  score (state g) = sc /\ perfect (state g) = perfect' /\
  good (state g) = good' /\ bad (state g) = bad' /\ miss (state g) = 0.

(** A chord: three notes at 1000 ms on lanes 0, 2 and 4. *)
Definition chord3 : list HitObject := [tapAt 1000 0; tapAt 1000 2; tapAt 1000 4].

End GameCanvas.

(** ** [utils/osuParser.ts]: the chart decoder *)

Module OsuParser.

Definition newline : ascii := "010"%char.
Definition quote : string := String "034"%char EmptyString.

(** The variables of the line loop of [parseOsuText].  The
    [timingPoints] array only feeds [bpm] and is left out: its branch
    pushes a record when the line has two fields and cannot throw. *)
Record ParseState := mkParseState {
  section : string;
  data : BeatmapData;
  circleSize : num
}.

Definition set_section (v : string) (st : ParseState) : ParseState :=
  mkParseState v (data st) (circleSize st).
Definition set_data (v : BeatmapData) (st : ParseState) : ParseState :=
  mkParseState (section st) v (circleSize st).
Definition set_circleSize (v : num) (st : ParseState) : ParseState :=
  mkParseState (section st) (data st) v.

Definition set_title (v : option string) (d : BeatmapData) : BeatmapData :=
  mkBeatmapData v (artist d) (creator d) (version d) (audioFilename d)
    (hitObjects d) (backgroundImage d).
Definition set_artist (v : option string) (d : BeatmapData) : BeatmapData :=
  mkBeatmapData (title d) v (creator d) (version d) (audioFilename d)
    (hitObjects d) (backgroundImage d).
Definition set_creator (v : option string) (d : BeatmapData) : BeatmapData :=
  mkBeatmapData (title d) (artist d) v (version d) (audioFilename d)
    (hitObjects d) (backgroundImage d).
Definition set_version (v : option string) (d : BeatmapData) : BeatmapData :=
  mkBeatmapData (title d) (artist d) (creator d) v (audioFilename d)
    (hitObjects d) (backgroundImage d).
Definition set_audioFilename (v : option string) (d : BeatmapData) : BeatmapData :=
  mkBeatmapData (title d) (artist d) (creator d) (version d) v
    (hitObjects d) (backgroundImage d).
Definition set_hitObjects (v : list HitObject) (d : BeatmapData) : BeatmapData :=
  mkBeatmapData (title d) (artist d) (creator d) (version d) (audioFilename d)
    v (backgroundImage d).
Definition set_backgroundImage (v : option string) (d : BeatmapData) : BeatmapData :=
  mkBeatmapData (title d) (artist d) (creator d) (version d) (audioFilename d)
    (hitObjects d) v.

Definition initialData : BeatmapData :=
  mkBeatmapData (Some "Unknown") (Some "Unknown") (Some "Unknown") (Some "Normal")
    (Some "") [] None.

Definition initialParseState : ParseState := mkParseState "" initialData (Int 4).

(** [const [key, value] = line.split(':').map(s => s.trim())] *)
Definition keyValue (line : string) : string * option string :=
  let parts := map trim (split ":" line) in
  (default EmptyString (parts !! 0%nat), parts !! 1%nat).

(** [bgName.match(/\.(jpg|jpeg|png)$/i)] *)
Definition isImageName (bgName : string) : bool :=
  let l := toLowerCase bgName in
  endsWith l ".jpg" || endsWith l ".jpeg" || endsWith l ".png".

(** [!data.backgroundImage] *)
Definition falsyString (o : option string) : bool :=
  match o with Some s => String.eqb s "" | None => true end.

(** [(type & 128) > 0] *)
Definition isHold (type : num) : bool := Z.land (toInt32 type) 128 >? 0.

(** The 4K to 8K quadrant mapping and the clamp. *)
Definition laneOf (x time circleSize : num) : num :=
  let column := nfloor_muldiv x circleSize 512 in
  let column :=
    if nstrict_eqb circleSize (Int 4) then
      let snap := nfloor_div time 20 in
      let variance := nrem (nadd snap column) 2 in
      if nstrict_eqb column (Int 0)
      then (if nstrict_eqb variance (Int 0) then Int 5 else Int 4)
      else if nstrict_eqb column (Int 1)
      then (if nstrict_eqb variance (Int 0) then Int 6 else Int 7)
      else if nstrict_eqb column (Int 2)
      then (if nstrict_eqb variance (Int 0) then Int 0 else Int 1)
      else if nstrict_eqb column (Int 3)
      then (if nstrict_eqb variance (Int 0) then Int 2 else Int 3)
      else column
    else column in
  nmax (Int 0) (nmin column (Int 7)).

(** The [HitObjects] branch: the object pushed for one line.
    [parts[5].split(':')] throws a [TypeError] when the line has fewer
    than six fields. *)
Definition parseHitObject (circleSize : num) (line : string) : result HitObject :=
  let parts := split "," line in
  let x := parseIntOpt (parts !! 0%nat) in
  let y := parseIntOpt (parts !! 1%nat) in
  let time := parseIntOpt (parts !! 2%nat) in
  let type := parseIntOpt (parts !! 3%nat) in
  let hitSound := parseIntOpt (parts !! 4%nat) in
  let clampedColumn := laneOf x time circleSize in
  bindR
    (if isHold type then
       match parts !! 5%nat with
       | Some p5 =>
         let extraParts := split ":" p5 in
         Ok (Some (parseIntOpt (extraParts !! 0%nat)))
       | None => Throw TypeError
       end
     else Ok None)
    (fun endTime => Ok (mkHitObject x y time type hitSound endTime clampedColumn)).

(** The [Events] branch. *)
Definition parseEvent (line : string) (d : BeatmapData) : BeatmapData :=
  if startsWith line "0,0," then
    let parts := split "," line in
    match parts !! 2%nat with
    | Some bgName =>
      let bgName :=
        if startsWith bgName quote && endsWith bgName quote
        then slice_1_m1 bgName else bgName in
      if falsyString (backgroundImage d) && isImageName bgName
      then set_backgroundImage (Some bgName) d else d
    | None => d
    end
  else d.

(** The body of the loop [for (let line of lines)]. *)
Definition parseLine (st : ParseState) (line : string) : result ParseState :=
  let line := trim line in
  if String.eqb line "" || startsWith line "//" then Ok st
  else if startsWith line "[" then Ok (set_section (slice_1_m1 line) st)
  else if String.eqb (section st) "General" then
    let '(key, value) := keyValue line in
    Ok (if String.eqb key "AudioFilename"
        then set_data (set_audioFilename value (data st)) st else st)
  else if String.eqb (section st) "Metadata" then
    let '(key, value) := keyValue line in
    let d := data st in
    let d := if String.eqb key "Title" then set_title value d else d in
    let d := if String.eqb key "Artist" then set_artist value d else d in
    let d := if String.eqb key "Creator" then set_creator value d else d in
    let d := if String.eqb key "Version" then set_version value d else d in
    Ok (set_data d st)
  else if String.eqb (section st) "Difficulty" then
    let '(key, value) := keyValue line in
    Ok (if String.eqb key "CircleSize"
        then set_circleSize (parseIntOpt value) st else st)
  else if String.eqb (section st) "Events" then
    Ok (set_data (parseEvent line (data st)) st)
  else if String.eqb (section st) "TimingPoints" then Ok st
  else if String.eqb (section st) "HitObjects" then
    bindR (parseHitObject (circleSize st) line)
      (fun h => Ok (set_data (set_hitObjects (hitObjects (data st) ++ [h]) (data st)) st))
  else Ok st.

(** [(a, b) => a.time - b.time] *)
Definition byTime (a b : HitObject) : num := nsub (time a) (time b).

Definition parseOsuText (text : string) : result BeatmapData :=
  let lines := split newline text in
  bindR (forOf parseLine initialParseState lines)
    (fun st => Ok (set_hitObjects (sort byTime (hitObjects (data st))) (data st))).

(** [parseOSZ].  What the function gets from JSZip and from the
    browser is taken as given: [zip.loadAsync(file)], which delivers the
    entries of the archive in the order of [Object.keys(loadedZip.files)]
    or rejects (the file is not an archive); the content of an entry,
    which its [async] delivers or rejects (the entry cannot be
    decompressed); [new AudioContext()], which may throw;
    [decodeAudioData], which may reject; and [URL.createObjectURL].  The
    names of the entries are the keys of an object, hence pairwise
    different.  A string and a blob of the same entry are not
    distinguished, and [audioBlob.arrayBuffer()] is taken to deliver. *)
Record ZipObject := mkZipObject {
  dir : bool;
  async : result string
}.

Definition findEntry {A} (p : string -> bool) (files : list (string * A))
  : option (string * A) :=
  List.find (fun f => p (fst f)) files.

Definition sameName (a b : string) : bool :=
  String.eqb (toLowerCase a) (toLowerCase b).

Definition noOsuFile : exn := Error "No .osu file found in the archive.".
Definition unreadableOsu : exn := Error "Could not read .osu file.".

(** [loadedZip.file(name)?.async(...)] for a key [name] of
    [loadedZip.files]: [file(name)] is [null] for a folder. *)
Definition readEntry (o : ZipObject) : result (option string) :=
  if dir o then Ok None else bindR (async o) (fun content => Ok (Some content)).

Section Container.

Variable File : Type.
Variable AudioBuffer : Type.
Variable loadAsync : File -> result (list (string * ZipObject)).
Variable newAudioContext : result unit.
Variable decodeAudioData : string -> result AudioBuffer.
Variable createObjectURL : string -> string.

Record Loaded := mkLoaded {
  beatmap : BeatmapData;
  audioBuffer : option AudioBuffer
}.

(** The block under [// Load Audio].  With an undefined
    [data.audioFilename] the callback of [find] throws at the first
    entry. *)
Definition loadAudio (files : list (string * ZipObject)) (d : BeatmapData)
  : result (option AudioBuffer) :=
  match audioFilename d with
  | None => match files with [] => Ok None | _ :: _ => Throw TypeError end
  | Some name =>
    match findEntry (fun filename => sameName filename name) files with
    | Some (audioFile, o) =>
      if String.eqb audioFile "" then Ok None
      else
        bindR (readEntry o) (fun audioBlob =>
        match audioBlob with
        | Some blob =>
          bindR newAudioContext (fun _ =>
          bindR (decodeAudioData blob) (fun buffer => Ok (Some buffer)))
        | None => Ok None
        end)
    | None => Ok None
    end
  end.

(** The block under [// Load Background Image].  A name that matches a
    non-empty [bgFilename] is not empty, so [if (bgFile)] holds for it. *)
Definition loadBackground (files : list (string * ZipObject)) (d : BeatmapData)
  : result BeatmapData :=
  match backgroundImage d with
  | Some bgFilename =>
    if String.eqb bgFilename "" then Ok d
    else match findEntry (fun filename => sameName filename bgFilename) files with
         | Some (_, o) =>
           bindR (readEntry o) (fun bgBlob =>
           match bgBlob with
           | Some blob => Ok (set_backgroundImage (Some (createObjectURL blob)) d)
           | None => Ok (set_backgroundImage None d)
           end)
         | None => Ok (set_backgroundImage None d)
         end
  | None => Ok d
  end.

Definition parseOSZ (file : File) : result Loaded :=
  bindR (loadAsync file) (fun files =>
  match findEntry (fun filename => endsWith filename ".osu") files with
  | None => Throw noOsuFile
  | Some (_, osuFile) =>
    bindR (readEntry osuFile) (fun osuContent =>
    match osuContent with
    | None => Throw unreadableOsu
    | Some osuContent =>
      if String.eqb osuContent "" then Throw unreadableOsu
      else
        bindR (parseOsuText osuContent) (fun d =>
        bindR (loadAudio files d) (fun buffer =>
        bindR (loadBackground files d) (fun d' =>
        Ok (mkLoaded d' buffer))))
    end)
  end).


End Container.

(** An archive that opens, whose entries are files that can be read, in
    a browser that makes an audio context and decodes no audio. *)
Definition fileEntry (name content : string) : string * ZipObject :=
  (name, mkZipObject false (Ok content)).

Definition openedArchive (files : list (string * ZipObject))
  : result (list (string * ZipObject)) := Ok files.

Definition sampleOSZ (files : list (string * ZipObject)) : result (Loaded nat) :=
  parseOSZ (list (string * ZipObject)) nat openedArchive (Ok tt)
    (fun _ => Throw EncodingError) (fun blob => blob) files.

(** *** The notes of a text, in the words of the specification *)

(** The data lines of the section [HitObjects] in the order of the text,
    each with the [CircleSize] in force where it stands: a line belongs to
    the section named by the last header before it, blank lines and
    comments belong to none. *)
Fixpoint noteLines (section : string) (circleSize : num) (lines : list string)
  : list (num * string) :=
  match lines with
  | [] => []
  | l :: ls =>
    let line := trim l in
    if String.eqb line "" || startsWith line "//"
    then noteLines section circleSize ls
    else if startsWith line "[" then noteLines (slice_1_m1 line) circleSize ls
    else if String.eqb section "Difficulty" then
      let '(key, value) := keyValue line in
      noteLines section
        (if String.eqb key "CircleSize" then parseIntOpt value else circleSize) ls
    else if String.eqb section "HitObjects"
    then (circleSize, l) :: noteLines section circleSize ls
    else noteLines section circleSize ls
  end.

Definition hitObjectLines (text : string) : list (num * string) :=
  noteLines "" (Int 4) (split newline text).

(** The note of a [HitObjects] line: each field is what [parseInt] makes
    of the comma-separated part at its place; [endTime] is defined for the
    hold type only, and is what [parseInt] makes of the sixth part up to
    its first colon; the lane is computed from [x], [time] and the
    [CircleSize]. *)
Definition noteOf (cl : num * string) : HitObject :=
  let parts := split "," (trim (snd cl)) in
  let field (i : nat) := parseIntOpt (parts !! i) in
  mkHitObject (field 0%nat) (field 1%nat) (field 2%nat) (field 3%nat) (field 4%nat)
    (if isHold (field 3%nat)
     then Some (parseIntOpt (parts !! 5%nat ≫= fun p5 => split ":" p5 !! 0%nat))
     else None)
    (laneOf (field 0%nat) (field 2%nat) (fst cl)).

(** *** Properties of a timeline, in the words of the specification *)

Definition numeric (n : num) : Prop := exists z, n = Int z.

(** Non-decreasing by [time]. *)
Definition timeLe (a b : HitObject) : Prop :=
  exists ta tb, time a = Int ta /\ time b = Int tb /\ ta <= tb.

Definition sortedByTime (l : list HitObject) : Prop := StronglySorted timeLe l.

Definition laneInRange (h : HitObject) : Prop :=
  exists c, column h = Int c /\ 0 <= c <= 7.

(** A hold note is a note with an [endTime]. *)
Definition holdEndsLater (h : HitObject) : Prop :=
  forall e, endTime h = Some e ->
    exists te t, e = Int te /\ time h = Int t /\ te > t.

Definition timelineInvariant (l : list HitObject) : Prop :=
  sortedByTime l /\ Forall laneInRange l /\ Forall holdEndsLater l.

(** A line that cannot make [parseHitObject] throw: if its fourth
    field has the hold bit, it has a sixth field. *)
Definition holdLineOk (line : string) : bool :=
  let parts := split "," (trim line) in
  implb (isHold (parseIntOpt (parts !! 3%nat))) (bool_decide (is_Some (parts !! 5%nat))).

(** What every pushed note satisfies: a lane that is a number lies in
    [0, 7], and [endTime] is defined exactly for the hold type. *)
Definition pushedOk (h : HitObject) : Prop :=
  (forall c, column h = Int c -> 0 <= c <= 7) /\
  (is_Some (endTime h) <-> isHold (type h) = true).

(** The sections and keys that [parseLine] reads. *)
Definition knownSections : list string :=
  ["General"; "Metadata"; "Difficulty"; "Events"; "TimingPoints"; "HitObjects"].




(** *** Sample chart texts *)

Definition unlines (l : list string) : string :=
  foldr (fun a r => a +:+ String newline r) EmptyString l.

(** A hold note at 700 ms whose extra field gives the end time 500. *)
Definition chartEndBeforeStart : string :=
  unlines ["[HitObjects]"; "448,192,700,128,0,500:0:0:0:0:"].

(** A note whose [x] field is not a number. *)
Definition chartBadX : string :=
  unlines ["[HitObjects]"; "abc,192,500,1,0,0:0:0:0:"].

(** A hold note without the extra field. *)
Definition chartHoldWithoutExtra : string :=
  unlines ["[HitObjects]"; "64,192,1000,128"].

(** Two notes out of order, an unknown section and an unknown key. *)
Definition chartPlain : string :=
  unlines ["[General]"; "AudioFilename: song.mp3"; "Mode: 3";
           "[Colours]"; "Combo1 : 255,192,0";
           "[HitObjects]"; "64,192,2000,1,0,0:0:0:0:";
           "192,192,1000,128,0,1500:0:0:0:0:"].



End OsuParser.



(** ** Comparison of numbers that are fractions *)

Module JsFraction.

(** [a > b] for numbers that are not NaN. *)
Definition Qgtb (a b : Q) : bool := negb (Qle_bool a b).

End JsFraction.

Import JsFraction.

(** ** Further parts of [components/GameCanvas.tsx] *)

Module GameCanvasAssist.

Import GameCanvas.

(** The column of the linear assist for each radial lane, and the assist
    column that a key lights up. *)
Definition RADIAL_TO_LINEAR_MAP : list Z := [2; 2; 3; 3; 0; 0; 1; 1].

Definition KEY_INDEX_MAP (code : string) : option Z :=
  if String.eqb code "KeyD" then Some 0
  else if String.eqb code "KeyF" then Some 1
  else if String.eqb code "KeyJ" then Some 2
  else if String.eqb code "KeyK" then Some 3
  else None.

(** [RADIAL_TO_LINEAR_MAP[n.column]] in [drawLinearAssist]. *)
Definition linearColumn (col : Z) : option Z :=
  if col <? 0 then None else RADIAL_TO_LINEAR_MAP !! Z.to_nat col.

(** The rolling window of [registerHit]:
    [s.hitDeviations.push(e); if (s.hitDeviations.length > 30) s.hitDeviations.shift()],
    for entries [e] of any shape. *)
Definition pushDeviation {A} (hitDeviations : list A) (e : A) : list A :=
  let l := hitDeviations ++ [e] in
  if (30 <? length l)%nat then tail l else l.

(** The engine clock that an event samples. *)
Definition clockOf (e : Event) : Z :=
  match e with
  | KeyDown _ _ currentTimeMs => currentTimeMs
  | KeyUp _ currentTimeMs => currentTimeMs
  | AnimationFrame currentTimeMs => currentTimeMs
  end.

(** Two ticks 60 ms apart, as after a slow frame: the note at 1000 ms is
    155 ms overdue at the first and 215 ms overdue at the second. *)
Definition slowFrames : list Event := [AnimationFrame 1155; AnimationFrame 1215].

Section Selection.

Variable hitObjects : list HitObject.

(** The distance of a note from the clock. *)
Definition distance (now : Z) (n : nat * HitObject) : Z :=
  match time n.2 with Int t => Z.abs (t - now) | NaN => 0 end.

(** [best] is at least as near to the clock as every candidate of the
    lanes [seen], or there is no candidate on them. *)
Definition nearestOn (s : GameStateRef) (now : Z) (seen : list Z)
    (best : option BestHit) : Prop :=
  match best with
  | Some b =>
    exists tb, time (bh_note b) = Int tb /\
               bh_absDiff b = Int (Z.abs (tb - now)) /\
               forall col n, col ∈ seen -> n ∈ laneNotes hitObjects s now col ->
                             Z.abs (tb - now) <= distance now n
  | None => forall col, col ∈ seen -> laneNotes hitObjects s now col = []
  end.

End Selection.

Section Origin.

Variable hitObjects : list HitObject.
Variable autoPlay : bool.
Variable noteSpeedMs : Z.

(** The two ways a note gets judged: graded by a key-down press, or
    missed by a tick. *)
Definition pressOrigin (e : Event) (idx : nat) (k : HitKind) : Prop :=
  exists code now lanes obj col t,
    e = KeyDown code false now /\ autoPlay = false /\
    INPUT_MAPPING code = Some lanes /\
    hitObjects !! idx = Some obj /\ column obj = Int col /\ col ∈ lanes /\
    time obj = Int t /\
    ((k = Perfect /\ Z.abs (t - now) <= 80) \/
     (k = Good /\ 80 < Z.abs (t - now) <= 120) \/
     (k = Bad /\ 120 < t - now < 160)).

Definition tickOrigin (e : Event) (idx : nat) (k : HitKind) : Prop :=
  exists now obj t,
    e = AnimationFrame now /\ k = Miss /\
    hitObjects !! idx = Some obj /\ time obj = Int t /\
    160 < now - t <= 200 /\ t <= now + noteSpeedMs.

(** [hitObjects[idx].column === col], the test of the key-up branch. *)
Definition onLane (col : Z) (idx : nat) : bool :=
  match hitObjects !! idx with
  | Some obj => nstrict_eqb (column obj) (Int col)
  | None => false
  end.

(** The held notes of a lane, in the order in which they were hit. *)
Definition heldOn (col : Z) (s : GameStateRef) : list nat :=
  List.filter (onLane col) (holdingIndices s).

(** The held notes are pairwise different processed hold notes. *)
Definition holdInv (s : GameStateRef) : Prop :=
  NoDup (holdingIndices s) /\
  forall i, i ∈ holdingIndices s ->
    i ∈ processedIndices s /\
    exists obj, hitObjects !! i = Some obj /\ endTime_truthy obj = true.

End Origin.

(** *** Sample charts *)

(** A note at 1000 ms on lane 0 and a note at 1100 ms on lane 1. *)
Definition twoLanes : list HitObject := [tapAt 1000 0; tapAt 1100 1].

(** A hold on lane 0 from 1000 to 1500 ms. *)
Definition oneHold : list HitObject :=
  [mkHitObject (Int 0) (Int 0) (Int 1000) (Int 128) (Int 0) (Some (Int 1500)) (Int 0)].

End GameCanvasAssist.

(** ** Chart texts as sequences of lines *)

Module ChartText.

Import OsuParser.

Fixpoint contains (c : ascii) (s : string) : bool :=
  match s with
  | String a s' => Ascii.eqb a c || contains c s'
  | EmptyString => false
  end.

(** The lines joined by an end-of-line sequence, as [lines.join(eol)]. *)
Fixpoint joinWith (eol : string) (lines : list string) : string :=
  match lines with
  | [] => EmptyString
  | [l] => l
  | l :: ls => l +:+ eol +:+ joinWith eol ls
  end.

Definition lf : string := String newline EmptyString.
Definition crlf : string := String "013"%char (String newline EmptyString).

(** *** Sample texts *)

(** The first line of a chart file. *)
Definition formatLine : string := "osu file format v14".

(** A chart whose [General] section names no audio file. *)
Definition chartBareAudio : string := unlines ["[General]"; "AudioFilename"].

End ChartText.

(** ** [generateDemoTrack] of [utils/osuParser.ts] *)

Module DemoTrack.

(** The literals [0.3] and [0.8] as the doubles they denote. *)
Definition double_0_3 : Q := 5404319552844595 # 18014398509481984.
Definition double_0_8 : Q := 3602879701896397 # 4503599627370496.

Definition duration : Z := 60.
Definition bpm : Z := 120.
Definition beatInterval : Z := 60000 / bpm.

(** The loop [for (let t = 2000; t < duration * 1000; t += beatInterval / 2)].
    [random n] is the value of the [n]-th call of [Math.random()] counted
    from the first call of this loop (the calls of the audio synthesis come
    before).  [fuel] bounds the number of iterations. *)
Fixpoint noteLoop (fuel : nat) (random : nat -> Q) (calls : nat) (t : Z)
    (hitObjects : list HitObject) : list HitObject :=
  match fuel with
  | O => hitObjects
  | S fuel' =>
    if t <? duration * 1000 then
      if Qgtb (random calls) double_0_3 then
        let col := Qfloor (random (calls + 1)%nat * 8) in
        let isHold := Qgtb (random (calls + 2)%nat) double_0_8 in
        noteLoop fuel' random (calls + 3)%nat (t + beatInterval / 2)
          (hitObjects ++
             [mkHitObject (Int 0) (Int 0) (Int t)
                (Int (if isHold then 128 else 1)) (Int 0)
                (if isHold then Some (Int (t + beatInterval)) else None)
                (Int col)])
      else noteLoop fuel' random (calls + 1)%nat (t + beatInterval / 2) hitObjects
    else hitObjects
  end.

(** 232 half beats lie between 2000 and 60000 ms. *)
Definition iterations : nat := 232.

(** The chart that [generateDemoTrack] returns (without id and audio). *)
Definition generateDemoTrack (random : nat -> Q) : BeatmapData :=
  mkBeatmapData (Some "Neon Pulse (Procedural 8K)") (Some "System AI")
    (Some "Generated") (Some "Infinite") (Some "generated.wav")
    (noteLoop iterations random 0 2000 []) None.

(** Strictly increasing times. *)
Definition timeLt (a b : HitObject) : Prop :=
  exists ta tb, time a = Int ta /\ time b = Int tb /\ ta < tb.

(** The shape of a generated note: on a half beat from 2000 ms on and
    before 60000 ms, on a lane from 0 to 7, and either a tap of type 1 or a
    hold of type 128 that ends one beat (500 ms) later. *)
Definition demoNote (h : HitObject) : Prop :=
  exists t k col,
    time h = Int t /\ t = 2000 + 250 * k /\ 0 <= k /\ t < 60000 /\
    column h = Int col /\ 0 <= col <= 7 /\
    x h = Int 0 /\ y h = Int 0 /\ hitSound h = Int 0 /\
    ((type h = Int 1 /\ endTime h = None) \/
     (type h = Int 128 /\ endTime h = Some (Int (t + 500)))).

End DemoTrack.

(** ** [App.tsx]: the library and the result screen *)

Module App.

Inductive GameState := MENU | LOADING | PLAYING | RESULTS.

Section Component.

(** A picked [File], a decoded song, the imported [parseOSZ], and the
    [message] of what it throws. *)
Variable File : Type.
Variable Song : Type.
Variable parseOSZ : File -> result Song.
Variable message : exn -> string.

Record AppState := mkAppState {
  gameState : GameState;
  library : list Song;
  selectedSongIndex : Z;
  stats : option GameStats;
  loading : bool;
  error : option string;
  playerRating : Z
}.

(** The loop [for (let i = 0; i < files.length; i++)] with its [await]s:
    the songs decoded before the first failure, or the failure. *)
Fixpoint decodeAll (files : list File) (newSongs : list Song) : result (list Song) :=
  match files with
  | [] => Ok newSongs
  | f :: files' =>
    match parseOSZ f with
    | Ok data => decodeAll files' (newSongs ++ [data])
    | Throw e => Throw e
    end
  end.

(** [err.message || "Failed to parse file"] *)
Definition errorText (e : exn) : string :=
  if String.eqb (message e) "" then "Failed to parse file" else message e.

(** [handleFileUpload], with the state it is called in ([library] is the
    same list in the closure and in the updater of [setLibrary]). *)
Definition handleFileUpload (files : list File) (a : AppState) : AppState :=
  match files with
  | [] => a
  | _ :: _ =>
    match decodeAll files [] with
    | Ok newSongs =>
      mkAppState (gameState a) (library a ++ newSongs)
        (Z.of_nat (length (library a)) + Z.of_nat (length newSongs) - 1)
        (stats a) false None (playerRating a)
    | Throw e =>
      mkAppState (gameState a) (library a) (selectedSongIndex a)
        (stats a) false (Some (errorText e)) (playerRating a)
    end
  end.

(** [library[selectedSongIndex]] *)
Definition currentSong (a : AppState) : option Song :=
  if selectedSongIndex a <? 0 then None
  else library a !! Z.to_nat (selectedSongIndex a).

Definition handleStartGame (a : AppState) : AppState :=
  match currentSong a with
  | Some _ =>
    mkAppState PLAYING (library a) (selectedSongIndex a) (stats a) (loading a)
      (error a) (playerRating a)
  | None => a
  end.

(** [Math.floor(finalStats.score / 10000)] is taken for an integer score. *)
Definition handleGameEnd (finalStats : GameStats) (a : AppState) : AppState :=
  mkAppState RESULTS (library a) (selectedSongIndex a) (Some finalStats) (loading a)
    (error a)
    (if Qgtb (gs_accuracy finalStats) 90
     then playerRating a + gs_score finalStats / 10000
     else playerRating a).

End Component.

End App.
(** ** Facts about the JavaScript library model *)

Module JsFacts.

Lemma insert_sorted_perm {A} (cmp : A -> A -> num) a l :
  insert_sorted cmp a l ≡ₚ a :: l.
Proof.
  induction l as [|b l IH]; simpl; [done|].
  destruct (cmp_le cmp a b); [done|].
  rewrite IH. apply Permutation_swap.
Qed.

Lemma sort_perm {A} (cmp : A -> A -> num) l : sort cmp l ≡ₚ l.
Proof.
  induction l as [|a l IH]; simpl; [done|].
  rewrite insert_sorted_perm. by rewrite IH.
Qed.

Lemma sort_head_elem {A} (cmp : A -> A -> num) l a l' :
  sort cmp l = a :: l' -> a ∈ l.
Proof.
  intros H. rewrite <- (sort_perm cmp l), H. apply list_elem_of_here.
Qed.

Lemma elem_of_indexed {A} (l : list A) i a :
  (i, a) ∈ indexed l <-> l !! i = Some a.
Proof.
  unfold indexed. rewrite elem_of_lookup_imap. split.
  - intros (j & b & [= -> ->] & H). done.
  - intros H. eauto.
Qed.

Lemma elem_of_set_add {A} `{EqDecision A} (a b : A) l :
  b ∈ set_add a l <-> b = a \/ b ∈ l.
Proof.
  unfold set_add. destruct (decide (a ∈ l)).
  - split; [auto|]. intros [->|]; done.
  - rewrite elem_of_app, list_elem_of_singleton. tauto.
Qed.

Lemma NoDup_set_add {A} `{EqDecision A} (a : A) l :
  NoDup l -> NoDup (set_add a l).
Proof.
  intros H. unfold set_add. destruct (decide (a ∈ l)); [done|].
  apply NoDup_app. split_and!; [done| |apply NoDup_singleton].
  intros b Hb Hb'. apply list_elem_of_singleton in Hb'. by subst.
Qed.

Lemma set_of_list_spec {A} `{EqDecision A} (l : list A) :
  NoDup (set_of_list l) /\ forall b, b ∈ set_of_list l <-> b ∈ l.
Proof.
  unfold set_of_list.
  cut (forall acc, NoDup acc ->
         NoDup (foldl (fun acc a => set_add a acc) acc l) /\
         forall b, b ∈ foldl (fun acc a => set_add a acc) acc l <-> b ∈ acc \/ b ∈ l).
  { intros H. destruct (H [] (NoDup_nil_2)) as [H1 H2]. split; [done|].
    intros b. rewrite H2. rewrite elem_of_nil. tauto. }
  induction l as [|a l IH]; intros acc Hacc; simpl.
  - split; [done|]. intros b. rewrite elem_of_nil. tauto.
  - destruct (IH (set_add a acc) (NoDup_set_add a acc Hacc)) as [H1 H2].
    split; [done|]. intros b. rewrite H2, elem_of_set_add, elem_of_cons. tauto.
Qed.

End JsFacts.

(** ** Facts about binary64 rounding *)

Module DoubleFacts.

Import Double.

(** On the sample operands, [(a / b) * c] as modelled is the double that
    the primitive binary64 operations deliver. *)
Lemma round_agrees_with_primitive :
  forallb (fun '(a, b, c) =>
    sameDouble (primitiveMulDiv a b c)
      (mul (div (inject_Z a) (inject_Z b)) (inject_Z c))) samples = true.
Proof. vm_compute. reflexivity. Qed.

(** So it is for the displayed score of every chart of up to 40 notes,
    whatever has been judged. *)
Lemma score_agrees_with_primitive :
  forallb (fun '(a, b, c) =>
    sameDouble (primitiveMulDiv a b c)
      (mul (div (inject_Z a) (inject_Z b)) (inject_Z c))) (scoreFractions 40) = true.
Proof. vm_compute. reflexivity. Qed.

(** With exact arithmetic the first sample would display 517625. *)
Lemma rounding_is_visible :
  floor (mul (div 6150 12000) 1010000) = 517624 /\
  6150 * 1010000 / 12000 = 517625.
Proof. split; vm_compute; reflexivity. Qed.

Lemma pow2_pos k : (0 < pow2 k)%Q.
Proof. apply Qpower_0_lt. reflexivity. Qed.

Lemma pow2_add a b : (pow2 (a + b) == pow2 a * pow2 b)%Q.
Proof. apply Qpower_plus. discriminate. Qed.

Lemma pow2_Z k : 0 <= k -> (pow2 k == inject_Z (2 ^ k))%Q.
Proof. intros H. unfold pow2. by rewrite Zpower_Qpower. Qed.

Lemma pow2_le a b : a <= b -> (pow2 a <= pow2 b)%Q.
Proof. intros H. apply Qpower_le_compat_l; [done|]. discriminate. Qed.

Lemma nearestEven_bounds y :
  (y - (1 # 2) <= inject_Z (nearestEven y) /\ inject_Z (nearestEven y) <= y + (1 # 2))%Q.
Proof.
  unfold nearestEven.
  pose proof (Qfloor_le y) as H1. pose proof (Qlt_floor y) as H2.
  rewrite inject_Z_plus in H2. change (inject_Z 1) with 1%Q in H2.
  destruct (Qcompare_spec (y - inject_Z (Qfloor y)) (1 # 2)) as [E|E|E].
  - destruct (Z.even _); rewrite ?inject_Z_plus; change (inject_Z 1) with 1%Q;
      split; lra.
  - split; lra.
  - rewrite inject_Z_plus. change (inject_Z 1) with 1%Q. split; lra.
Qed.

Lemma nearestEven_le y N : (y < inject_Z N + (1 # 2))%Q -> nearestEven y <= N.
Proof.
  intros H. destruct (nearestEven_bounds y) as [_ H1].
  assert (inject_Z (nearestEven y) < inject_Z (N + 1))%Q as H2.
  { rewrite inject_Z_plus. change (inject_Z 1) with 1%Q. lra. }
  rewrite <- Zlt_Qlt in H2. lia.
Qed.

Lemma nearestEven_nonneg y : (0 <= y)%Q -> 0 <= nearestEven y.
Proof.
  intros H. destruct (nearestEven_bounds y) as [H1 _].
  assert (inject_Z (-1) < inject_Z (nearestEven y))%Q as H2.
  { change (inject_Z (-1)) with (-1)%Q. lra. }
  rewrite <- Zlt_Qlt in H2. lia.
Qed.

Lemma ilog2_le q E : 0 <= E -> (q < pow2 (E + 1))%Q -> ilog2 q <= E.
Proof.
  intros HE H. unfold ilog2.
  destruct (Qle_bool 1 q) eqn:E1.
  - apply Qle_bool_iff in E1.
    assert (0 < Qfloor q) as Hf.
    { pose proof (Qfloor_resp_le _ _ E1) as H1. change (Qfloor 1) with 1 in H1. lia. }
    assert (Qfloor q < 2 ^ (E + 1)) as H2.
    { rewrite Zlt_Qlt. rewrite <- pow2_Z by lia.
      eapply Qle_lt_trans; [apply Qfloor_le|done]. }
    apply Z.log2_lt_pow2 in H2; lia.
  - pose proof (Z.log2_up_nonneg (Qceiling (/ q))). lia.
Qed.

Lemma ilog2_lt_one q : (0 < q)%Q -> (q < 1)%Q -> ilog2 q <= -1.
Proof.
  intros Hq H. unfold ilog2.
  destruct (Qle_bool 1 q) eqn:E1.
  - apply Qle_bool_iff in E1. lra.
  - assert (1 < / q)%Q as H1.
    { apply Qlt_shift_inv_l; [done|]. lra. }
    assert (2 <= Qceiling (/ q)) as H2.
    { pose proof (Qle_ceiling (/ q)) as H3.
      assert (inject_Z 1 < inject_Z (Qceiling (/ q)))%Q as H4
        by (change (inject_Z 1) with 1%Q; lra).
      rewrite <- Zlt_Qlt in H4. lia. }
    pose proof (Z.log2_up_le_mono _ _ H2) as H3.
    change (Z.log2_up 2) with 1 in H3. lia.
Qed.

Lemma ilog2_ge q E : 0 <= E -> (pow2 E <= q)%Q -> E <= ilog2 q.
Proof.
  intros HE H. unfold ilog2.
  assert (1 <= q)%Q as H1.
  { eapply Qle_trans; [|exact H]. change 1%Q with (pow2 0). by apply pow2_le. }
  apply Qle_bool_iff in H1. rewrite H1.
  assert (2 ^ E <= Qfloor q) as H2.
  { rewrite pow2_Z in H by done. apply Qfloor_resp_le in H. by rewrite Qfloor_Z in H. }
  apply Z.log2_le_pow2; [|done].
  pose proof (Z.pow_pos_nonneg 2 E). lia.
Qed.

Lemma round_nonneg q : (0 <= q)%Q -> (0 <= round q)%Q.
Proof.
  intros H. unfold round. destruct (Qeq_bool q 0); [lra|].
  apply Qmult_le_0_compat; [|apply Qlt_le_weak, pow2_pos].
  change 0%Q with (inject_Z 0). rewrite <- Zle_Qle.
  apply nearestEven_nonneg. apply Qle_shift_div_l; [apply pow2_pos|]. lra.
Qed.

Lemma round_scaled q N :
  (q / pow2 (ulp q) < inject_Z N + (1 # 2))%Q -> (0 <= inject_Z N)%Q ->
  (round q <= inject_Z N * pow2 (ulp q))%Q.
Proof.
  intros H H0. unfold round. pose proof (pow2_pos (ulp q)) as Hp.
  destruct (Qeq_bool q 0).
  - apply Qmult_le_0_compat; lra.
  - apply Qmult_le_compat_r; [|lra].
    rewrite <- Zle_Qle. by apply nearestEven_le.
Qed.

Lemma round_le q N K :
  ((0 < q)%Q -> ulp q <= K) -> (0 <= q)%Q -> (q <= inject_Z N * pow2 K)%Q ->
  (round q <= inject_Z N * pow2 K)%Q.
Proof.
  intros Hu H0 H. pose proof (pow2_pos (ulp q)) as Hp. pose proof (pow2_pos K) as HK.
  destruct (Qeq_bool q 0) eqn:Ez.
  { unfold round. rewrite Ez. lra. }
  apply Qeq_bool_neq in Ez.
  assert (0 < q)%Q as Hq by (apply Qle_lteq in H0 as [?|E0]; [done|by symmetry in E0]).
  specialize (Hu Hq).
  assert (pow2 K == inject_Z (2 ^ (K - ulp q)) * pow2 (ulp q))%Q as E.
  { rewrite <- pow2_Z by lia. rewrite <- pow2_add. by replace (K - ulp q + ulp q) with K by lia. }
  assert (0 <= inject_Z N)%Q as HN.
  { destruct (Qlt_le_dec (inject_Z N) 0) as [Hn|Hn]; [|done].
    pose proof (Qmult_lt_compat_r _ _ _ HK Hn) as X.
    rewrite Qmult_0_l in X. lra. }
  rewrite E, Qmult_assoc, <- inject_Z_mult.
  apply round_scaled.
  - apply Qle_lt_trans with (inject_Z (N * 2 ^ (K - ulp q))); [|lra].
    apply Qle_shift_div_r; [done|].
    rewrite inject_Z_mult, <- Qmult_assoc, <- E. done.
  - rewrite inject_Z_mult. apply Qmult_le_0_compat; [done|].
    rewrite <- pow2_Z by lia. apply Qlt_le_weak, pow2_pos.
Qed.

Lemma round_le_half q N K :
  ulp q = K -> (0 <= q)%Q -> (q < (inject_Z N + (1 # 2)) * pow2 K)%Q ->
  (round q <= inject_Z N * pow2 K)%Q.
Proof.
  intros <- H0 H. pose proof (pow2_pos (ulp q)) as Hp.
  assert (q / pow2 (ulp q) < inject_Z N + (1 # 2))%Q as Hy.
  { apply Qlt_shift_div_r; [done|]. done. }
  apply round_scaled; [done|].
  assert (0 <= q / pow2 (ulp q))%Q as Hq.
  { apply Qle_shift_div_l; [done|]. lra. }
  assert (inject_Z (-1) < inject_Z N)%Q as HN
    by (change (inject_Z (-1)) with (-1)%Q; lra).
  rewrite <- Zlt_Qlt in HN. change 0%Q with (inject_Z 0). rewrite <- Zle_Qle. lia.
Qed.

Lemma ilog2_comp q q' : (q == q')%Q -> ilog2 q = ilog2 q'.
Proof.
  intros E. unfold ilog2.
  assert (Qle_bool 1 q = Qle_bool 1 q') as ->.
  { destruct (Qle_bool 1 q') eqn:E1.
    - apply Qle_bool_iff. apply Qle_bool_iff in E1. by rewrite E.
    - destruct (Qle_bool 1 q) eqn:E2; [|done].
      apply Qle_bool_iff in E2. rewrite E in E2. apply Qle_bool_iff in E2. congruence. }
  rewrite (Qfloor_comp _ _ E).
  assert (/ q == / q')%Q as E' by (by rewrite E).
  by rewrite (Qceiling_comp _ _ E').
Qed.

Lemma nearestEven_comp q q' : (q == q')%Q -> nearestEven q = nearestEven q'.
Proof.
  intros E. unfold nearestEven. rewrite (Qfloor_comp _ _ E).
  assert (q - inject_Z (Qfloor q') == q' - inject_Z (Qfloor q'))%Q as E'
    by (by rewrite E).
  by rewrite (Qcompare_comp _ _ E' (1 # 2) (1 # 2) (Qeq_refl _)).
Qed.

Lemma ulp_comp q q' : (q == q')%Q -> ulp q = ulp q'.
Proof. intros E. unfold ulp. by rewrite (ilog2_comp (Qabs q) (Qabs q')) by (by rewrite E). Qed.

Lemma round_comp q q' : (q == q')%Q -> (round q == round q')%Q.
Proof.
  intros E. unfold round. rewrite (ulp_comp _ _ E).
  assert (Qeq_bool q 0 = Qeq_bool q' 0) as ->.
  { destruct (Qeq_bool q' 0) eqn:E1.
    - apply Qeq_bool_iff. apply Qeq_bool_iff in E1. by rewrite E.
    - destruct (Qeq_bool q 0) eqn:E2; [|done].
      apply Qeq_bool_iff in E2. rewrite E in E2. apply Qeq_bool_iff in E2. congruence. }
  destruct (Qeq_bool q' 0); [done|].
  by rewrite (nearestEven_comp (q / pow2 (ulp q')) (q' / pow2 (ulp q'))) by (by rewrite E).
Qed.

Lemma ulp_le q E :
  0 <= E -> (0 <= q)%Q -> (q < pow2 (E + 1))%Q -> ulp q <= E - 52.
Proof.
  intros HE H0 H. unfold ulp, prec, emin.
  assert (ilog2 (Qabs q) <= E); [|lia].
  apply ilog2_le; [done|]. by rewrite Qabs_pos.
Qed.

Lemma ulp_lt_one q : (0 < q)%Q -> (q < 1)%Q -> ulp q <= -53.
Proof.
  intros H0 H. unfold ulp, prec, emin.
  assert (ilog2 (Qabs q) <= -1); [|lia].
  rewrite (ilog2_comp _ q) by (apply Qabs_pos; lra). by apply ilog2_lt_one.
Qed.

Lemma ulp_eq q E :
  0 <= E -> (pow2 E <= q)%Q -> (q < pow2 (E + 1))%Q -> ulp q = E - 52.
Proof.
  intros HE H1 H2. pose proof (pow2_pos E) as Hp.
  assert (0 <= q)%Q as H0 by lra.
  pose proof (ulp_le q E HE H0 H2) as Hu.
  unfold ulp, prec, emin in *.
  assert (E <= ilog2 (Qabs q)); [|lia].
  apply ilog2_ge; [done|]. by rewrite Qabs_pos.
Qed.

(** *** The displayed score: [Math.floor((cp / mp) * 1010000)] *)


Lemma quotient_range cp mp :
  0 <= cp <= mp -> 0 < mp -> (0 <= inject_Z cp / inject_Z mp <= 1)%Q.
Proof.
  intros H Hm.
  assert (0 < inject_Z mp)%Q as Hp by (change 0%Q with (inject_Z 0); by rewrite <- Zlt_Qlt).
  split.
  - apply Qle_shift_div_l; [done|]. rewrite Qmult_0_l.
    change 0%Q with (inject_Z 0). rewrite <- Zle_Qle. lia.
  - apply Qle_shift_div_r; [done|]. rewrite Qmult_1_l. rewrite <- Zle_Qle. lia.
Qed.

Lemma div_range cp mp :
  0 <= cp <= mp -> 0 < mp -> (0 <= div (inject_Z cp) (inject_Z mp) <= 1)%Q.
Proof.
  intros H Hm. destruct (quotient_range cp mp H Hm) as [H0 H1]. unfold div.
  split; [by apply round_nonneg|].
  apply Qle_trans with (inject_Z (2 ^ 52) * pow2 (-52))%Q; [|by vm_compute].
  apply round_le; [|done|].
  - intros _. apply (ulp_le _ 0); [done|done|]. change (pow2 (0 + 1)) with 2%Q. lra.
  - eapply Qle_trans; [exact H1|]. by vm_compute.
Qed.

Lemma mul_range r :
  (0 <= r <= 1)%Q -> (0 <= mul r 1010000 <= 1010000)%Q.
Proof.
  intros [H0 H1]. unfold mul.
  assert (0 <= r * 1010000 <= 1010000)%Q as [Hp0 Hp1] by (split; lra).
  split; [by apply round_nonneg|].
  apply Qle_trans with (inject_Z (1010000 * 2 ^ 33) * pow2 (-33))%Q; [|by vm_compute].
  apply round_le; [|done|].
  - intros _. apply (ulp_le _ 19); [done|done|].
    change (pow2 (19 + 1)) with 1048576%Q. lra.
  - eapply Qle_trans; [exact Hp1|]. by vm_compute.
Qed.

Lemma display_range cp mp :
  0 <= cp <= mp -> 0 < mp ->
  0 <= floor (mul (div (inject_Z cp) (inject_Z mp)) 1010000) <= 1010000.
Proof.
  intros H Hm. unfold floor.
  destruct (mul_range _ (div_range cp mp H Hm)) as [H0 H1].
  apply Qfloor_resp_le in H0, H1.
  change (Qfloor 0) with 0 in H0. change (Qfloor 1010000) with 1010000 in H1. lia.
Qed.

Lemma display_zero mp :
  mp <> 0 -> floor (mul (div (inject_Z 0) (inject_Z mp)) 1010000) = 0.
Proof.
  intros Hm. unfold floor, mul, div.
  assert (inject_Z 0 / inject_Z mp == 0)%Q as E by (unfold Qdiv; ring).
  assert (round (inject_Z 0 / inject_Z mp) * 1010000 == 0)%Q as E'.
  { rewrite (round_comp _ _ E). reflexivity. }
  by rewrite (Qfloor_comp _ _ (round_comp _ _ E')).
Qed.

Lemma display_full mp :
  0 < mp -> floor (mul (div (inject_Z mp) (inject_Z mp)) 1010000) = 1010000.
Proof.
  intros Hm. unfold floor, mul, div.
  assert (inject_Z mp / inject_Z mp == 1)%Q as E.
  { apply Qmult_inv_r. change 0%Q with (inject_Z 0). rewrite inject_Z_injective. lia. }
  assert (round (inject_Z mp / inject_Z mp) * 1010000 == 1010000)%Q as E'.
  { rewrite (round_comp _ _ E). reflexivity. }
  by rewrite (Qfloor_comp _ _ (round_comp _ _ E')).
Qed.

Lemma display_partial cp mp :
  0 <= cp < mp -> mp <= 2 ^ 53 ->
  floor (mul (div (inject_Z cp) (inject_Z mp)) 1010000) < 1010000.
Proof.
  intros H Hm. unfold floor.
  assert (0 < inject_Z mp)%Q as Hp
    by (change 0%Q with (inject_Z 0); rewrite <- Zlt_Qlt; lia).
  destruct (quotient_range cp mp) as [Hq0 Hq1]; [lia|lia|].
  set (q := (inject_Z cp / inject_Z mp)%Q) in *.
  assert (q <= inject_Z (2 ^ 53 - 1) * pow2 (-53))%Q as Hq.
  { apply Qle_trans with (inject_Z (2 ^ 53 - 1) / inject_Z (2 ^ 53))%Q; [|by vm_compute].
    unfold q. apply Qle_shift_div_r; [done|].
    unfold Qdiv. rewrite <- Qmult_assoc, (Qmult_comm (/ _)), Qmult_assoc.
    apply Qle_shift_div_l; [reflexivity|].
    rewrite <- !inject_Z_mult, <- Zle_Qle. nia. }
  assert (div (inject_Z cp) (inject_Z mp) <= inject_Z (2 ^ 53 - 1) * pow2 (-53))%Q as Hr.
  { unfold div. fold q. apply round_le; [|done|done].
    intros Hq'. apply ulp_lt_one; [done|].
    eapply Qle_lt_trans; [exact Hq|]. reflexivity. }
  assert (0 <= div (inject_Z cp) (inject_Z mp))%Q as Hr0 by (by apply round_nonneg).
  set (r := div (inject_Z cp) (inject_Z mp)) in *.
  assert (r <= 9007199254740991 # 9007199254740992)%Q as Hr'
    by (eapply Qle_trans; [exact Hr|by vm_compute]).
  assert (mul r 1010000 <= inject_Z (1010000 * 2 ^ 33 - 1) * pow2 (-33))%Q as Hm'.
  { unfold mul. destruct (Qlt_le_dec (r * 1010000) (pow2 19)) as [Hlow|Hhigh].
    - apply Qle_trans with (inject_Z (2 ^ 53) * pow2 (-34))%Q; [|by vm_compute].
      apply round_le; [|lra|].
      + intros _. apply (ulp_le _ 18); [done|lra|done].
      + eapply Qle_trans; [apply Qlt_le_weak, Hlow|]. by vm_compute.
    - apply round_le_half; [|lra|].
      + apply (ulp_eq _ 19); [done|done|].
        change (pow2 (19 + 1)) with 1048576%Q. lra.
      + apply Qle_lt_trans with (1010000 * (9007199254740991 # 9007199254740992))%Q;
          [lra|by vm_compute]. }
  assert (inject_Z (Qfloor (mul r 1010000)) < inject_Z 1010000)%Q as Hf.
  { eapply Qle_lt_trans; [apply Qfloor_le|].
    eapply Qle_lt_trans; [exact Hm'|]. reflexivity. }
  by rewrite <- Zlt_Qlt in Hf.
Qed.

End DoubleFacts.

(** ** Facts about the judging engine *)

Module EngineFacts.

Import GameCanvas JsFacts.

Section Facts.

Variable hitObjects : list HitObject.
Variable autoPlay : bool.
Variable noteSpeedMs : Z.

Lemma changes_one g out g' :
  change hitObjects g out g' -> changes hitObjects g out g'.
Proof.
  intros H. rewrite <- (app_nil_r out). eapply changes_cons; [done|constructor].
Qed.

Lemma changes_trans g1 out1 g2 out2 g3 :
  changes hitObjects g1 out1 g2 -> changes hitObjects g2 out2 g3 ->
  changes hitObjects g1 (out1 ++ out2) g3.
Proof.
  induction 1 as [|? ? ? ? ? Hc Hcs IH]; intros H2; simpl; [done|].
  rewrite <- app_assoc. eapply changes_cons; [done|]. by apply IH.
Qed.

Lemma elem_of_laneNotes s now col idx obj :
  (idx, obj) ∈ laneNotes hitObjects s now col <->
  hitObjects !! idx = Some obj /\ column obj = Int col /\
  (idx ∉ processedIndices s) /\
  exists t, time obj = Int t /\ t - now < HIT_WINDOW_BAD.
Proof.
  unfold laneNotes. rewrite list_elem_of_In, filter_In, <- list_elem_of_In.
  rewrite elem_of_indexed, !andb_true_iff, negb_true_iff.
  unfold has_processed. rewrite bool_decide_eq_false.
  split.
  - intros (H1 & (H2 & H3) & H4). split_and!; try done.
    + destruct (column obj) as [|c]; simpl in H2; [done|].
      apply Z.eqb_eq in H2. by subst.
    + destruct (time obj) as [|t]; simpl in H4; [done|].
      exists t. split; [done|]. by apply Z.ltb_lt.
  - intros (H1 & H2 & H3 & t & H4 & H5). split_and!; try done.
    + rewrite H2. simpl. apply Z.eqb_refl.
    + rewrite H4. simpl. by apply Z.ltb_lt.
Qed.

Lemma selectLane_candidate s now lanes best col :
  col ∈ lanes ->
  (forall b, best = Some b -> candidate hitObjects s now lanes b) ->
  forall b, selectLane hitObjects s now best col = Some b -> candidate hitObjects s now lanes b.
Proof.
  intros Hcol Hbest b. unfold selectLane.
  destruct (sort _ _) as [|[idx cand] rest] eqn:Hs; [by apply Hbest|].
  apply sort_head_elem in Hs. apply elem_of_laneNotes in Hs.
  destruct Hs as (H1 & H2 & H3 & t & H4 & H5).
  assert (candidate hitObjects s now lanes
            (mkBestHit cand idx (nsub (time cand) (Int now))
               (nabs (nsub (time cand) (Int now))))) as Hnew.
  { exists col, t. simpl. rewrite H4. simpl. split_and!; done. }
  destruct best as [b0|].
  - destruct (nltb _ _); intros [= <-]; [done|]. by apply Hbest.
  - by intros [= <-].
Qed.

Lemma selectBestHit_candidate s now lanes b :
  selectBestHit hitObjects s now lanes = Some b -> candidate hitObjects s now lanes b.
Proof.
  unfold selectBestHit.
  cut (forall l best,
         (forall c, c ∈ l -> c ∈ lanes) ->
         (forall b, best = Some b -> candidate hitObjects s now lanes b) ->
         forall b, foldl (selectLane hitObjects s now) best l = Some b ->
                   candidate hitObjects s now lanes b).
  { intros H. apply (H lanes None); [done|done]. }
  induction l as [|c l IH]; intros best Hl Hbest b'; simpl; [by apply Hbest|].
  apply IH.
  - intros c' Hc'. apply Hl. by right.
  - apply selectLane_candidate; [|done]. apply Hl. by left.
Qed.

Lemma judge_changes s now lanes b g :
  candidate hitObjects s now lanes b -> processedIndices (state g) = processedIndices s ->
  changes hitObjects g (snd (judge hitObjects b g)) (fst (judge hitObjects b g)).
Proof.
  intros (col & t & _ & _ & _ & Hnot & _) Hs. unfold judge.
  destruct (gradeOf _ _) as [ty|]; simpl; [|constructor].
  apply changes_one.
  pose proof (change_judge hitObjects g (bh_idx b) ty (endTime_truthy (bh_note b))
                (column (bh_note b)) (bh_diff b)) as H.
  rewrite Hs in H. specialize (H Hnot).
  by destruct (endTime_truthy (bh_note b)).
Qed.

Lemma detectPatterns_changes now g :
  changes hitObjects g (detectPatterns hitObjects now (state g)) g.
Proof.
  unfold detectPatterns. destruct (_ <=? _); [|constructor].
  apply changes_one. constructor.
Qed.

Lemma releaseLane_changes lanes g :
  changes hitObjects g [] (foldl (releaseLane hitObjects) g lanes).
Proof.
  revert g. induction lanes as [|c l IH]; intros g; simpl; [constructor|].
  unfold releaseLane at 2. destruct (List.find _ _) as [i|]; [|apply IH].
  change (@nil Output) with (@nil Output ++ []).
  eapply changes_cons; [apply change_release|apply IH].
Qed.

Lemma handleInput_changes lanes isDown now g :
  changes hitObjects g (snd (handleInput hitObjects lanes isDown now g))
    (fst (handleInput hitObjects lanes isDown now g)).
Proof.
  unfold handleInput. destruct isDown; simpl; [|apply releaseLane_changes].
  destruct (selectBestHit _ _ _ _) as [b|] eqn:Hb.
  - apply selectBestHit_candidate in Hb.
    pose proof (judge_changes _ _ _ b g Hb eq_refl) as H.
    destruct (judge hitObjects b g) as [g1 out1]. simpl in *.
    eapply changes_trans; [done|apply detectPatterns_changes].
  - simpl. apply detectPatterns_changes.
Qed.

Lemma scanNote_changes now g0 acc n :
  changes hitObjects g0 (snd acc) (fst acc) ->
  changes hitObjects g0 (snd (scanNote hitObjects noteSpeedMs now acc n))
    (fst (scanNote hitObjects noteSpeedMs now acc n)).
Proof.
  destruct acc as [g out], n as [idx obj]. simpl. intros H.
  destruct (progress_negative _ _); [done|].
  destruct (negb _ && _) eqn:Hc; [|done]. simpl.
  apply andb_true_iff in Hc as [Hc _]. apply negb_true_iff in Hc.
  unfold has_processed in Hc. apply bool_decide_eq_false in Hc.
  eapply changes_trans; [done|]. apply changes_one.
  apply (change_judge hitObjects g idx Miss false). done.
Qed.

Lemma gameLoop_changes now g :
  changes hitObjects g (snd (gameLoop hitObjects noteSpeedMs now g))
    (fst (gameLoop hitObjects noteSpeedMs now g)).
Proof.
  unfold gameLoop. generalize (visibleNotes hitObjects noteSpeedMs (state g) now).
  intros l.
  cut (forall acc, changes hitObjects g (snd acc) (fst acc) ->
         changes hitObjects g (snd (foldl (scanNote hitObjects noteSpeedMs now) acc l))
           (fst (foldl (scanNote hitObjects noteSpeedMs now) acc l))).
  { intros H. apply H. constructor. }
  induction l as [|n l IH]; intros acc Hacc; simpl; [done|].
  apply IH. by apply scanNote_changes.
Qed.

Lemma step_changes g e :
  changes hitObjects g (snd (step hitObjects autoPlay noteSpeedMs g e))
    (fst (step hitObjects autoPlay noteSpeedMs g e)).
Proof.
  destruct e as [code rep t|code t|t]; simpl.
  - unfold handleKeyDown. destruct (autoPlay || rep); [constructor|].
    destruct (INPUT_MAPPING code); [apply handleInput_changes|constructor].
  - unfold handleKeyUp. destruct autoPlay; [constructor|].
    destruct (INPUT_MAPPING code); [apply handleInput_changes|constructor].
  - apply gameLoop_changes.
Qed.

Lemma run_changes g events :
  changes hitObjects g (snd (run hitObjects autoPlay noteSpeedMs g events))
    (fst (run hitObjects autoPlay noteSpeedMs g events)).
Proof.
  revert g. induction events as [|e es IH]; intros g; simpl; [constructor|].
  pose proof (step_changes g e) as H1.
  destruct (step hitObjects autoPlay noteSpeedMs g e) as [g1 out1].
  pose proof (IH g1) as H2.
  destruct (run hitObjects autoPlay noteSpeedMs g1 es) as [g2 out2].
  simpl in *. by eapply changes_trans.
Qed.

Lemma run_snoc g events e :
  run hitObjects autoPlay noteSpeedMs g (events ++ [e]) =
  let '(g1, out1) := run hitObjects autoPlay noteSpeedMs g events in
  let '(g2, out2) := step hitObjects autoPlay noteSpeedMs g1 e in
  (g2, out1 ++ out2).
Proof.
  revert g. induction events as [|e' es IH]; intros g; simpl.
  - destruct (step _ _ _ g e) as [g2 out2]. by rewrite app_nil_r.
  - destruct (step _ _ _ g e') as [g1 out1]. rewrite IH.
    destruct (run _ _ _ g1 es) as [g2 out2].
    destruct (step _ _ _ g2 e) as [g3 out3]. by rewrite app_assoc.
Qed.

(** *** The scoring fold *)

Lemma registerHit_state type g :
  state (registerHit hitObjects type g) =
  let s := state g in
  mkGameStateRef
    (score s + points type)
    (if decide (type = Miss) then 0 else combo s + 1)
    (if decide (type = Miss) then maxCombo s else Z.max (maxCombo s) (combo s + 1))
    (perfect s + if decide (type = Perfect) then 1 else 0)
    (good s + if decide (type = Good) then 1 else 0)
    (bad s + if decide (type = Bad) then 1 else 0)
    (miss s + if decide (type = Miss) then 1 else 0)
    (processedIndices s) (holdingIndices s).
Proof.
  destruct g as [[sc co mc pe go ba mi pr ho] st].
  destruct type; cbv -[Z.add Z.max Z.gtb];
    try (destruct (Z.gtb_spec (co + 1) mc); cbv -[Z.add Z.max]);
    f_equal; lia.
Qed.

Lemma registerHit_stats type g :
  currentStats (registerHit hitObjects type g) =
  updateStats hitObjects (state (registerHit hitObjects type g)).
Proof. reflexivity. Qed.

(** C5: [registerHit] folds one judgement into the score state: a Miss
    resets [combo] and counts one miss; Perfect, Good and Bad add 300, 100
    and 50 points, count one in their own counter and extend the combo,
    after which [maxCombo] is the larger of its old value and the new
    combo; every other counter is left as it was. *)
Theorem registerHit_fold (g : Game) :
  let s := state g in
  (let s' := state (registerHit hitObjects Miss g) in
   combo s' = 0 /\ miss s' = miss s + 1 /\ score s' = score s /\
   maxCombo s' = maxCombo s /\ perfect s' = perfect s /\ good s' = good s /\
   bad s' = bad s) /\
  (let s' := state (registerHit hitObjects Perfect g) in
   score s' = score s + 300 /\ perfect s' = perfect s + 1 /\
   combo s' = combo s + 1 /\ maxCombo s' = Z.max (maxCombo s) (combo s') /\
   good s' = good s /\ bad s' = bad s /\ miss s' = miss s) /\
  (let s' := state (registerHit hitObjects Good g) in
   score s' = score s + 100 /\ good s' = good s + 1 /\
   combo s' = combo s + 1 /\ maxCombo s' = Z.max (maxCombo s) (combo s') /\
   perfect s' = perfect s /\ bad s' = bad s /\ miss s' = miss s) /\
  (let s' := state (registerHit hitObjects Bad g) in
   score s' = score s + 50 /\ bad s' = bad s + 1 /\
   combo s' = combo s + 1 /\ maxCombo s' = Z.max (maxCombo s) (combo s') /\
   perfect s' = perfect s /\ good s' = good s /\ miss s' = miss s).
Proof.
  cbv zeta. rewrite !registerHit_state. cbv -[Z.add Z.max Z.le Z.lt]. lia.
Qed.

(** *** Invariants of the score state *)

Lemma change_counters g out g' :
  change hitObjects g out g' ->
  counters_le (state g) (state g') /\
  (0 <= combo (state g) <= maxCombo (state g) ->
   0 <= combo (state g') <= maxCombo (state g')).
Proof.
  unfold counters_le.
  destruct 1 as [g idx ty hold col d Hn|g idx|g cols].
  - rewrite registerHit_state.
    destruct hold, ty; simpl; lia.
  - cbn. lia.
  - lia.
Qed.

Lemma changes_counters g out g' :
  changes hitObjects g out g' ->
  counters_le (state g) (state g') /\
  (0 <= combo (state g) <= maxCombo (state g) ->
   0 <= combo (state g') <= maxCombo (state g')).
Proof.
  induction 1 as [g|g1 o1 g2 o2 g3 Hc Hcs IH].
  - unfold counters_le. lia.
  - apply change_counters in Hc. unfold counters_le in *. lia.
Qed.

(** C10: in every state that a run from the initial state reaches,
    [0 <= combo <= maxCombo]; and handling one more event, whatever it is,
    decreases none of score, maxCombo and the four grade counters. *)
Theorem score_state_monotone (events : list Event) (e : Event) :
  let g := fst (run hitObjects autoPlay noteSpeedMs initialGame events) in
  let g' := fst (step hitObjects autoPlay noteSpeedMs g e) in
  0 <= combo (state g) <= maxCombo (state g) /\
  0 <= combo (state g') <= maxCombo (state g') /\
  score (state g) <= score (state g') /\
  maxCombo (state g) <= maxCombo (state g') /\
  perfect (state g) <= perfect (state g') /\
  good (state g) <= good (state g') /\
  bad (state g) <= bad (state g') /\
  miss (state g) <= miss (state g').
Proof.
  cbv zeta.
  pose proof (changes_counters _ _ _ (run_changes initialGame events)) as [_ H0].
  pose proof (changes_counters _ _ _
    (step_changes (fst (run hitObjects autoPlay noteSpeedMs initialGame events)) e))
    as [H1 H2].
  unfold counters_le in H1. cbn in H0. lia.
Qed.

(** *** Accuracy *)

Lemma change_consistent g out g' :
  change hitObjects g out g' -> consistent hitObjects g -> consistent hitObjects g'.
Proof.
  unfold consistent.
  destruct 1 as [g idx ty hold col d Hn|g idx|g cols]; [| |done].
  - intros (_ & H). split; [apply registerHit_stats|].
    rewrite registerHit_state. destruct hold, ty; simpl; lia.
  - intros (H1 & H). split; [|exact H]. exact H1.
Qed.

Lemma changes_consistent g out g' :
  changes hitObjects g out g' -> consistent hitObjects g -> consistent hitObjects g'.
Proof.
  induction 1 as [g|g1 o1 g2 o2 g3 Hc Hcs IH]; [done|].
  intros H. apply IH. by eapply change_consistent.
Qed.

Lemma initialGame_consistent : consistent hitObjects initialGame.
Proof.
  unfold consistent. split; [|cbn; lia].
  unfold updateStats, initialGame, initialStats. cbn -[Z.mul Z.div Z.gtb].
  by destruct (_ >? 0).
Qed.

(** C6: at every point of a run, the displayed accuracy is the points
    earned so far over 300 points per judged note (misses included),
    times 101, and it is 101 while nothing has been judged; it is 101
    after a single Perfect and 50.5 after a Perfect and a Miss. *)
Theorem accuracy_formula (events : list Event) :
  let g := fst (run hitObjects autoPlay noteSpeedMs initialGame events) in
  let s := state g in
  let judged := perfect s + good s + bad s + miss s in
  (gs_accuracy (currentStats g) ==
     if judged =? 0 then 101
     else inject_Z (score s) / inject_Z (judged * 300) * 101)%Q /\
  (gs_accuracy (currentStats initialGame) == 101)%Q /\
  (gs_accuracy (currentStats (registerHit hitObjects Perfect initialGame)) == 101)%Q /\
  (gs_accuracy (currentStats
     (registerHit hitObjects Miss (registerHit hitObjects Perfect initialGame)))
   == 101 # 2)%Q.
Proof.
  cbv zeta. split; [|split_and!; reflexivity].
  pose proof (changes_consistent _ _ _ (run_changes initialGame events)
                initialGame_consistent) as (Hst & Hsc & Hp & Hg & Hb & Hm).
  set (s := state (fst (run hitObjects autoPlay noteSpeedMs initialGame events))) in *.
  rewrite Hst, Hsc. unfold updateStats. cbn [gs_accuracy].
  destruct (Z.eqb_spec (perfect s + good s + bad s + miss s) 0) as [E|E].
  - rewrite E. reflexivity.
  - destruct (Z.gtb_spec ((perfect s + good s + bad s + miss s) * 300) 0);
      [reflexivity|lia].
Qed.

(** *** Each note is judged at most once *)

Lemma judgements_app out1 out2 :
  judgements (out1 ++ out2) = judgements out1 ++ judgements out2.
Proof. unfold judgements. apply bind_app. Qed.

Lemma flashes_app out1 out2 :
  flashes (out1 ++ out2) = flashes out1 ++ flashes out2.
Proof. unfold flashes. apply bind_app. Qed.

Lemma countKind_app k js1 js2 :
  countKind k (js1 ++ js2) = countKind k js1 + countKind k js2.
Proof. unfold countKind. rewrite List.filter_app, length_app. lia. Qed.

Lemma countKind_single k i ty :
  countKind k [(i, ty)] = if decide (ty = k) then 1 else 0.
Proof.
  unfold countKind. cbn [List.filter snd].
  destruct (decide (ty = k)) as [E|E].
  - by rewrite (bool_decide_eq_true_2 _ E).
  - by rewrite (bool_decide_eq_false_2 _ E).
Qed.

Lemma traced_same g out g' :
  judgements out = [] ->
  processedIndices (state g') = processedIndices (state g) ->
  perfect (state g') = perfect (state g) -> good (state g') = good (state g) ->
  bad (state g') = bad (state g) -> miss (state g') = miss (state g) ->
  traced g out g'.
Proof.
  intros E P C1 C2 C3 C4. unfold traced. rewrite E, P, C1, C2, C3, C4.
  unfold countKind. cbn. rewrite (right_id_L ∅ (∪)).
  split_and!; try lia; try done.
  - apply NoDup_nil_2.
  - intros i Hi. by apply elem_of_nil in Hi.
Qed.

Lemma change_traced g out g' : change hitObjects g out g' -> traced g out g'.
Proof.
  unfold traced.
  destruct 1 as [g idx ty hold col d Hn|g idx|g cols].
  - rewrite registerHit_state. cbn [judgements mbind list_bind app fmap list_fmap fst].
    split_and!.
    + apply NoDup_singleton.
    + intros i Hi. apply list_elem_of_singleton in Hi. by subst.
    + destruct hold; cbn; rewrite (right_id_L ∅ (∪)); apply (comm_L (∪)).
    + rewrite countKind_single. destruct hold, ty; cbn; lia.
    + rewrite countKind_single. destruct hold, ty; cbn; lia.
    + rewrite countKind_single. destruct hold, ty; cbn; lia.
    + rewrite countKind_single. destruct hold, ty; cbn; lia.
  - by apply traced_same.
  - by apply traced_same.
Qed.

Lemma changes_traced g out g' : changes hitObjects g out g' -> traced g out g'.
Proof.
  induction 1 as [g|g1 o1 g2 o2 g3 Hc Hcs IH].
  - by apply traced_same.
  - apply change_traced in Hc. unfold traced in *.
    destruct Hc as (N1 & F1 & P1 & C1), IH as (N2 & F2 & P2 & C2).
    rewrite judgements_app, fmap_app, !countKind_app.
    split_and!; try lia.
    + apply NoDup_app. split_and!; [done| |done].
      intros i Hi1 Hi2. apply F2 in Hi2. set_solver.
    + intros i Hi. apply elem_of_app in Hi as [Hi|Hi]; [by apply F1|].
      apply F2 in Hi. set_solver.
    + rewrite P2, P1, list_to_set_app_L. set_solver.
Qed.

(** C4: over any run, no note index occurs in two judgement events, so a
    note is resolved or missed at most once and never both; the processed
    notes are exactly the judged ones, each counted once in the counter of
    its grade; and a processed note stays processed and is not judged by
    any later event. *)
Theorem judged_at_most_once (events : list Event) (e : Event) :
  let g := fst (run hitObjects autoPlay noteSpeedMs initialGame events) in
  let js := judgements (snd (run hitObjects autoPlay noteSpeedMs initialGame events)) in
  NoDup js.*1 /\
  processedIndices (state g) = list_to_set js.*1 /\
  perfect (state g) = countKind Perfect js /\
  good (state g) = countKind Good js /\
  bad (state g) = countKind Bad js /\
  miss (state g) = countKind Miss js /\
  perfect (state g) + good (state g) + bad (state g) + miss (state g)
    = Z.of_nat (length js) /\
  processedIndices (state g) ⊆
    processedIndices (state (fst (step hitObjects autoPlay noteSpeedMs g e))) /\
  (forall i, i ∈ (judgements (snd (step hitObjects autoPlay noteSpeedMs g e))).*1 ->
             i ∉ processedIndices (state g)).
Proof.
  cbv zeta.
  pose proof (changes_traced _ _ _ (run_changes initialGame events))
    as (N & _ & P & C1 & C2 & C3 & C4).
  pose proof (changes_traced _ _ _
    (step_changes (fst (run hitObjects autoPlay noteSpeedMs initialGame events)) e))
    as (_ & F' & P' & _).
  cbn in P, C1, C2, C3, C4.
  split_and!; try done.
  - rewrite P. set_solver.
  - rewrite C1, C2, C3, C4. unfold countKind.
    generalize (judgements (snd (run hitObjects autoPlay noteSpeedMs initialGame events))).
    induction l as [|[i []] l IH]; cbn [List.filter bool_decide snd length] in *;
      repeat (case_bool_decide; try done); cbn [length] in *; lia.
  - rewrite P'. set_solver.
Qed.

(** *** Grading a press *)

Lemma judgements_detectPatterns now s :
  judgements (detectPatterns hitObjects now s) = [].
Proof. unfold detectPatterns. by destruct (_ <=? _). Qed.

Lemma gradeOf_Int d :
  gradeOf (Int d) (Int (Z.abs d)) =
  if Z.abs d <=? 80 then Some Perfect
  else if Z.abs d <=? 120 then Some Good
  else if (120 <? d) && (d <=? 160) then Some Bad
  else None.
Proof. reflexivity. Qed.

Lemma handleInput_down_judgements lanes now g :
  judgements (snd (handleInput hitObjects lanes true now g)) =
  match selectBestHit hitObjects (state g) now lanes with
  | Some b =>
    match gradeOf (bh_diff b) (bh_absDiff b) with
    | Some ty => [(bh_idx b, ty)]
    | None => []
    end
  | None => []
  end.
Proof.
  unfold handleInput.
  destruct (selectBestHit _ _ _ _) as [b|]; simpl.
  - unfold judge. destruct (gradeOf _ _) as [ty|]; simpl;
      by rewrite ?judgements_app, judgements_detectPatterns.
  - apply judgements_detectPatterns.
Qed.

Lemma handleInput_up_output lanes now g :
  snd (handleInput hitObjects lanes false now g) = [].
Proof. reflexivity. Qed.

Lemma handleInput_down_game lanes now g :
  fst (handleInput hitObjects lanes true now g) =
  match selectBestHit hitObjects (state g) now lanes with
  | Some b => fst (judge hitObjects b g)
  | None => g
  end.
Proof.
  unfold handleInput.
  destruct (selectBestHit _ _ _ _) as [b|]; [|done].
  by destruct (judge hitObjects b g).
Qed.

Lemma judge_resolves b g k :
  gradeOf (bh_diff b) (bh_absDiff b) = Some k -> k <> Miss ->
  let r := judge hitObjects b g in
  judgements (snd r) = [(bh_idx b, k)] /\
  state (fst r) =
    (let s := state g in
     mkGameStateRef (score s + points k) (combo s + 1)
       (Z.max (maxCombo s) (combo s + 1))
       (perfect s + if decide (k = Perfect) then 1 else 0)
       (good s + if decide (k = Good) then 1 else 0)
       (bad s + if decide (k = Bad) then 1 else 0)
       (miss s)
       ({[bh_idx b]} ∪ processedIndices s)
       (if endTime_truthy (bh_note b) then set_add (bh_idx b) (holdingIndices s)
        else holdingIndices s)) /\
  currentStats (fst r) = updateStats hitObjects (state (fst r)).
Proof.
  intros Hk Hm. unfold judge. rewrite Hk. cbn [fst snd].
  split; [done|]. split; [|apply registerHit_stats].
  rewrite registerHit_state. cbv zeta.
  destruct (decide (k = Miss)) as [|_]; [done|].
  destruct (endTime_truthy (bh_note b)); cbn; f_equal; lia.
Qed.

Lemma judge_nothing b g :
  gradeOf (bh_diff b) (bh_absDiff b) = None -> judge hitObjects b g = (g, []).
Proof. intros H. unfold judge. by rewrite H. Qed.

Lemma press_resolves lanes now g b k :
  selectBestHit hitObjects (state g) now lanes = Some b ->
  gradeOf (bh_diff b) (bh_absDiff b) = Some k -> k <> Miss ->
  resolves hitObjects g (handleInput hitObjects lanes true now g)
    (bh_idx b) (bh_note b) k.
Proof.
  intros Hb Hk Hm. unfold resolves.
  rewrite handleInput_down_judgements, handleInput_down_game, Hb, Hk.
  destruct (judge_resolves b g k Hk Hm) as (_ & -> & ->).
  cbn. split_and!; reflexivity.
Qed.

Lemma press_resolves_nothing lanes now g b :
  selectBestHit hitObjects (state g) now lanes = Some b ->
  gradeOf (bh_diff b) (bh_absDiff b) = None ->
  resolvesNothing g (handleInput hitObjects lanes true now g).
Proof.
  intros Hb Hk. unfold resolvesNothing.
  rewrite handleInput_down_judgements, handleInput_down_game, Hb, Hk.
  by rewrite judge_nothing.
Qed.

(** C1: when a press matches a note ([selectBestHit] returns it, a note
    that was not processed before), with [diff = note.time -
    currentTimeMs]: the press resolves the note with the grade Perfect if
    [|diff| <= 80], Good if [80 < |diff| <= 120] and Bad if
    [120 < diff <= 160], that is, the note is judged once with that grade,
    marked processed and counted by the scoring tracker; if [diff < -120]
    nothing is judged and the component is left as it was.  On a one-note
    chart: diff 0 is Perfect, 81 is Good, 150 is Bad, and -121 and 170
    resolve no note. *)
Theorem press_grade (lanes : list Z) (now : Z) (g : Game) (b : BestHit)
    (Hmatch : selectBestHit hitObjects (state g) now lanes = Some b) :
  (exists t : Z,
     hitObjects !! bh_idx b = Some (bh_note b) /\
     time (bh_note b) = Int t /\
     (bh_idx b ∉ processedIndices (state g)) /\
     let diff := t - now in
     let r := handleInput hitObjects lanes true now g in
     (Z.abs diff <= 80 -> resolves hitObjects g r (bh_idx b) (bh_note b) Perfect) /\
     (80 < Z.abs diff <= 120 -> resolves hitObjects g r (bh_idx b) (bh_note b) Good) /\
     (120 < diff <= 160 -> resolves hitObjects g r (bh_idx b) (bh_note b) Bad) /\
     (diff < -120 -> resolvesNothing g r)) /\
  (pressOutcome 0 = [(0%nat, Perfect)] /\ judgedAs (pressGame 0) 300 1 0 0) /\
  (pressOutcome 81 = [(0%nat, Good)] /\ judgedAs (pressGame 81) 100 0 1 0) /\
  (pressOutcome 150 = [(0%nat, Bad)] /\ judgedAs (pressGame 150) 50 0 0 1) /\
  (pressOutcome (-121) = [] /\ pressGame (-121) = initialGame) /\
  (pressOutcome 170 = [] /\ pressGame 170 = initialGame).
Proof.
  split.
  - destruct (selectBestHit_candidate _ _ _ _ Hmatch)
      as (col & t & _ & Hidx & _ & Hpend & Ht & Hd & Ha & _).
    exists t. cbv zeta. split_and!; try done.
    + intros H. apply press_resolves; [done| |done].
      rewrite Hd, Ha, gradeOf_Int.
      destruct (Z.leb_spec (Z.abs (t - now)) 80); [done|lia].
    + intros H. apply press_resolves; [done| |done].
      rewrite Hd, Ha, gradeOf_Int.
      destruct (Z.leb_spec (Z.abs (t - now)) 80); [lia|].
      destruct (Z.leb_spec (Z.abs (t - now)) 120); [done|lia].
    + intros H. apply press_resolves; [done| |done].
      rewrite Hd, Ha, gradeOf_Int.
      destruct (Z.leb_spec (Z.abs (t - now)) 80); [lia|].
      destruct (Z.leb_spec (Z.abs (t - now)) 120); [lia|].
      destruct (Z.ltb_spec 120 (t - now)); [|lia].
      destruct (Z.leb_spec (t - now) 160); [done|lia].
    + intros H. apply press_resolves_nothing with b; [done|].
      rewrite Hd, Ha, gradeOf_Int.
      destruct (Z.leb_spec (Z.abs (t - now)) 80); [lia|].
      destruct (Z.leb_spec (Z.abs (t - now)) 120); [lia|].
      destruct (Z.ltb_spec 120 (t - now)); [lia|done].
  - unfold judgedAs.
    split_and!; try (vm_compute; reflexivity);
      apply bool_decide_eq_true_1; vm_compute; reflexivity.
Qed.

(** *** Where a Bad comes from *)

Lemma scanNote_miss now acc n :
  (forall j, j ∈ judgements (snd acc) -> j.2 = Miss) ->
  forall j, j ∈ judgements (snd (scanNote hitObjects noteSpeedMs now acc n)) ->
            j.2 = Miss.
Proof.
  destruct acc as [g out], n as [idx obj]. simpl. intros H.
  destruct (progress_negative _ _); [done|].
  destruct (negb _ && _); [|done]. simpl.
  intros j. rewrite judgements_app, elem_of_app. intros [Hj|Hj]; [by apply H|].
  cbn in Hj. apply list_elem_of_singleton in Hj. by subst.
Qed.

Lemma gameLoop_miss now g j :
  j ∈ judgements (snd (gameLoop hitObjects noteSpeedMs now g)) -> j.2 = Miss.
Proof.
  unfold gameLoop. generalize (visibleNotes hitObjects noteSpeedMs (state g) now).
  intros l. revert j.
  cut (forall acc, (forall j, j ∈ judgements (snd acc) -> j.2 = Miss) ->
         forall j, j ∈ judgements (snd (foldl (scanNote hitObjects noteSpeedMs now) acc l)) ->
                   j.2 = Miss).
  { intros H. apply H. simpl. intros j Hj. by apply elem_of_nil in Hj. }
  induction l as [|n l IH]; intros acc Hacc; simpl; [done|].
  apply IH. by apply scanNote_miss.
Qed.

Lemma bad_origin g e idx :
  (idx, Bad) ∈ judgements (snd (step hitObjects autoPlay noteSpeedMs g e)) ->
  exists code now obj t,
    e = KeyDown code false now /\
    hitObjects !! idx = Some obj /\
    time obj = Int t /\
    120 < t - now < 160 /\
    now < t.
Proof.
  intros Hbad.
  destruct e as [code rep now|code now|now]; cbn [step] in Hbad.
  - unfold handleKeyDown in Hbad.
    destruct autoPlay; cbn -[handleInput] in Hbad; [by apply elem_of_nil in Hbad|].
    destruct rep; cbn -[handleInput] in Hbad; [by apply elem_of_nil in Hbad|].
    destruct (INPUT_MAPPING code) as [lanes|]; [|by apply elem_of_nil in Hbad].
    rewrite handleInput_down_judgements in Hbad.
    destruct (selectBestHit _ _ _ _) as [b|] eqn:Hb; [|by apply elem_of_nil in Hbad].
    destruct (selectBestHit_candidate _ _ _ _ Hb)
      as (col & t & _ & Hidx & _ & _ & Ht & Hd & Ha & Hlt).
    rewrite Hd, Ha, gradeOf_Int in Hbad.
    exists code, now, (bh_note b), t.
    destruct (Z.leb_spec (Z.abs (t - now)) 80);
      [apply list_elem_of_singleton in Hbad; congruence|].
    destruct (Z.leb_spec (Z.abs (t - now)) 120);
      [apply list_elem_of_singleton in Hbad; congruence|].
    destruct (Z.ltb_spec 120 (t - now)); simpl in Hbad;
      [|by apply elem_of_nil in Hbad].
    destruct (Z.leb_spec (t - now) 160); [|by apply elem_of_nil in Hbad].
    apply list_elem_of_singleton in Hbad. injection Hbad as ->.
    unfold HIT_WINDOW_BAD in Hlt. split_and!; try done; lia.
  - unfold handleKeyUp in Hbad.
    destruct autoPlay; [by apply elem_of_nil in Hbad|].
    destruct (INPUT_MAPPING code) as [lanes|]; by apply elem_of_nil in Hbad.
  - apply gameLoop_miss in Hbad. done.
Qed.

Lemma late_press_resolves_nothing g code repeat now lanes b t :
  INPUT_MAPPING code = Some lanes ->
  selectBestHit hitObjects (state g) now lanes = Some b ->
  time (bh_note b) = Int t -> t - now < - HIT_WINDOW_GOOD ->
  resolvesNothing g (step hitObjects autoPlay noteSpeedMs g (KeyDown code repeat now)).
Proof.
  intros Hmap Hb Ht Hlate. cbn [step]. unfold handleKeyDown.
  destruct (autoPlay || repeat); [done|]. rewrite Hmap.
  apply press_resolves_nothing with b; [done|].
  destruct (selectBestHit_candidate _ _ _ _ Hb)
    as (col & t' & _ & _ & _ & _ & Ht' & Hd & Ha & _).
  rewrite Ht in Ht'. injection Ht' as <-.
  rewrite Hd, Ha, gradeOf_Int. unfold HIT_WINDOW_GOOD in Hlate.
  destruct (Z.leb_spec (Z.abs (t - now)) 80); [lia|].
  destruct (Z.leb_spec (Z.abs (t - now)) 120); [lia|].
  destruct (Z.ltb_spec 120 (t - now)); [lia|done].
Qed.

(** C2, as the code has it: a Bad is only ever assigned by a key-down
    press that comes early, to a note that lies more than 120 ms and less
    than 160 ms ahead of the clock ([currentTimeMs < note.time]).  A late
    press beyond the Good window, one whose matched note lies more than
    120 ms behind the clock, yields no Bad: it resolves no note, nothing is
    judged and the component is left as it was. *)
Theorem bad_only_when_early (g : Game) (e : Event) :
  (forall idx,
     (idx, Bad) ∈ judgements (snd (step hitObjects autoPlay noteSpeedMs g e)) ->
     exists code now obj t,
       e = KeyDown code false now /\
       hitObjects !! idx = Some obj /\
       time obj = Int t /\
       120 < t - now < 160 /\
       now < t) /\
  (forall code repeat now lanes b t,
     e = KeyDown code repeat now ->
     INPUT_MAPPING code = Some lanes ->
     selectBestHit hitObjects (state g) now lanes = Some b ->
     time (bh_note b) = Int t ->
     t - now < - HIT_WINDOW_GOOD ->
     resolvesNothing g (step hitObjects autoPlay noteSpeedMs g e)).
Proof.
  split.
  - intros idx. apply bad_origin.
  - intros code repeat now lanes b t -> Hmap Hb Ht Hlate.
    by eapply late_press_resolves_nothing.
Qed.

(** *** The miss scan *)

Lemma scanNote_processed_mono now acc n i :
  i ∈ processedIndices (state (fst acc)) ->
  i ∈ processedIndices (state (fst (scanNote hitObjects noteSpeedMs now acc n))).
Proof.
  destruct acc as [g out], n as [idx obj]. simpl. intros H.
  destruct (progress_negative _ _); [done|].
  destruct (negb _ && _); [|done]. simpl. set_solver.
Qed.

Lemma scan_processed_mono now l acc i :
  i ∈ processedIndices (state (fst acc)) ->
  i ∈ processedIndices (state (fst (foldl (scanNote hitObjects noteSpeedMs now) acc l))).
Proof.
  revert acc. induction l as [|n l IH]; intros acc H; simpl; [done|].
  apply IH. by apply scanNote_processed_mono.
Qed.

Lemma scan_processes now l acc idx obj :
  (idx, obj) ∈ l ->
  progress_negative noteSpeedMs (nsub (time obj) (Int now)) = false ->
  nltb (nsub (time obj) (Int now)) (Int (- HIT_WINDOW_BAD)) = true ->
  idx ∈ processedIndices (state (fst (foldl (scanNote hitObjects noteSpeedMs now) acc l))).
Proof.
  intros Hin Hp Hl. revert acc.
  induction l as [|n l IH]; intros acc; [by apply elem_of_nil in Hin|].
  apply elem_of_cons in Hin as [<-|Hin]; [|by apply IH].
  simpl. apply scan_processed_mono.
  destruct acc as [g out]. simpl. rewrite Hp, Hl.
  destruct (has_processed (state g) idx) eqn:E; simpl.
  - unfold has_processed in E. by apply bool_decide_eq_true in E.
  - set_solver.
Qed.

Lemma elem_of_visibleNotes s now idx obj t :
  hitObjects !! idx = Some obj -> idx ∉ processedIndices s ->
  time obj = Int t -> now - 200 <= t <= now + noteSpeedMs ->
  (idx, obj) ∈ visibleNotes hitObjects noteSpeedMs s now.
Proof.
  intros Hidx Hn Ht Hw. unfold visibleNotes.
  rewrite list_elem_of_In, filter_In, <- list_elem_of_In, elem_of_indexed.
  split; [done|]. unfold has_processed.
  rewrite (bool_decide_eq_false_2 _ Hn), Ht. simpl.
  apply andb_true_iff. split; apply Z.leb_le; lia.
Qed.

Lemma changes_combo_after_miss g out g' :
  changes hitObjects g out g' ->
  (forall j, j ∈ judgements out -> j.2 = Miss) ->
  (judgements out = [] -> combo (state g') = combo (state g)) /\
  (judgements out <> [] -> combo (state g') = 0).
Proof.
  induction 1 as [g|g1 o1 g2 o2 g3 Hc Hcs IH]; intros Hall; [done|].
  rewrite judgements_app in *.
  destruct IH as [IH1 IH2].
  { intros j Hj. apply Hall, elem_of_app. by right. }
  destruct Hc as [g idx ty hold col d Hn|g idx|g cols]; [| |].
  - assert (ty = Miss) as ->.
    { apply (Hall (idx, ty)), elem_of_app. left. cbn. apply list_elem_of_here. }
    assert (combo (state (registerHit hitObjects Miss
              (if hold then add_holding idx (add_processed idx g)
               else add_processed idx g))) = 0) as H0.
    { rewrite registerHit_state. by destruct hold. }
    split; [done|]. intros _.
    destruct (judgements o2) as [|j js] eqn:E; [by rewrite IH1|].
    by apply IH2.
  - cbn in *. split; [intros E; by rewrite IH1|done].
  - cbn in *. split; [intros E; by rewrite IH1|done].
Qed.

(** X22: on a tick at clock [now], a note that is still unprocessed and
    whose time lies more than 160 ms but at most 200 ms in the past is
    marked processed and judged Miss by the scan, with no input; the scan
    judges it exactly once, leaves the combo at 0, and no later event
    judges it again. *)
Theorem auto_miss (g : Game) (now : Z) (idx : nat) (obj : HitObject) (t : Z)
    (Hspeed : 0 <= noteSpeedMs)
    (Hidx : hitObjects !! idx = Some obj)
    (Htime : time obj = Int t)
    (Hpending : idx ∉ processedIndices (state g))
    (Hlate : 160 < now - t <= 200) :
  let g' := fst (gameLoop hitObjects noteSpeedMs now g) in
  let js := judgements (snd (gameLoop hitObjects noteSpeedMs now g)) in
  idx ∈ processedIndices (state g') /\
  (exists js1 js2, js = js1 ++ (idx, Miss) :: js2 /\
                   (idx ∉ js1.*1) /\ (idx ∉ js2.*1)) /\
  combo (state g') = 0 /\
  forall events,
    idx ∉ (judgements (snd (run hitObjects autoPlay noteSpeedMs g' events))).*1.
Proof.
  cbv zeta.
  pose proof (changes_traced _ _ _ (gameLoop_changes now g)) as (N & F & P & _).
  assert (idx ∈ processedIndices (state (fst (gameLoop hitObjects noteSpeedMs now g))))
    as Hin.
  { unfold gameLoop. apply (scan_processes now _ _ idx obj).
    - apply (elem_of_visibleNotes _ _ _ _ t); try done. lia.
    - rewrite Htime. simpl. destruct (Z.ltb_spec 0 noteSpeedMs).
      + apply Z.ltb_ge. lia.
      + destruct (Z.ltb_spec noteSpeedMs 0); [lia|]. apply Z.ltb_ge. lia.
    - rewrite Htime. simpl. apply Z.ltb_lt. unfold HIT_WINDOW_BAD. lia. }
  assert ((idx, Miss) ∈ judgements (snd (gameLoop hitObjects noteSpeedMs now g)))
    as Hj.
  { rewrite P in Hin. apply elem_of_union in Hin as [Hin|Hin]; [done|].
    apply elem_of_list_to_set, list_elem_of_fmap in Hin as ([i k] & -> & Hin).
    pose proof (gameLoop_miss _ _ _ Hin) as Hk. simpl in Hk. by subst. }
  split_and!.
  - done.
  - apply list_elem_of_split in Hj as (js1 & js2 & E).
    exists js1, js2. rewrite E in N.
    rewrite fmap_app, fmap_cons in N. simpl in N.
    apply NoDup_app in N as (_ & N1 & N2). apply NoDup_cons in N2 as [N2 _].
    split_and!; [done| |done].
    intros H1. apply (N1 idx H1). apply list_elem_of_here.
  - eapply changes_combo_after_miss; [apply gameLoop_changes| |].
    + intros j. apply gameLoop_miss.
    + intros E. rewrite E in Hj. by apply elem_of_nil in Hj.
  - intros events Hev.
    pose proof (changes_traced _ _ _
      (run_changes (fst (gameLoop hitObjects noteSpeedMs now g)) events))
      as (_ & F' & _).
    by apply (F' idx Hev).
Qed.

(** *** The pattern classifier *)

Lemma flashes_judge b g : flashes (snd (judge hitObjects b g)) = [].
Proof. unfold judge. by destruct (gradeOf _ _). Qed.

Lemma scanNote_no_flash now acc n :
  flashes (snd acc) = [] ->
  flashes (snd (scanNote hitObjects noteSpeedMs now acc n)) = [].
Proof.
  destruct acc as [g out], n as [idx obj]. simpl. intros H.
  destruct (progress_negative _ _); [done|].
  destruct (negb _ && _); [|done]. simpl.
  by rewrite flashes_app, H.
Qed.

Lemma gameLoop_no_flash now g :
  flashes (snd (gameLoop hitObjects noteSpeedMs now g)) = [].
Proof.
  unfold gameLoop. generalize (visibleNotes hitObjects noteSpeedMs (state g) now).
  intros l.
  cut (forall acc, flashes (snd acc) = [] ->
         flashes (snd (foldl (scanNote hitObjects noteSpeedMs now) acc l)) = []).
  { intros H. by apply H. }
  induction l as [|n l IH]; intros acc Hacc; simpl; [done|].
  apply IH. by apply scanNote_no_flash.
Qed.

Lemma detectPatterns_lanes now s :
  exists cols : list num,
    NoDup cols /\
    (forall c, c ∈ cols <->
       exists idx obj t,
         hitObjects !! idx = Some obj /\ idx ∈ processedIndices s /\
         time obj = Int t /\ Z.abs (t - now) < 40 /\ column obj = c) /\
    detectPatterns hitObjects now s =
      if decide (2 <= length cols)%nat then [GeometricFlash cols] else [].
Proof.
  unfold detectPatterns.
  set (recentHits := List.filter _ _).
  exists (set_of_list (map (fun h => column h.2) recentHits)).
  destruct (set_of_list_spec (map (fun h : nat * HitObject => column h.2) recentHits))
    as [Hnd Hin].
  split_and!; [done| |].
  - intros c. rewrite Hin, list_elem_of_In, in_map_iff. split.
    + intros ([idx obj] & <- & H). unfold recentHits in H.
      apply filter_In in H as [H1 H2].
      apply list_elem_of_In, elem_of_indexed in H1.
      apply andb_true_iff in H2 as [H2 H3].
      unfold has_processed in H2. apply bool_decide_eq_true in H2.
      destruct (time obj) as [|t] eqn:Ht; [done|].
      simpl in H3. apply Z.ltb_lt in H3.
      exists idx, obj, t. done.
    + intros (idx & obj & t & H1 & H2 & H3 & H4 & <-).
      exists (idx, obj). split; [done|]. unfold recentHits.
      apply filter_In. split; [by apply list_elem_of_In, elem_of_indexed|].
      unfold has_processed. rewrite (bool_decide_eq_true_2 _ H2), H3. simpl.
      by apply Z.ltb_lt.
  - destruct (Z.leb_spec 2 (Z.of_nat (length (set_of_list
               (map (fun h : nat * HitObject => column h.2) recentHits)))));
      destruct (decide _); try done; lia.
Qed.

(** C9, as the code has it: every key-down press, whether or not it
    resolves a note, runs the classifier on the state after the press.
    The classifier collects the processed notes (hit or missed) whose
    [time] is less than 40 ms from the clock of the press and emits one
    event carrying their distinct lanes iff there are at least two; key-up
    events and ticks emit nothing; and the state after a press is the one
    the judging alone produces.  For a three-note chord at 1000 ms: presses
    at 1000, 1010 and 1020 emit a 2-lane event and then one 3-lane event,
    and presses at 950, 1000 and 1050 emit one 2-lane event. *)
Theorem pattern_events (lanes : list Z) (now : Z) (g : Game) :
  let judged :=
    match selectBestHit hitObjects (state g) now lanes with
    | Some b => judge hitObjects b g
    | None => (g, [])
    end in
  fst (handleInput hitObjects lanes true now g) = fst judged /\
  judgements (snd (handleInput hitObjects lanes true now g)) = judgements (snd judged) /\
  flashes (snd (handleInput hitObjects lanes true now g)) =
    flashes (detectPatterns hitObjects now (state (fst judged))) /\
  (exists cols : list num,
     NoDup cols /\
     (forall c, c ∈ cols <->
        exists idx obj t,
          hitObjects !! idx = Some obj /\
          idx ∈ processedIndices (state (fst judged)) /\
          time obj = Int t /\ Z.abs (t - now) < 40 /\ column obj = c) /\
     detectPatterns hitObjects now (state (fst judged)) =
       if decide (2 <= length cols)%nat then [GeometricFlash cols] else []) /\
  flashes (snd (handleInput hitObjects lanes false now g)) = [] /\
  flashes (snd (gameLoop hitObjects noteSpeedMs now g)) = [] /\
  flashes (snd (run chord3 false 800 initialGame
     [KeyDown "KeyJ" false 1000; KeyDown "KeyK" false 1010; KeyDown "KeyD" false 1020]))
    = [[Int 0; Int 2]; [Int 0; Int 2; Int 4]] /\
  flashes (snd (run chord3 false 800 initialGame
     [KeyDown "KeyJ" false 950; KeyDown "KeyK" false 1000; KeyDown "KeyD" false 1050]))
    = [[Int 0; Int 2]].
Proof.
  cbv zeta. unfold handleInput.
  destruct (selectBestHit _ _ _ _) as [b|]; simpl.
  - destruct (judge hitObjects b g) as [g1 out1] eqn:E. simpl.
    pose proof (flashes_judge b g) as Hf. rewrite E in Hf. simpl in Hf.
    rewrite judgements_app, flashes_app, judgements_detectPatterns, Hf, app_nil_r.
    split_and!; try done.
    + apply detectPatterns_lanes.
    + apply gameLoop_no_flash.
  - rewrite judgements_detectPatterns.
    split_and!; try done.
    + apply detectPatterns_lanes.
    + apply gameLoop_no_flash.
Qed.

End Facts.

(** *** Concrete runs *)

(** At clock 1000 a press of J on a chart with one note at 1000 ms
    matches that note and resolves it as Perfect: it is judged, processed
    and counted. *)
Lemma press_grade_witness :
  let r := handleInput [tapAt 1000 0] [0; 1] true 1000 initialGame in
  selectBestHit [tapAt 1000 0] (state initialGame) 1000 [0; 1] =
    Some (mkBestHit (tapAt 1000 0) 0 (Int 0) (Int 0)) /\
  judgements (snd r) = [(0%nat, Perfect)] /\
  processedIndices (state (fst r)) = {[0%nat]} ∪ ∅ /\
  score (state (fst r)) = 0 + 300 /\
  perfect (state (fst r)) = 0 + 1.
Proof.
  cbv zeta. split; [vm_compute; reflexivity|].
  destruct (press_grade [tapAt 1000 0] [0; 1] 1000 initialGame
              (mkBestHit (tapAt 1000 0) 0 (Int 0) (Int 0)))
    as [(t & _ & Ht & _ & Hp & _) _]; [vm_compute; reflexivity|].
  injection Ht as <-.
  destruct Hp as (H1 & H2 & _ & H4 & H5 & _); [simpl; lia|].
  split_and!; [exact H1|exact H2|exact H4|exact H5].
Defined.

(** The press at 850 for the note at 1000 is the key-down event that
    [bad_only_when_early] describes, and the press at 1150 for the same
    note, 150 ms late, resolves nothing. *)
Lemma bad_only_when_early_witness :
  (0%nat, Bad) ∈ judgements (snd (step [tapAt 1000 0] false 800 initialGame
                                   (KeyDown "KeyJ" false 850))) /\
  (exists code now obj t,
     KeyDown "KeyJ" false 850 = KeyDown code false now /\
     [tapAt 1000 0] !! 0%nat = Some obj /\
     time obj = Int t /\
     120 < t - now < 160 /\
     now < t) /\
  resolvesNothing initialGame
    (step [tapAt 1000 0] false 800 initialGame (KeyDown "KeyJ" false 1150)).
Proof.
  assert ((0%nat, Bad) ∈ judgements (snd (step [tapAt 1000 0] false 800 initialGame
                                            (KeyDown "KeyJ" false 850)))) as H.
  { vm_compute. apply list_elem_of_here. }
  split; [exact H|]. split.
  - exact (proj1 (bad_only_when_early [tapAt 1000 0] false 800 initialGame
                    (KeyDown "KeyJ" false 850)) 0%nat H).
  - apply (proj2 (bad_only_when_early [tapAt 1000 0] false 800 initialGame
                    (KeyDown "KeyJ" false 1150))
             "KeyJ"%string false 1150 [0; 1]
             (mkBestHit (tapAt 1000 0) 0 (Int (-150)) (Int 150)) 1000);
      [reflexivity|reflexivity|vm_compute; reflexivity|reflexivity|vm_compute; reflexivity].
Defined.

(** C2 fails as stated: at clock 1000 the press for a note at 1150 ms,
    whose time has not passed, is graded Bad, and the press for a note at
    850 ms, whose time has passed, resolves nothing. *)
Lemma bad_for_early_press_counterexample :
  pressOutcome 150 = [(0%nat, Bad)] /\
  [tapAt (1000 + 150) 0] !! 0%nat = Some (tapAt 1150 0) /\
  ~ (1000 > 1150) /\
  pressOutcome (-150) = [].
Proof. split_and!; [by vm_compute|done|lia|by vm_compute]. Qed.

(** The tick at 1170 misses the untouched note at 1000 ms. *)
Lemma auto_miss_witness :
  let r := gameLoop [tapAt 1000 0] 800 1170 initialGame in
  0%nat ∈ processedIndices (state (fst r)) /\ combo (state (fst r)) = 0.
Proof.
  destruct (auto_miss [tapAt 1000 0] false 800 initialGame 1170 0 (tapAt 1000 0) 1000)
    as (H1 & _ & H3 & _);
    [lia | reflexivity | reflexivity | apply not_elem_of_empty | lia |].
  split; assumption.
Defined.

(** C9 fails as stated: after the two notes of a chord were hit at 1000,
    a press of F at 1010 resolves no note and still emits a 2-lane event;
    and three presses 50 ms apart on a chord do emit an event. *)
Lemma flash_without_judgement_counterexample :
  let g := fst (run chord3 false 800 initialGame
                  [KeyDown "KeyJ" false 1000; KeyDown "KeyK" false 1000]) in
  let out := snd (step chord3 false 800 g (KeyDown "KeyF" false 1010)) in
  judgements out = [] /\ flashes out = [[Int 0; Int 2]] /\
  flashes (snd (run chord3 false 800 initialGame
     [KeyDown "KeyJ" false 950; KeyDown "KeyK" false 1000; KeyDown "KeyD" false 1050]))
    <> [].
Proof. split_and!; by vm_compute. Qed.

End EngineFacts.

(** ** Facts about the chart decoder *)

Module DecoderFacts.

Import OsuParser JsFacts.

(** *** The sort by time *)

Lemma cmp_le_byTime a b ta tb :
  time a = Int ta -> time b = Int tb -> cmp_le byTime a b = (ta <=? tb).
Proof.
  intros Ha Hb. unfold cmp_le, byTime. rewrite Ha, Hb. simpl.
  destruct (Z.leb_spec (ta - tb) 0), (Z.leb_spec ta tb); (done || lia).
Qed.

Lemma timeLe_trans a b c : timeLe a b -> timeLe b c -> timeLe a c.
Proof.
  intros (ta & tb & Ha & Hb & H1) (tb' & tc & Hb' & Hc & H2).
  exists ta, tc. split_and!; try done. rewrite Hb in Hb'. injection Hb' as <-. lia.
Qed.

Lemma insert_sorted_byTime a l :
  numeric (time a) -> Forall (fun h => numeric (time h)) l ->
  sortedByTime l -> sortedByTime (insert_sorted byTime a l).
Proof.
  unfold sortedByTime. intros [ta Ha] Hnum Hs.
  induction l as [|b l IH]; simpl.
  - repeat constructor.
  - apply Forall_cons in Hnum as [[tb Hb] Hnum].
    apply StronglySorted_inv in Hs as [Hs Hb_le].
    rewrite (cmp_le_byTime a b ta tb Ha Hb).
    destruct (Z.leb_spec ta tb) as [Hle|Hlt].
    + constructor; [by constructor|].
      assert (timeLe a b) as Hab by (exists ta, tb; done).
      constructor; [done|].
      eapply Forall_impl; [exact Hb_le|]. intros c Hc. by eapply timeLe_trans.
    + constructor; [by apply IH|].
      rewrite insert_sorted_perm. constructor; [|done].
      exists tb, ta. split_and!; try done. lia.
Qed.

Lemma sort_byTime_sorted l :
  Forall (fun h => numeric (time h)) l -> sortedByTime (sort byTime l).
Proof.
  induction l as [|a l IH]; intros Hnum; simpl; [constructor|].
  apply Forall_cons in Hnum as [Ha Hnum].
  apply insert_sorted_byTime; [done| |by apply IH].
  by rewrite sort_perm.
Qed.


(** *** The notes of a text *)

Lemma parseHitObject_noteOf cs l :
  parseHitObject cs (trim l) =
  if holdLineOk l then Ok (noteOf (cs, l)) else Throw TypeError.
Proof.
  unfold parseHitObject, holdLineOk, noteOf. cbn [fst snd].
  destruct (isHold _); [|done].
  by destruct (split "," (trim l) !! 5%nat).
Qed.

(** A line either is a data line of [HitObjects], or leaves the notes as
    they are and cannot fail. *)
Lemma parseLine_cases st l :
  ((forall ls, noteLines (section st) (circleSize st) (l :: ls) =
               (circleSize st, l) :: noteLines (section st) (circleSize st) ls) /\
   parseLine st l =
     bindR (parseHitObject (circleSize st) (trim l))
       (fun h => Ok (set_data (set_hitObjects (hitObjects (data st) ++ [h]) (data st)) st)))
  \/ (exists st',
        parseLine st l = Ok st' /\
        hitObjects (data st') = hitObjects (data st) /\
        forall ls, noteLines (section st) (circleSize st) (l :: ls) =
                   noteLines (section st') (circleSize st') ls).
Proof.
  unfold parseLine. cbn [noteLines].
  destruct (_ || _); [right; by eexists|].
  destruct (startsWith _ "["); [right; by eexists|].
  destruct (String.eqb_spec (section st) "General") as [E|N1].
  { right. rewrite E. destruct (keyValue _) as [k v].
    destruct (String.eqb k _); eexists; split_and!; try done; cbn; by rewrite E. }
  destruct (String.eqb_spec (section st) "Metadata") as [E|N2].
  { right. rewrite E. destruct (keyValue _) as [k v].
    eexists; split_and!; try done; [|cbn; by rewrite E].
    cbn. by repeat (destruct (String.eqb k _)). }
  destruct (String.eqb_spec (section st) "Difficulty") as [E|N3].
  { right. destruct (keyValue _) as [k v].
    destruct (String.eqb k _); eexists; split_and!; done. }
  destruct (String.eqb_spec (section st) "Events") as [E|N4].
  { right. rewrite E. eexists; split_and!; try done; [|cbn; by rewrite E].
    cbn. unfold parseEvent. destruct (startsWith _ _); [|done].
    destruct (_ !! _); [|done]. by destruct (_ && _). }
  destruct (String.eqb_spec (section st) "TimingPoints") as [E|N5].
  { right. rewrite E. eexists; split_and!; try done. by rewrite E. }
  destruct (String.eqb_spec (section st) "HitObjects") as [E|N6].
  - by left.
  - right. by eexists.
Qed.

Lemma forOf_parseLine_notes lines st :
  match forOf parseLine st lines with
  | Ok st' =>
    hitObjects (data st') =
      hitObjects (data st) ++ map noteOf (noteLines (section st) (circleSize st) lines) /\
    Forall (fun cl => holdLineOk cl.2 = true) (noteLines (section st) (circleSize st) lines)
  | Throw e =>
    e = TypeError /\
    Exists (fun cl => holdLineOk cl.2 = false) (noteLines (section st) (circleSize st) lines)
  end.
Proof.
  revert st. induction lines as [|l ls IH]; intros st.
  { simpl. by rewrite app_nil_r. }
  cbn [forOf].
  destruct (parseLine_cases st l) as [[Hn ->]|(st1 & -> & Hh & Hn)]; rewrite Hn.
  - rewrite parseHitObject_noteOf.
    destruct (holdLineOk l) eqn:Hl; cbn [bindR].
    + specialize (IH (set_data (set_hitObjects
                        (hitObjects (data st) ++ [noteOf (circleSize st, l)]) (data st)) st)).
      cbn [section circleSize data set_data set_hitObjects hitObjects] in IH.
      destruct (forOf parseLine _ ls) as [st'|e].
      * destruct IH as [IH1 IH2]. split; [|by constructor].
        rewrite IH1. cbn [map]. by rewrite <- app_assoc.
      * destruct IH as [IH1 IH2]. split; [done|]. by apply Exists_cons_tl.
    + split; [done|]. by apply Exists_cons_hd.
  - cbn [bindR]. specialize (IH st1). rewrite Hh in IH. done.
Qed.

Lemma parseOsuText_notes text :
  match parseOsuText text with
  | Ok d =>
    hitObjects d = sort byTime (map noteOf (hitObjectLines text)) /\
    Forall (fun cl => holdLineOk cl.2 = true) (hitObjectLines text)
  | Throw e =>
    e = TypeError /\ Exists (fun cl => holdLineOk cl.2 = false) (hitObjectLines text)
  end.
Proof.
  unfold parseOsuText, hitObjectLines.
  pose proof (forOf_parseLine_notes (split newline text) initialParseState) as H.
  destruct (forOf parseLine _ _) as [st|e]; cbn [bindR]; [|done].
  destruct H as [H1 H2]. split; [|done]. cbn. by rewrite H1.
Qed.

Lemma noteLines_lines s c lines cl : cl ∈ noteLines s c lines -> cl.2 ∈ lines.
Proof.
  revert s c. induction lines as [|l ls IH]; intros s c; cbn [noteLines].
  { intros H. by apply elem_of_nil in H. }
  assert (forall s' c', cl ∈ noteLines s' c' ls -> cl.2 ∈ l :: ls) as Hrec
    by (intros s' c' H; apply list_elem_of_further; by eapply IH).
  destruct (_ || _); [apply Hrec|].
  destruct (startsWith _ "["); [apply Hrec|].
  destruct (String.eqb s "Difficulty").
  { destruct (keyValue _) as [k v]. apply Hrec. }
  destruct (String.eqb s "HitObjects"); [|apply Hrec].
  intros H. apply elem_of_cons in H as [->|H]; [apply list_elem_of_here|by eapply Hrec].
Qed.
(** *** The notes that the line loop pushes *)

Lemma laneOf_range x t cs c : laneOf x t cs = Int c -> 0 <= c <= 7.
Proof.
  unfold laneOf.
  set (col := if nstrict_eqb cs (Int 4) then _ else _).
  destruct col as [|z]; simpl; [done|]. intros [= <-]. lia.
Qed.

Lemma parseHitObject_pushedOk cs line h :
  parseHitObject cs line = Ok h -> pushedOk h.
Proof.
  unfold parseHitObject.
  destruct (isHold _) eqn:Eh.
  - destruct (split "," line !! 5%nat) as [p5|]; simpl; [|done].
    intros [= <-]. split; simpl.
    + apply laneOf_range.
    + rewrite Eh. split; eauto.
  - simpl. intros [= <-]. split; simpl.
    + apply laneOf_range.
    + rewrite Eh. split; [by intros [? ?]|done].
Qed.

Lemma parseLine_pushedOk st line st' :
  parseLine st line = Ok st' ->
  Forall pushedOk (hitObjects (data st)) -> Forall pushedOk (hitObjects (data st')).
Proof.
  unfold parseLine.
  destruct (_ || _); [by intros [= <-]|].
  destruct (startsWith _ "["); [by intros [= <-]|].
  destruct (String.eqb (section st) "General").
  { destruct (keyValue _) as [k v]. destruct (String.eqb k _); by intros [= <-]. }
  destruct (String.eqb (section st) "Metadata").
  { destruct (keyValue _) as [k v].
    repeat (destruct (String.eqb k _)); by intros [= <-]. }
  destruct (String.eqb (section st) "Difficulty").
  { destruct (keyValue _) as [k v]. destruct (String.eqb k _); by intros [= <-]. }
  destruct (String.eqb (section st) "Events").
  { intros [= <-]. simpl. unfold parseEvent.
    destruct (startsWith _ _); [|done].
    destruct (_ !! _); [|done]. by destruct (_ && _). }
  destruct (String.eqb (section st) "TimingPoints"); [by intros [= <-]|].
  destruct (String.eqb (section st) "HitObjects"); [|by intros [= <-]].
  destruct (parseHitObject _ _) as [h|e] eqn:Eh; simpl; [|done].
  intros [= <-] H. simpl. apply Forall_app. split; [done|].
  constructor; [|constructor]. by eapply parseHitObject_pushedOk.
Qed.

Lemma forOf_parseLine_pushedOk lines st st' :
  forOf parseLine st lines = Ok st' ->
  Forall pushedOk (hitObjects (data st)) -> Forall pushedOk (hitObjects (data st')).
Proof.
  revert st. induction lines as [|l ls IH]; intros st; simpl.
  - by intros [= <-].
  - destruct (parseLine st l) as [st1|e] eqn:E; simpl; [|done].
    intros H1 H2. apply (IH st1 H1). by eapply parseLine_pushedOk.
Qed.

(** C7, as the code has it: in the timeline of every chart that
    [parseOsuText] accepts, a lane that is a number lies in [0, 7]; a note
    has an [endTime] exactly when its type has the hold bit; the timeline
    is sorted non-decreasing by [time] whenever all its times are numbers;
    and the notes are, up to their order, the notes of the [HitObjects]
    lines of the text: each note comes from a line of the text whose third
    and fourth fields are parsed into its [time] and [type], and the
    [endTime] of a hold note is what [parseInt] makes of the sixth field of
    that line up to its first colon (it is not compared with [time]). *)
Theorem decoded_timeline (text : string) (d : BeatmapData)
    (Hok : parseOsuText text = Ok d) :
  Forall (fun h => forall c, column h = Int c -> 0 <= c <= 7) (hitObjects d) /\
  Forall (fun h => is_Some (endTime h) <-> isHold (type h) = true) (hitObjects d) /\
  (Forall (fun h => numeric (time h)) (hitObjects d) -> sortedByTime (hitObjects d)) /\
  hitObjects d ≡ₚ map noteOf (hitObjectLines text) /\
  Forall (fun h =>
    exists line,
      line ∈ split newline text /\
      let parts := split "," (trim line) in
      time h = parseIntOpt (parts !! 2%nat) /\
      type h = parseIntOpt (parts !! 3%nat) /\
      (isHold (type h) = true ->
       exists p5, parts !! 5%nat = Some p5 /\
                  endTime h = Some (parseIntOpt (split ":" p5 !! 0%nat))) /\
      (isHold (type h) = false -> endTime h = None)) (hitObjects d).
Proof.
  pose proof (parseOsuText_notes text) as Hn. rewrite Hok in Hn.
  destruct Hn as [Hn Hall].
  unfold parseOsuText in Hok.
  destruct (forOf parseLine initialParseState _) as [st|e] eqn:E; simpl in Hok; [|done].
  injection Hok as <-. simpl in *.
  pose proof (forOf_parseLine_pushedOk _ _ _ E (Forall_nil_2 _)) as H.
  rewrite <- (sort_perm byTime) in H.
  split_and!.
  - eapply Forall_impl; [exact H|]. by intros h [? _].
  - eapply Forall_impl; [exact H|]. by intros h [_ ?].
  - intros Hnum. rewrite (sort_perm byTime) in Hnum. by apply sort_byTime_sorted.
  - rewrite Hn. apply sort_perm.
  - rewrite Hn, sort_perm. apply Forall_forall. intros h Hh.
    apply list_elem_of_fmap in Hh as ([cs l] & -> & Hcl).
    rewrite Forall_forall in Hall. specialize (Hall _ Hcl). cbn [snd] in Hall.
    apply noteLines_lines in Hcl. cbn [snd] in Hcl.
    exists l. split; [done|].
    unfold noteOf, holdLineOk in *. cbn [fst snd time type endTime] in *.
    split_and!; try done.
    + intros Hhold. rewrite Hhold in *. cbn in Hall.
      apply bool_decide_eq_true in Hall as [p5 Hp5]. exists p5. by rewrite Hp5.
    + by intros ->.
Qed.

(** *** When decoding fails *)


Lemma parseLine_unknown_section st line :
  section st ∉ knownSections -> startsWith (trim line) "[" = false ->
  parseLine st line = Ok st.
Proof.
  intros Hs Hh. unfold parseLine. rewrite Hh.
  destruct (_ || _); [done|].
  assert (forall name, name ∈ knownSections -> String.eqb (section st) name = false)
    as Hne.
  { intros name Hn. apply String.eqb_neq. intros E. apply Hs. by rewrite E. }
  unfold knownSections in Hne.
  rewrite !Hne; [done|..]; rewrite !elem_of_cons; tauto.
Qed.



Lemma findEntry_None {A} p (files : list (string * A)) :
  findEntry p files = None <-> forall f, f ∈ files -> p f.1 = false.
Proof.
  unfold findEntry. split.
  - intros H f Hf. apply list_elem_of_In in Hf.
    by apply (find_none _ _ H f Hf).
  - intros H. destruct (List.find _ _) as [f|] eqn:E; [|done].
    apply find_some in E as [E1 E2]. apply list_elem_of_In in E1.
    rewrite (H f E1) in E2. done.
Qed.

Lemma findEntry_Some {A} p (files : list (string * A)) f :
  findEntry p files = Some f -> f ∈ files /\ p f.1 = true.
Proof.
  unfold findEntry. intros H. apply find_some in H as [H1 H2].
  split; [by apply list_elem_of_In|done].
Qed.

Lemma parseOsuText_throws text e : parseOsuText text = Throw e -> e = TypeError.
Proof.
  intros H. pose proof (parseOsuText_notes text) as Hn. rewrite H in Hn. by destruct Hn.
Qed.

Lemma readEntry_throw o e : readEntry o = Throw e -> async o = Throw e.
Proof.
  unfold readEntry. destruct (dir o); [done|].
  destruct (async o) as [c|e0]; simpl; congruence.
Qed.

Section ContainerFacts.

Variable File : Type.
Variable AudioBuffer : Type.
Variable loadAsync : File -> result (list (string * ZipObject)).
Variable newAudioContext : result unit.
Variable decodeAudioData : string -> result AudioBuffer.
Variable createObjectURL : string -> string.

(** What a failure of the archive decoder comes from: a call that
    fails in the environment (the first four), or one of its own three. *)
Lemma loadAudio_throw files d e :
  loadAudio AudioBuffer newAudioContext decodeAudioData files d = Throw e ->
  (e = TypeError /\ audioFilename d = None) \/
  (exists f, f ∈ files /\ async f.2 = Throw e) \/
  newAudioContext = Throw e \/
  (exists f blob, f ∈ files /\ async f.2 = Ok blob /\ decodeAudioData blob = Throw e).
Proof.
  unfold loadAudio. destruct (audioFilename d) as [name|].
  2: { destruct files; [done|]. intros [= <-]. by left. }
  destruct (findEntry _ files) as [[audioFile o]|] eqn:Hf; [|done].
  apply findEntry_Some in Hf as [Hin _].
  destruct (String.eqb audioFile ""); [done|].
  destruct (readEntry o) as [[blob|]|e0] eqn:Hr; cbn [bindR]; [| done |].
  - destruct newAudioContext as [[]|e1]; cbn [bindR].
    + destruct (decodeAudioData blob) as [buffer|e2] eqn:Hd; cbn [bindR]; [done|].
      intros [= <-]. right. right. right. exists (audioFile, o), blob.
      split_and!; try done. cbn. unfold readEntry in Hr.
      destruct (dir o); [done|]. by destruct (async o) as [c|]; simplify_eq/=.
    + intros [= <-]. right. right. by left.
  - intros [= <-]. right. left. exists (audioFile, o).
    split; [done|]. by apply readEntry_throw.
Qed.

Lemma loadBackground_throw files d e :
  loadBackground createObjectURL files d = Throw e ->
  exists f, f ∈ files /\ async f.2 = Throw e.
Proof.
  unfold loadBackground. destruct (backgroundImage d) as [bg|]; [|done].
  destruct (String.eqb bg ""); [done|].
  destruct (findEntry _ files) as [[bgFile o]|] eqn:Hf; [|done].
  apply findEntry_Some in Hf as [Hin _].
  destruct (readEntry o) as [[blob|]|e0] eqn:Hr; cbn [bindR]; [done|done|].
  intros [= <-]. exists (bgFile, o). split; [done|]. by apply readEntry_throw.
Qed.

Lemma parseOSZ_throw file e :
  parseOSZ File AudioBuffer loadAsync newAudioContext decodeAudioData createObjectURL
    file = Throw e ->
  loadAsync file = Throw e \/
  exists files,
    loadAsync file = Ok files /\
    ((e = noOsuFile /\ forall f, f ∈ files -> endsWith f.1 ".osu" = false) \/
     (exists name o,
        findEntry (fun filename => endsWith filename ".osu") files = Some (name, o) /\
        ((e = unreadableOsu /\ (dir o = true \/ async o = Ok ""%string)) \/
         (e = TypeError /\
          exists content, async o = Ok content /\
            (parseOsuText content = Throw TypeError \/
             exists d, parseOsuText content = Ok d /\ audioFilename d = None)) \/
         (exists f, f ∈ files /\ async f.2 = Throw e) \/
         newAudioContext = Throw e \/
         (exists f blob,
            f ∈ files /\ async f.2 = Ok blob /\ decodeAudioData blob = Throw e)))).
Proof.
  unfold parseOSZ. destruct (loadAsync file) as [files|e0]; cbn [bindR];
    [|intros [= <-]; by left].
  intros H. right. exists files. split; [done|].
  destruct (findEntry _ files) as [[name o]|] eqn:Hf.
  2: { injection H as <-. left. split; [done|].
       by apply (proj1 (findEntry_None (fun filename => endsWith filename ".osu") files)). }
  right. exists name, o. split; [done|].
  pose proof (findEntry_Some _ _ _ Hf) as [Hin _].
  unfold readEntry in H. destruct (dir o) eqn:Hdir; cbn [bindR] in H.
  { injection H as <-. left. split; [done|]. by left. }
  destruct (async o) as [content|e1] eqn:Ha; cbn [bindR] in H.
  2: { injection H as <-. right. right. left. by exists (name, o). }
  destruct (String.eqb_spec content "") as [->|Hne].
  { injection H as <-. left. split; [done|]. by right. }
  destruct (parseOsuText content) as [d|e2] eqn:Hp; cbn [bindR] in H.
  2: { injection H as <-. pose proof (parseOsuText_throws _ _ Hp) as ->.
       right. left. split; [done|]. exists content. split; [done|]. by left. }
  destruct (loadAudio _ _ _ files d) as [buffer|e3] eqn:Hl; cbn [bindR] in H.
  2: { injection H as <-.
       apply loadAudio_throw in Hl as [[-> Hnone]|[Hl|[Hl|Hl]]].
       - right. left. split; [done|]. exists content. split; [done|]. right. by exists d.
       - right. right. by left.
       - right. right. right. by left.
       - by repeat right. }
  destruct (loadBackground _ files d) as [d'|e4] eqn:Hb; cbn [bindR] in H; [done|].
  injection H as <-. apply loadBackground_throw in Hb. right. right. by left.
Qed.






End ContainerFacts.

(** *** Concrete charts *)

(** [chartPlain] is decoded, all its times are numbers, and its timeline
    is sorted. *)
Lemma decoded_timeline_witness :
  exists d, parseOsuText chartPlain = Ok d /\ sortedByTime (hitObjects d).
Proof.
  eexists. split; [vm_compute; reflexivity|].
  eapply (decoded_timeline chartPlain); [vm_compute; reflexivity|].
  repeat constructor; eexists; reflexivity.
Defined.

(** C7 fails as stated: the decoder accepts a hold note that ends before
    it starts, and a note whose lane is not a number. *)
Lemma decoded_timeline_counterexample :
  let h := mkHitObject (Int 448) (Int 192) (Int 700) (Int 128) (Int 0)
             (Some (Int 500)) (Int 2) in
  let h' := mkHitObject NaN (Int 192) (Int 500) (Int 1) (Int 0) None NaN in
  parseOsuText chartEndBeforeStart = Ok (set_hitObjects [h] initialData) /\
  ~ timelineInvariant [h] /\
  parseOsuText chartBadX = Ok (set_hitObjects [h'] initialData) /\
  ~ timelineInvariant [h'].
Proof.
  cbv zeta. split_and!; [by vm_compute| |by vm_compute|].
  - intros (_ & _ & H). apply Forall_cons in H as [H _].
    destruct (H (Int 500) eq_refl) as (te & t & [= <-] & [= <-] & Hlt). lia.
  - intros (_ & H & _). apply Forall_cons in H as [H _].
    by destruct H as (c & H & _).
Qed.



End DecoderFacts.

(** ** Further facts about the JavaScript library model *)

Module JsMoreFacts.

Import JsFacts.

(** A sort by a comparator that is the difference of an integer key
    orders by that key. *)
Lemma insert_sorted_key {A} (cmp : A -> A -> num) (key : A -> Z) a l :
  (forall b, b ∈ l -> cmp a b = Int (key a - key b)) ->
  StronglySorted (fun p q => key p <= key q) l ->
  StronglySorted (fun p q => key p <= key q) (insert_sorted cmp a l).
Proof.
  induction l as [|b l IH]; intros Hcmp Hs; simpl.
  - repeat constructor.
  - apply StronglySorted_inv in Hs as [Hs Hb].
    unfold cmp_le. rewrite (Hcmp b) by apply list_elem_of_here.
    destruct (Z.leb_spec (key a - key b) 0).
    + constructor; [by constructor|]. constructor; [lia|].
      eapply Forall_impl; [exact Hb|]. simpl. intros c Hc. lia.
    + constructor.
      * apply IH; [|done]. intros c Hc. apply Hcmp. by apply list_elem_of_further.
      * rewrite insert_sorted_perm. constructor; [lia|done].
Qed.

Lemma sort_key_sorted {A} (cmp : A -> A -> num) (key : A -> Z) l :
  (forall a b, a ∈ l -> b ∈ l -> cmp a b = Int (key a - key b)) ->
  StronglySorted (fun p q => key p <= key q) (sort cmp l).
Proof.
  induction l as [|a l IH]; intros Hcmp; simpl; [constructor|].
  apply insert_sorted_key.
  - intros b Hb. rewrite sort_perm in Hb.
    apply Hcmp; [apply list_elem_of_here|by apply list_elem_of_further].
  - apply IH. intros b c Hb Hc. apply Hcmp; by apply list_elem_of_further.
Qed.

Lemma sort_head_least {A} (cmp : A -> A -> num) (key : A -> Z) l a rest :
  (forall a b, a ∈ l -> b ∈ l -> cmp a b = Int (key a - key b)) ->
  sort cmp l = a :: rest ->
  forall b, b ∈ l -> key a <= key b.
Proof.
  intros Hcmp Hs b Hb.
  pose proof (sort_key_sorted cmp key l Hcmp) as Hsorted.
  rewrite Hs in Hsorted. apply StronglySorted_inv in Hsorted as [_ Hall].
  rewrite <- (sort_perm cmp l), Hs in Hb.
  apply elem_of_cons in Hb as [->|Hb]; [lia|].
  rewrite Forall_forall in Hall. by apply Hall.
Qed.

Lemma sort_nil_inv {A} (cmp : A -> A -> num) l : sort cmp l = [] -> l = [].
Proof.
  intros H. apply Permutation_nil_r. by rewrite <- (sort_perm cmp l), H.
Qed.

End JsMoreFacts.

(** ** Further facts about the judging engine *)

Module EngineMoreFacts.

Import GameCanvas GameCanvasAssist JsFacts JsMoreFacts EngineFacts.

Section Facts.

Variable hitObjects : list HitObject.
Variable autoPlay : bool.
Variable noteSpeedMs : Z.

(** *** Nearest-note selection *)

Lemma byAbsDiff_distance s now col a b :
  a ∈ laneNotes hitObjects s now col -> b ∈ laneNotes hitObjects s now col ->
  byAbsDiff now a b = Int (distance now a - distance now b).
Proof.
  destruct a as [ia oa], b as [ib ob]. intros Ha Hb.
  apply elem_of_laneNotes in Ha as (_ & _ & _ & ta & Hta & _).
  apply elem_of_laneNotes in Hb as (_ & _ & _ & tb & Htb & _).
  unfold byAbsDiff, distance. simpl. by rewrite Hta, Htb.
Qed.

Lemma selectLane_nearest s now seen best col :
  nearestOn hitObjects s now seen best ->
  nearestOn hitObjects s now (seen ++ [col]) (selectLane hitObjects s now best col).
Proof.
  intros Hbest. unfold selectLane.
  destruct (sort _ _) as [|[idx cand] rest] eqn:Hs.
  - apply sort_nil_inv in Hs.
    destruct best as [b|]; simpl in *.
    + destruct Hbest as (tb & H1 & H2 & H3). exists tb. split_and!; try done.
      intros c n Hc Hn. apply elem_of_app in Hc as [Hc|Hc]; [by eapply H3|].
      apply list_elem_of_singleton in Hc as ->. rewrite Hs in Hn.
      by apply elem_of_nil in Hn.
    + intros c Hc. apply elem_of_app in Hc as [Hc|Hc]; [by apply Hbest|].
      by apply list_elem_of_singleton in Hc as ->.
  - pose proof (sort_head_least _ (distance now) _ _ _
                  (fun a b => byAbsDiff_distance s now col a b) Hs) as Hleast.
    pose proof (sort_head_elem _ _ _ _ Hs) as Hin.
    apply elem_of_laneNotes in Hin as (_ & _ & _ & tc & Htc & _).
    assert (distance now (idx, cand) = Z.abs (tc - now)) as Hdc
      by (unfold distance; simpl; by rewrite Htc).
    rewrite Hdc in Hleast.
    assert (forall seen', (forall c n, c ∈ seen' -> n ∈ laneNotes hitObjects s now c ->
                                   Z.abs (tc - now) <= distance now n) ->
            nearestOn hitObjects s now seen'
              (Some (mkBestHit cand idx (Int (tc - now)) (Int (Z.abs (tc - now)))))) as Hfound.
    { intros seen' H. exists tc. simpl. done. }
    rewrite Htc. simpl.
    destruct best as [b|]; simpl in Hbest.
    + destruct Hbest as (tb & H1 & H2 & H3).
      rewrite H2. simpl.
      destruct (Z.ltb_spec (Z.abs (tc - now)) (Z.abs (tb - now))).
      * apply (Hfound (seen ++ [col])). intros c n Hc Hn.
        apply elem_of_app in Hc as [Hc|Hc].
        -- pose proof (H3 c n Hc Hn). lia.
        -- apply list_elem_of_singleton in Hc as ->. by apply Hleast.
      * exists tb. split_and!; try done. intros c n Hc Hn.
        apply elem_of_app in Hc as [Hc|Hc]; [by eapply H3|].
        apply list_elem_of_singleton in Hc as ->.
        pose proof (Hleast n Hn). lia.
    + apply (Hfound (seen ++ [col])). intros c n Hc Hn.
      apply elem_of_app in Hc as [Hc|Hc].
      * rewrite (Hbest c Hc) in Hn. by apply elem_of_nil in Hn.
      * apply list_elem_of_singleton in Hc as ->. by apply Hleast.
Qed.

Lemma selectBestHit_nearestOn s now lanes :
  nearestOn hitObjects s now lanes (selectBestHit hitObjects s now lanes).
Proof.
  unfold selectBestHit.
  cut (forall l seen best, nearestOn hitObjects s now seen best ->
         nearestOn hitObjects s now (seen ++ l) (foldl (selectLane hitObjects s now) best l)).
  { intros H. apply (H lanes [] None). intros c Hc. by apply elem_of_nil in Hc. }
  induction l as [|c l IH]; intros seen best Hb; simpl.
  - by rewrite app_nil_r.
  - rewrite (cons_middle c seen l), app_assoc. apply IH.
    by apply selectLane_nearest.
Qed.

(** X1: the note that a press selects is a nearest one: no unprocessed
    note on the pressed lanes that lies less than 160 ms ahead of the clock
    (or anywhere in the past) is nearer to the clock. *)
Theorem selectBestHit_nearest (s : GameStateRef) (now : Z) (lanes : list Z)
    (b : BestHit) (col : Z) (idx : nat) (obj : HitObject) (t : Z)
    (Hsel : selectBestHit hitObjects s now lanes = Some b)
    (Hcol : col ∈ lanes)
    (Hidx : hitObjects !! idx = Some obj)
    (Hlane : column obj = Int col)
    (Hpending : idx ∉ processedIndices s)
    (Htime : time obj = Int t)
    (Hwindow : t - now < HIT_WINDOW_BAD) :
  exists tb, time (bh_note b) = Int tb /\ Z.abs (tb - now) <= Z.abs (t - now).
Proof.
  pose proof (selectBestHit_nearestOn s now lanes) as H. rewrite Hsel in H.
  destruct H as (tb & H1 & _ & H3). exists tb. split; [done|].
  assert ((idx, obj) ∈ laneNotes hitObjects s now col) as Hn.
  { apply elem_of_laneNotes. split_and!; try done. by exists t. }
  pose proof (H3 col _ Hcol Hn) as Hle. unfold distance in Hle. simpl in Hle.
  by rewrite Htime in Hle.
Qed.

(** X2: a press selects nothing exactly when no unprocessed note on the
    pressed lanes lies less than 160 ms ahead of the clock or in the
    past. *)
Theorem selectBestHit_none (s : GameStateRef) (now : Z) (lanes : list Z) :
  selectBestHit hitObjects s now lanes = None <->
  forall col idx obj t,
    col ∈ lanes -> hitObjects !! idx = Some obj -> column obj = Int col ->
    idx ∉ processedIndices s -> time obj = Int t -> HIT_WINDOW_BAD <= t - now.
Proof.
  split.
  - intros Hsel col idx obj t Hcol Hidx Hlane Hp Ht.
    destruct (Z.le_gt_cases HIT_WINDOW_BAD (t - now)) as [|Hlt]; [done|].
    pose proof (selectBestHit_nearestOn s now lanes) as H. rewrite Hsel in H.
    simpl in H.
    assert ((idx, obj) ∈ laneNotes hitObjects s now col) as Hn.
    { apply elem_of_laneNotes. split_and!; try done. by exists t. }
    rewrite (H col Hcol) in Hn. by apply elem_of_nil in Hn.
  - intros Hnone.
    destruct (selectBestHit hitObjects s now lanes) as [b|] eqn:Hsel; [|done].
    destruct (selectBestHit_candidate _ _ _ _ _ Hsel)
      as (col & t & Hcol & Hidx & Hlane & Hp & Ht & _ & _ & Hlt).
    pose proof (Hnone col _ _ t Hcol Hidx Hlane Hp Ht). lia.
Qed.

(** *** Where a judgement comes from *)

Lemma elem_of_visibleNotes_inv s now idx obj :
  (idx, obj) ∈ visibleNotes hitObjects noteSpeedMs s now ->
  hitObjects !! idx = Some obj /\
  exists t, time obj = Int t /\ now - 200 <= t <= now + noteSpeedMs.
Proof.
  unfold visibleNotes.
  rewrite list_elem_of_In, filter_In, <- list_elem_of_In, elem_of_indexed.
  intros [H1 H2]. split; [done|].
  destruct (has_processed s idx && negb (has_holding s idx)); [done|].
  apply andb_true_iff in H2 as [H2 H3].
  destruct (time obj) as [|t]; [done|]. simpl in H2, H3.
  exists t. split; [done|]. apply Z.leb_le in H2, H3. lia.
Qed.

Lemma scan_judgement_origin now l acc j :
  j ∈ judgements (snd (foldl (scanNote hitObjects noteSpeedMs now) acc l)) ->
  j ∈ judgements (snd acc) \/
  exists obj, (j.1, obj) ∈ l /\ j.2 = Miss /\
              nltb (nsub (time obj) (Int now)) (Int (- HIT_WINDOW_BAD)) = true.
Proof.
  revert acc. induction l as [|[idx obj] l IH]; intros acc; simpl; [by left|].
  intros Hj. apply IH in Hj as [Hj|(o & H1 & H2)].
  - destruct acc as [g out]. simpl in Hj.
    destruct (progress_negative _ _); [by left|].
    destruct (negb _ && _) eqn:Hc; [|by left]. simpl in Hj.
    rewrite judgements_app in Hj. apply elem_of_app in Hj as [Hj|Hj]; [by left|].
    cbn in Hj. apply list_elem_of_singleton in Hj as ->. right.
    apply andb_true_iff in Hc as [_ Hc].
    exists obj. split_and!; [apply list_elem_of_here|done|done].
  - right. exists o. split; [by apply list_elem_of_further|done].
Qed.

Lemma judgement_origin g e idx k :
  (idx, k) ∈ judgements (snd (step hitObjects autoPlay noteSpeedMs g e)) ->
  pressOrigin hitObjects autoPlay e idx k \/ tickOrigin hitObjects noteSpeedMs e idx k.
Proof.
  intros Hj. destruct e as [code rep now|code now|now]; cbn [step] in Hj.
  - left. unfold handleKeyDown in Hj.
    destruct autoPlay eqn:Ha; cbn -[handleInput] in Hj; [by apply elem_of_nil in Hj|].
    destruct rep; cbn -[handleInput] in Hj; [by apply elem_of_nil in Hj|].
    destruct (INPUT_MAPPING code) as [lanes|] eqn:Hm; [|by apply elem_of_nil in Hj].
    rewrite handleInput_down_judgements in Hj.
    destruct (selectBestHit _ _ _ _) as [b|] eqn:Hb; [|by apply elem_of_nil in Hj].
    destruct (selectBestHit_candidate _ _ _ _ _ Hb)
      as (col & t & Hcol & Hidx & Hlane & _ & Ht & Hd & Hab & Hlt).
    rewrite Hd, Hab, gradeOf_Int in Hj. unfold HIT_WINDOW_BAD in Hlt.
    exists code, now, lanes, (bh_note b), col, t.
    destruct (Z.leb_spec (Z.abs (t - now)) 80).
    { apply list_elem_of_singleton in Hj. injection Hj as -> ->.
      split_and!; try done. by left. }
    destruct (Z.leb_spec (Z.abs (t - now)) 120).
    { apply list_elem_of_singleton in Hj. injection Hj as -> ->.
      split_and!; try done. right. left. split; [done|lia]. }
    destruct (Z.ltb_spec 120 (t - now)); simpl in Hj; [|by apply elem_of_nil in Hj].
    destruct (Z.leb_spec (t - now) 160); [|by apply elem_of_nil in Hj].
    apply list_elem_of_singleton in Hj. injection Hj as -> ->.
    split_and!; try done. right. right. split; [done|lia].
  - unfold handleKeyUp in Hj.
    destruct autoPlay; [by apply elem_of_nil in Hj|].
    destruct (INPUT_MAPPING code) as [lanes|]; by apply elem_of_nil in Hj.
  - right. unfold gameLoop in Hj.
    apply scan_judgement_origin in Hj as [Hj|(obj & H1 & H2 & H3)];
      [by apply elem_of_nil in Hj|].
    simpl in H1, H2.
    apply elem_of_visibleNotes_inv in H1 as (Hidx & t & Ht & Hw).
    rewrite Ht in H3. simpl in H3. apply Z.ltb_lt in H3.
    unfold HIT_WINDOW_BAD in H3.
    exists now, obj, t. split_and!; try done; lia.
Qed.

(** X3: one key-down press judges at most one note, although the key
    covers two lanes; the note lies on one of the two lanes of the key and
    is never judged Miss. *)
Theorem press_judges_one (g : Game) (code : string) (repeat : bool) (now : Z) :
  let js := judgements (snd (step hitObjects autoPlay noteSpeedMs g
                               (KeyDown code repeat now))) in
  (length js <= 1)%nat /\
  forall idx k, (idx, k) ∈ js ->
    k <> Miss /\
    exists lanes obj col,
      INPUT_MAPPING code = Some lanes /\ hitObjects !! idx = Some obj /\
      column obj = Int col /\ col ∈ lanes.
Proof.
  cbv zeta. split.
  - cbn [step]. unfold handleKeyDown.
    destruct (autoPlay || repeat); [simpl; lia|].
    destruct (INPUT_MAPPING code) as [lanes|]; [|simpl; lia].
    rewrite handleInput_down_judgements.
    destruct (selectBestHit _ _ _ _) as [b|]; [|simpl; lia].
    destruct (gradeOf _ _); simpl; lia.
  - intros idx k Hj.
    apply judgement_origin in Hj
      as [(c & n & lanes & obj & col & t & He & _ & Hm & Hi & Hl & Hc & _ & Hk)
         |(n & obj & t & He & _)]; [|done].
    injection He as <- _ _. split.
    + destruct Hk as [[-> _]|[[-> _]|[-> _]]]; done.
    + by exists lanes, obj, col.
Qed.

(** X4: the windows of hitting and missing do not overlap.  Whatever the
    state, a note that an event judges was either graded by a key-down
    press while its time was at most 120 ms behind and less than 160 ms
    ahead of the clock, or missed by a tick while its time was more than
    160 ms and at most 200 ms behind the clock. *)
Theorem judgement_windows (g : Game) (e : Event) (idx : nat) (k : HitKind)
    (Hj : (idx, k) ∈ judgements (snd (step hitObjects autoPlay noteSpeedMs g e))) :
  exists obj t now,
    hitObjects !! idx = Some obj /\ time obj = Int t /\
    ((exists code, e = KeyDown code false now /\ k <> Miss /\
                   -120 <= t - now < 160) \/
     (e = AnimationFrame now /\ k = Miss /\ 160 < now - t <= 200)).
Proof.
  apply judgement_origin in Hj
    as [(c & n & lanes & obj & col & t & He & _ & Hm & Hi & Hl & Hc & Ht & Hk)
       |(n & obj & t & He & Hk & Hi & Ht & Hw & _)].
  - exists obj, t, n. split_and!; try done. left. exists c.
    split; [done|]. destruct Hk as [[-> ?]|[[-> ?]|[-> ?]]]; split; (done || lia).
  - exists obj, t, n. split_and!; try done. by right.
Qed.

(** *** Bounds of the score state *)

Lemma run_app g events1 events2 :
  run hitObjects autoPlay noteSpeedMs g (events1 ++ events2) =
  let '(g1, out1) := run hitObjects autoPlay noteSpeedMs g events1 in
  let '(g2, out2) := run hitObjects autoPlay noteSpeedMs g1 events2 in
  (g2, out1 ++ out2).
Proof.
  revert g. induction events1 as [|e es IH]; intros g; simpl.
  - by destruct (run _ _ _ g events2).
  - destruct (step _ _ _ g e) as [g1 out1]. rewrite IH.
    destruct (run _ _ _ g1 es) as [g2 out2].
    destruct (run _ _ _ g2 events2) as [g3 out3]. by rewrite app_assoc.
Qed.

Lemma run_judged_valid g events j :
  j ∈ judgements (snd (run hitObjects autoPlay noteSpeedMs g events)) ->
  (j.1 < length hitObjects)%nat.
Proof.
  revert g. induction events as [|e es IH]; intros g; simpl.
  - intros H. by apply elem_of_nil in H.
  - pose proof (fun idx k => judgement_origin g e idx k) as Ho.
    destruct (step _ _ _ g e) as [g1 out1].
    specialize (IH g1). destruct (run _ _ _ g1 es) as [g2 out2].
    simpl in *. rewrite judgements_app, elem_of_app. intros [Hj|Hj]; [|by apply IH].
    destruct j as [idx k].
    destruct (Ho idx k Hj)
      as [(c & n & lanes & obj & col & t & _ & _ & _ & Hi & _)
         |(n & obj & t & _ & _ & Hi & _)];
      simpl; by eapply lookup_lt_Some.
Qed.

Lemma NoDup_bounded (l : list nat) n :
  NoDup l -> (forall i, i ∈ l -> (i < n)%nat) -> (length l <= n)%nat.
Proof.
  intros Hnd Hb.
  assert (length (seq 0 n) = n) as E by apply length_seq. rewrite <- E.
  apply submseteq_length, NoDup_submseteq; [done|].
  intros i Hi. apply elem_of_seq. specialize (Hb i Hi). lia.
Qed.

Lemma countKind_total js :
  countKind Perfect js + countKind Good js + countKind Bad js + countKind Miss js
  = Z.of_nat (length js).
Proof.
  unfold countKind.
  induction js as [|[i []] js IH]; cbn [List.filter bool_decide snd length] in *;
    repeat (case_bool_decide; try done); cbn [length] in *; lia.
Qed.

Lemma change_combo_bound g out g' :
  change hitObjects g out g' ->
  0 <= perfect (state g) /\ 0 <= good (state g) /\ 0 <= bad (state g) /\
  combo (state g) <= perfect (state g) + good (state g) + bad (state g) /\
  maxCombo (state g) <= perfect (state g) + good (state g) + bad (state g) ->
  0 <= perfect (state g') /\ 0 <= good (state g') /\ 0 <= bad (state g') /\
  combo (state g') <= perfect (state g') + good (state g') + bad (state g') /\
  maxCombo (state g') <= perfect (state g') + good (state g') + bad (state g').
Proof.
  destruct 1 as [g idx ty hold col d Hn|g idx|g cols]; [| |done].
  - rewrite registerHit_state. destruct hold, ty; simpl; lia.
  - simpl. lia.
Qed.

Lemma changes_combo_bound g out g' :
  changes hitObjects g out g' ->
  0 <= perfect (state g) /\ 0 <= good (state g) /\ 0 <= bad (state g) /\
  combo (state g) <= perfect (state g) + good (state g) + bad (state g) /\
  maxCombo (state g) <= perfect (state g) + good (state g) + bad (state g) ->
  0 <= perfect (state g') /\ 0 <= good (state g') /\ 0 <= bad (state g') /\
  combo (state g') <= perfect (state g') + good (state g') + bad (state g') /\
  maxCombo (state g') <= perfect (state g') + good (state g') + bad (state g').
Proof.
  induction 1 as [g|g1 o1 g2 o2 g3 Hc Hcs IH]; [done|].
  intros H. apply IH. by eapply change_combo_bound.
Qed.

(** What holds of the counters in every state of a run. *)
Lemma run_counters events :
  let g := fst (run hitObjects autoPlay noteSpeedMs initialGame events) in
  let s := state g in
  currentStats g = updateStats hitObjects s /\
  score s = perfect s * 300 + good s * 100 + bad s * 50 /\
  0 <= perfect s /\ 0 <= good s /\ 0 <= bad s /\ 0 <= miss s /\
  perfect s + good s + bad s + miss s <= Z.of_nat (length hitObjects) /\
  0 <= combo s <= maxCombo s /\
  maxCombo s <= perfect s + good s + bad s.
Proof.
  cbv zeta.
  pose proof (run_changes hitObjects autoPlay noteSpeedMs initialGame events) as Hch.
  pose proof (changes_consistent _ _ _ _ Hch (initialGame_consistent hitObjects))
    as (Hst & Hsc & Hp & Hg & Hb & Hm).
  pose proof (changes_traced _ _ _ _ Hch) as (N & _ & _ & C1 & C2 & C3 & C4).
  pose proof (changes_counters _ _ _ _ Hch) as [_ Hcombo].
  pose proof (changes_combo_bound _ _ _ Hch) as Hmax.
  cbn in C1, C2, C3, C4, Hcombo, Hmax.
  split_and!; try done; try lia.
  pose proof (countKind_total
    (judgements (snd (run hitObjects autoPlay noteSpeedMs initialGame events)))) as Ht.
  assert (length (judgements (snd (run hitObjects autoPlay noteSpeedMs
            initialGame events))) <= length hitObjects)%nat as Hlen.
  { rewrite <- (length_fmap fst). apply NoDup_bounded; [done|].
    intros i Hi. apply list_elem_of_fmap in Hi as (j & -> & Hj).
    by eapply run_judged_valid. }
  lia.
Qed.

(** X5: in every state of a run the number of judged notes is at most the
    number of notes of the chart, the score is the sum of the points of the
    grades counted and at most 300 per note, and
    [0 <= combo <= maxCombo <= perfect + good + bad]. *)
Theorem score_state_bounds (events : list Event) :
  let s := state (fst (run hitObjects autoPlay noteSpeedMs initialGame events)) in
  let notes := Z.of_nat (length hitObjects) in
  perfect s + good s + bad s + miss s <= notes /\
  score s = perfect s * 300 + good s * 100 + bad s * 50 /\
  0 <= score s <= 300 * notes /\
  0 <= combo s <= maxCombo s /\
  maxCombo s <= perfect s + good s + bad s.
Proof.
  cbv zeta. pose proof (run_counters events) as H. cbv zeta in H. lia.
Qed.

Lemma run_display_range events :
  0 <= gs_score (currentStats
                   (fst (run hitObjects autoPlay noteSpeedMs initialGame events)))
    <= 1010000.
Proof.
  pose proof (run_counters events) as H. cbv zeta in H.
  destruct H as (Hst & _ & Hp & Hg & Hb & Hm & Hsum & _).
  rewrite Hst. unfold updateStats. cbn [gs_score].
  set (s := state (fst (run hitObjects autoPlay noteSpeedMs initialGame events))) in *.
  set (n := Z.of_nat (length hitObjects)) in *.
  destruct (Z.gtb_spec (n * 300) 0) as [Hn|Hn]; [|lia].
  apply DoubleFacts.display_range; lia.
Qed.

(** X6: the displayed score, computed in binary64 as JavaScript
    computes it, lies between 0 and 1,010,000 in every state of a run.  It
    is 1,010,000 when the chart has notes and all of them have been graded
    Perfect, and, for a chart of fewer than 2^32 notes (the longest array
    of JavaScript), only then. *)
Theorem display_score_bound (events : list Event) :
  let g := fst (run hitObjects autoPlay noteSpeedMs initialGame events) in
  let notes := Z.of_nat (length hitObjects) in
  0 <= gs_score (currentStats g) <= 1010000 /\
  (0 < notes /\ perfect (state g) = notes -> gs_score (currentStats g) = 1010000) /\
  (notes < 2 ^ 32 -> gs_score (currentStats g) = 1010000 ->
   0 < notes /\ perfect (state g) = notes).
Proof.
  cbv zeta. split; [apply run_display_range|].
  pose proof (run_counters events) as H. cbv zeta in H.
  destruct H as (Hst & _ & Hp & Hg & Hb & Hm & Hsum & _).
  rewrite Hst. unfold updateStats. cbn [gs_score].
  set (s := state (fst (run hitObjects autoPlay noteSpeedMs initialGame events))) in *.
  set (n := Z.of_nat (length hitObjects)) in *.
  set (cp := perfect s * 300 + good s * 100 + bad s * 50).
  destruct (Z.gtb_spec (n * 300) 0) as [Hn|Hn]; [|split; lia].
  split.
  - intros [_ E].
    assert (cp = n * 300) as -> by (unfold cp; lia).
    by apply DoubleFacts.display_full.
  - intros Hlen E.
    destruct (Z.eq_dec cp (n * 300)) as [Ecp|Ncp]; [unfold cp in Ecp; lia|].
    pose proof (DoubleFacts.display_partial cp (n * 300)) as Hlt.
    assert (n * 300 <= 2 ^ 53) as Hmp by lia.
    unfold cp in *. lia.
Qed.

(** X7: the displayed accuracy lies between 0 and 101 in every state of a
    run, and it is 101 exactly when no Good, Bad or Miss has been
    counted. *)
Theorem accuracy_bounds (events : list Event) :
  let g := fst (run hitObjects autoPlay noteSpeedMs initialGame events) in
  (0 <= gs_accuracy (currentStats g))%Q /\
  (gs_accuracy (currentStats g) <= 101)%Q /\
  ((gs_accuracy (currentStats g) == 101)%Q <->
   good (state g) = 0 /\ bad (state g) = 0 /\ miss (state g) = 0).
Proof.
  cbv zeta. pose proof (run_counters events) as H. cbv zeta in H.
  destruct H as (Hst & _ & Hp & Hg & Hb & Hm & _).
  rewrite Hst. unfold updateStats. cbn [gs_accuracy].
  set (s := state (fst (run hitObjects autoPlay noteSpeedMs initialGame events))) in *.
  set (cp := perfect s * 300 + good s * 100 + bad s * 50).
  destruct (Z.gtb_spec ((perfect s + good s + bad s + miss s) * 300) 0) as [Hn|Hn].
  - assert (0 <= cp <= (perfect s + good s + bad s + miss s) * 300) as Hcp
      by (unfold cp; lia).
    destruct ((perfect s + good s + bad s + miss s) * 300) as [|mp|mp] eqn:Emp;
      try lia.
    unfold Qle, Qeq, Qdiv, Qmult, Qinv, inject_Z. cbn.
    split; [lia|]. split; [lia|]. split.
    + intros E. assert (cp = Z.pos mp) as E' by lia. unfold cp in E'. lia.
    + intros (Eg & Eb & Em). assert (cp = Z.pos mp) as -> by (unfold cp; lia). lia.
  - split; [unfold Qle; simpl; lia|]. split; [unfold Qle; simpl; lia|].
    split; [lia|reflexivity].
Qed.

(** *** Ticks in the miss window *)

Lemma changes_processed_mono g out g' i :
  changes hitObjects g out g' ->
  i ∈ processedIndices (state g) -> i ∈ processedIndices (state g').
Proof.
  intros H Hi. apply changes_traced in H as (_ & _ & P & _).
  rewrite P. set_solver.
Qed.

Lemma frame_processes g now idx obj t :
  0 <= noteSpeedMs -> hitObjects !! idx = Some obj -> time obj = Int t ->
  160 < now - t <= 200 ->
  idx ∈ processedIndices (state (fst (gameLoop hitObjects noteSpeedMs now g))).
Proof.
  intros Hs Hidx Ht Hw.
  destruct (decide (idx ∈ processedIndices (state g))) as [Hin|Hnin].
  - eapply changes_processed_mono; [apply gameLoop_changes|done].
  - unfold gameLoop. apply (scan_processes _ _ now _ _ idx obj).
    + apply (elem_of_visibleNotes _ _ _ _ _ _ t); try done. lia.
    + rewrite Ht. simpl. destruct (Z.ltb_spec 0 noteSpeedMs).
      * apply Z.ltb_ge. lia.
      * destruct (Z.ltb_spec noteSpeedMs 0); [lia|]. apply Z.ltb_ge. lia.
    + rewrite Ht. simpl. apply Z.ltb_lt. unfold HIT_WINDOW_BAD. lia.
Qed.

Lemma run_frame_processes events now idx obj t :
  0 <= noteSpeedMs -> hitObjects !! idx = Some obj -> time obj = Int t ->
  160 < now - t <= 200 -> AnimationFrame now ∈ events ->
  idx ∈ processedIndices
          (state (fst (run hitObjects autoPlay noteSpeedMs initialGame events))).
Proof.
  intros Hs Hidx Ht Hw Hin.
  apply list_elem_of_split in Hin as (before & after & ->).
  rewrite run_app.
  destruct (run _ _ _ initialGame before) as [g1 out1]. cbn [run step].
  pose proof (frame_processes g1 now idx obj t Hs Hidx Ht Hw) as Hp.
  destruct (gameLoop hitObjects noteSpeedMs now g1) as [g2 out2].
  pose proof (run_changes hitObjects autoPlay noteSpeedMs g2 after) as Hch.
  destruct (run _ _ _ g2 after) as [g3 out3]. simpl in *.
  by eapply changes_processed_mono.
Qed.

(** X8: a tick that samples the clock while a note is between 160 and
    200 ms overdue settles that note: at the end of any run that contains
    such a tick the note is processed, whether it was hit before or is
    missed by that tick.  If every note of the chart has such a tick in the
    run, all notes are judged at the end. *)
Theorem frame_in_window_settles (events : list Event) (Hspeed : 0 <= noteSpeedMs) :
  let s := state (fst (run hitObjects autoPlay noteSpeedMs initialGame events)) in
  (forall now idx obj t,
     hitObjects !! idx = Some obj -> time obj = Int t ->
     160 < now - t <= 200 -> AnimationFrame now ∈ events ->
     idx ∈ processedIndices s) /\
  ((forall idx obj, hitObjects !! idx = Some obj ->
      exists t now, time obj = Int t /\ 160 < now - t <= 200 /\
                    AnimationFrame now ∈ events) ->
   perfect s + good s + bad s + miss s = Z.of_nat (length hitObjects)).
Proof.
  cbv zeta. split.
  - intros now idx obj t Hidx Ht Hw Hin. by eapply run_frame_processes.
  - intros Hall.
    pose proof (run_changes hitObjects autoPlay noteSpeedMs initialGame events) as Hch.
    pose proof (changes_traced _ _ _ _ Hch) as (N & _ & P & C1 & C2 & C3 & C4).
    cbn in P, C1, C2, C3, C4.
    pose proof (countKind_total
      (judgements (snd (run hitObjects autoPlay noteSpeedMs initialGame events)))) as Ht.
    pose proof (run_counters events) as Hc. cbv zeta in Hc.
    assert (length hitObjects <=
            length (judgements (snd (run hitObjects autoPlay noteSpeedMs
                      initialGame events))))%nat as Hlen.
    { rewrite <- (length_fmap fst).
      assert (length (seq 0 (length hitObjects)) = length hitObjects) as E
        by apply length_seq.
      rewrite <- E at 1.
      apply submseteq_length, NoDup_submseteq; [apply NoDup_seq|].
      intros i Hi. apply elem_of_seq in Hi.
      destruct (lookup_lt_is_Some_2 hitObjects i) as [obj Hobj]; [lia|].
      destruct (Hall i obj Hobj) as (t & now & Htime & Hw & Hin).
      pose proof (run_frame_processes events now i obj t Hspeed Hobj Htime Hw Hin) as Hp.
      rewrite P in Hp. set_solver. }
    lia.
Qed.

(** *** Held notes *)

Lemma registerHit_holdInv type g :
  holdInv hitObjects (state g) ->
  holdInv hitObjects (state (registerHit hitObjects type g)).
Proof. unfold holdInv. by rewrite registerHit_state. Qed.

Lemma add_processed_holdInv idx g :
  holdInv hitObjects (state g) -> holdInv hitObjects (state (add_processed idx g)).
Proof.
  intros [Hnd H]. split; [done|]. simpl. intros i Hi.
  destruct (H i Hi) as [H1 H2]. split; [set_solver|done].
Qed.

Lemma judge_holdInv b g :
  hitObjects !! bh_idx b = Some (bh_note b) ->
  holdInv hitObjects (state g) ->
  holdInv hitObjects (state (fst (judge hitObjects b g))).
Proof.
  intros Hidx Hinv. unfold judge. destruct (gradeOf _ _) as [ty|]; [|done].
  cbn [fst]. apply registerHit_holdInv.
  destruct (endTime_truthy (bh_note b)) eqn:Ht; [|by apply add_processed_holdInv].
  apply (add_processed_holdInv (bh_idx b)) in Hinv. destruct Hinv as [Hnd H].
  split; simpl.
  - by apply NoDup_set_add.
  - intros i Hi. apply elem_of_set_add in Hi as [->|Hi]; [|by apply H].
    split; [set_solver|]. by exists (bh_note b).
Qed.

Lemma NoDup_List_filter {A} (f : A -> bool) (l : list A) :
  NoDup l -> NoDup (List.filter f l).
Proof.
  induction l as [|a l IH]; simpl; [done|].
  rewrite NoDup_cons. intros [Ha Hl]. destruct (f a); [|by apply IH].
  apply NoDup_cons. split; [|by apply IH].
  intros Hin. apply Ha. apply list_elem_of_In, filter_In in Hin as [Hin _].
  by apply list_elem_of_In.
Qed.

Lemma delete_holding_holdInv idx g :
  holdInv hitObjects (state g) -> holdInv hitObjects (state (delete_holding idx g)).
Proof.
  intros [Hnd H]. split; simpl.
  - by apply NoDup_List_filter.
  - intros i Hi. apply list_elem_of_In, filter_In in Hi as [Hi _].
    apply H. by apply list_elem_of_In.
Qed.

Lemma release_holdInv lanes g :
  holdInv hitObjects (state g) ->
  holdInv hitObjects (state (foldl (releaseLane hitObjects) g lanes)).
Proof.
  revert g. induction lanes as [|c l IH]; intros g H; simpl; [done|].
  apply IH. unfold releaseLane. destruct (List.find _ _); [|done].
  by apply delete_holding_holdInv.
Qed.

Lemma scan_holdInv now l acc :
  holdInv hitObjects (state (fst acc)) ->
  holdInv hitObjects
    (state (fst (foldl (scanNote hitObjects noteSpeedMs now) acc l))).
Proof.
  revert acc. induction l as [|[idx obj] l IH]; intros acc H; simpl; [done|].
  apply IH. destruct acc as [g out]. simpl in *.
  destruct (progress_negative _ _); [done|].
  destruct (negb _ && _); [|done]. cbn [fst].
  by apply registerHit_holdInv, add_processed_holdInv.
Qed.

Lemma step_holdInv g e :
  holdInv hitObjects (state g) ->
  holdInv hitObjects (state (fst (step hitObjects autoPlay noteSpeedMs g e))).
Proof.
  intros H. destruct e as [code rep now|code now|now]; cbn [step].
  - unfold handleKeyDown. destruct (autoPlay || rep); [done|].
    destruct (INPUT_MAPPING code) as [lanes|]; [|done].
    unfold handleInput.
    destruct (selectBestHit _ _ _ _) as [b|] eqn:Hb; [|done].
    destruct (selectBestHit_candidate _ _ _ _ _ Hb) as (col & t & _ & Hidx & _).
    pose proof (judge_holdInv b g Hidx H) as Hj.
    by destruct (judge hitObjects b g).
  - unfold handleKeyUp. destruct autoPlay; [done|].
    destruct (INPUT_MAPPING code) as [lanes|]; [|done].
    simpl. by apply release_holdInv.
  - unfold gameLoop. by apply scan_holdInv.
Qed.

Lemma run_holdInv g events :
  holdInv hitObjects (state g) ->
  holdInv hitObjects (state (fst (run hitObjects autoPlay noteSpeedMs g events))).
Proof.
  revert g. induction events as [|e es IH]; intros g H; simpl; [done|].
  pose proof (step_holdInv g e H) as H1.
  destruct (step _ _ _ g e) as [g1 out1].
  specialize (IH g1 H1). by destruct (run _ _ _ g1 es).
Qed.

Lemma initial_holdInv : holdInv hitObjects (state initialGame).
Proof.
  split; simpl; [apply NoDup_nil_2|]. intros i Hi. by apply elem_of_nil in Hi.
Qed.

(** X9: in every state of a run the held notes are pairwise different,
    each of them is a processed note of the chart, and each has a non-zero
    [endTime]: only a hold note that was hit is ever held. *)
Theorem held_notes_invariant (events : list Event) :
  let s := state (fst (run hitObjects autoPlay noteSpeedMs initialGame events)) in
  NoDup (holdingIndices s) /\
  forall i, i ∈ holdingIndices s ->
    i ∈ processedIndices s /\
    exists obj e, hitObjects !! i = Some obj /\ endTime obj = Some (Int e) /\ e <> 0.
Proof.
  cbv zeta. destruct (run_holdInv initialGame events initial_holdInv) as [Hnd H].
  split; [done|]. intros i Hi. destruct (H i Hi) as (Hp & obj & Hobj & Ht).
  split; [done|]. unfold endTime_truthy in Ht.
  destruct (endTime obj) as [[|e]|] eqn:He; try done. simpl in Ht.
  exists obj, e. split_and!; try done. apply negb_true_iff, Z.eqb_neq in Ht. done.
Qed.

(** Removing the first note of a lane from a duplicate-free list. *)
Lemma filter_ne_id (l : list nat) i :
  i ∉ l -> List.filter (fun j => negb (Nat.eqb j i)) l = l.
Proof.
  induction l as [|a l IH]; intros Hi; simpl; [done|].
  apply not_elem_of_cons in Hi as [Hne Hi].
  destruct (Nat.eqb_spec a i); [congruence|]. simpl. by rewrite IH.
Qed.

Lemma filter_none_nil (p : nat -> bool) (l : list nat) :
  List.find p l = None -> List.filter p l = [].
Proof.
  induction l as [|a l IH]; simpl; [done|].
  destruct (p a); [done|]. apply IH.
Qed.

Lemma release_first (p q : nat -> bool) (same : bool) (l : list nat) :
  NoDup l ->
  (same = true -> forall i, q i = p i) ->
  (same = false -> forall i, p i = true -> q i = false) ->
  List.filter q
    (match List.find p l with
     | Some i => List.filter (fun j => negb (Nat.eqb j i)) l
     | None => l
     end)
  = if same then tail (List.filter q l) else List.filter q l.
Proof.
  intros Hnd Hs Hd. induction l as [|a l IH]; simpl.
  - by destruct same.
  - apply NoDup_cons in Hnd as [Ha Hnd]. specialize (IH Hnd).
    destruct (p a) eqn:Hpa.
    + simpl. rewrite Nat.eqb_refl. simpl. rewrite (filter_ne_id l a Ha).
      destruct same.
      * by rewrite (Hs eq_refl a), Hpa.
      * by rewrite (Hd eq_refl a Hpa).
    + destruct (List.find p l) as [i|] eqn:Hf.
      * pose proof (find_some _ _ Hf) as [_ Hpi].
        simpl. destruct (Nat.eqb_spec a i) as [->|Hai]; [congruence|].
        simpl. rewrite IH. destruct same.
        -- by rewrite (Hs eq_refl a), Hpa.
        -- by destruct (q a).
      * destruct same; [|done].
        assert (List.filter q (a :: l) = []) as E.
        { rewrite <- (filter_none_nil p (a :: l)).
          - apply filter_ext. intros b. by apply Hs.
          - simpl. by rewrite Hpa. }
        simpl in E. by rewrite E.
Qed.

Lemma releaseLane_heldOn g c col :
  NoDup (holdingIndices (state g)) ->
  heldOn hitObjects col (state (releaseLane hitObjects g c)) =
  if decide (col = c) then tail (heldOn hitObjects col (state g))
  else heldOn hitObjects col (state g).
Proof.
  intros Hnd. unfold heldOn.
  pose proof (release_first (onLane hitObjects c) (onLane hitObjects col)
                (bool_decide (col = c)) (holdingIndices (state g)) Hnd) as H.
  unfold releaseLane.
  change (fun idx : nat =>
            match hitObjects !! idx with
            | Some obj => nstrict_eqb (column obj) (Int c)
            | None => false
            end) with (onLane hitObjects c).
  destruct (decide (col = c)) as [->|Hne].
  - rewrite bool_decide_eq_true_2 in H by done.
    rewrite <- H; [|done|done]. by destruct (List.find _ _).
  - rewrite bool_decide_eq_false_2 in H by done.
    rewrite <- H; [by destruct (List.find _ _)|done|].
    intros _ i. unfold onLane. destruct (hitObjects !! i) as [obj|]; [|done].
    destruct (column obj) as [|z]; [done|]. simpl.
    intros E. apply Z.eqb_eq in E. subst. by apply Z.eqb_neq.
Qed.

Lemma releaseLane_frame g c :
  state (releaseLane hitObjects g c) =
    set_holdingIndices (holdingIndices (state (releaseLane hitObjects g c))) (state g) /\
  currentStats (releaseLane hitObjects g c) = currentStats g /\
  (NoDup (holdingIndices (state g)) ->
   NoDup (holdingIndices (state (releaseLane hitObjects g c)))).
Proof.
  unfold releaseLane. destruct (List.find _ _); simpl.
  - split_and!; try done. apply NoDup_List_filter.
  - by destruct g as [[]].
Qed.

Lemma release_lanes g lanes :
  NoDup lanes -> NoDup (holdingIndices (state g)) ->
  let g' := foldl (releaseLane hitObjects) g lanes in
  state g' = set_holdingIndices (holdingIndices (state g')) (state g) /\
  currentStats g' = currentStats g /\
  forall col,
    heldOn hitObjects col (state g') =
    if decide (col ∈ lanes) then tail (heldOn hitObjects col (state g))
    else heldOn hitObjects col (state g).
Proof.
  cbv zeta. revert g. induction lanes as [|c l IH]; intros g Hl Hnd; simpl.
  - split_and!; [by destruct g as [[]]|done|].
    intros col. destruct (decide (col ∈ [])) as [H|_]; [by apply elem_of_nil in H|done].
  - apply NoDup_cons in Hl as [Hc Hl].
    destruct (releaseLane_frame g c) as (F1 & F2 & F3).
    destruct (IH (releaseLane hitObjects g c) Hl (F3 Hnd)) as (I1 & I2 & I3).
    split_and!.
    + rewrite I1, F1. reflexivity.
    + by rewrite I2.
    + intros col. rewrite I3, (releaseLane_heldOn g c col Hnd).
      destruct (decide (col = c)) as [->|Hne].
      * destruct (decide (c ∈ l)); [done|].
        destruct (decide (c ∈ c :: l)) as [|Hn]; [done|]. exfalso. apply Hn. by left.
      * destruct (decide (col ∈ l)) as [Hin|Hnin].
        -- destruct (decide (col ∈ c :: l)) as [|Hn]; [done|].
           exfalso. apply Hn. by right.
        -- destruct (decide (col ∈ c :: l)) as [Hin|]; [|done].
           apply elem_of_cons in Hin as [|]; done.
Qed.

Lemma INPUT_MAPPING_NoDup code lanes : INPUT_MAPPING code = Some lanes -> NoDup lanes.
Proof.
  unfold INPUT_MAPPING.
  repeat (destruct (String.eqb code _);
          [intros [= <-]; repeat (constructor; [set_solver|]); constructor|]).
  done.
Qed.

(** X10: releasing a key, in any state of a run, ends one hold per lane
    of the key: on each of its two lanes the note that has been held
    longest is released, the held notes of the other lanes stay, and
    nothing else of the state changes (no judgement, no score change). *)
Theorem key_up_releases (events : list Event) (code : string) (now : Z)
    (lanes : list Z)
    (Hauto : autoPlay = false) (Hmap : INPUT_MAPPING code = Some lanes) :
  let g := fst (run hitObjects autoPlay noteSpeedMs initialGame events) in
  let r := step hitObjects autoPlay noteSpeedMs g (KeyUp code now) in
  snd r = [] /\
  state (fst r) = set_holdingIndices (holdingIndices (state (fst r))) (state g) /\
  currentStats (fst r) = currentStats g /\
  forall col,
    heldOn hitObjects col (state (fst r)) =
    if decide (col ∈ lanes) then tail (heldOn hitObjects col (state g))
    else heldOn hitObjects col (state g).
Proof.
  cbv zeta. cbn [step]. unfold handleKeyUp.
  pose proof (run_holdInv initialGame events initial_holdInv) as [Hnd _].
  revert Hnd. rewrite Hauto, Hmap. intros Hnd.
  unfold handleInput. cbn [fst snd]. split; [done|].
  apply release_lanes; [|done]. by eapply INPUT_MAPPING_NoDup.
Qed.

(** *** Runs, event by event *)

Lemma run_judgement_step g events j :
  j ∈ judgements (snd (run hitObjects autoPlay noteSpeedMs g events)) ->
  exists g' e, e ∈ events /\
               j ∈ judgements (snd (step hitObjects autoPlay noteSpeedMs g' e)).
Proof.
  revert g. induction events as [|e es IH]; intros g; simpl.
  - intros H. by apply elem_of_nil in H.
  - destruct (step _ _ _ g e) as [g1 out1] eqn:Hs.
    specialize (IH g1). destruct (run _ _ _ g1 es) as [g2 out2].
    simpl in *. rewrite judgements_app, elem_of_app. intros [Hj|Hj].
    + exists g, e. split; [apply list_elem_of_here|]. by rewrite Hs.
    + destruct (IH Hj) as (g' & e' & He & Hj'). exists g', e'.
      split; [by apply list_elem_of_further|done].
Qed.

Lemma countKind_absent k js :
  (forall j, j ∈ js -> j.2 <> k) -> countKind k js = 0.
Proof.
  unfold countKind. induction js as [|j js IH]; intros H; [done|].
  cbn [List.filter]. rewrite bool_decide_eq_false_2.
  - apply IH. intros j' Hj'. apply H. by apply list_elem_of_further.
  - apply H. apply list_elem_of_here.
Qed.

(** *** A note that no tick found in its window *)

Lemma overdue_step g e idx obj t k :
  hitObjects !! idx = Some obj -> time obj = Int t -> 200 < clockOf e - t ->
  (idx, k) ∉ judgements (snd (step hitObjects autoPlay noteSpeedMs g e)).
Proof.
  intros Hidx Ht Hlate Hj.
  destruct (judgement_origin g e idx k Hj)
    as [(c & n & lanes & obj' & col & t' & -> & _ & _ & Hi & _ & _ & Ht' & Hw)
       |(n & obj' & t' & -> & _ & Hi & Ht' & Hw & _)];
    rewrite Hidx in Hi; injection Hi as <-;
    rewrite Ht in Ht'; injection Ht' as <-; simpl in Hlate; lia.
Qed.

Lemma overdue_run g events idx obj t :
  hitObjects !! idx = Some obj -> time obj = Int t ->
  Forall (fun e => 200 < clockOf e - t) events ->
  idx ∉ (judgements (snd (run hitObjects autoPlay noteSpeedMs g events))).*1.
Proof.
  intros Hidx Ht Hall Hin.
  apply list_elem_of_fmap in Hin as ([i k] & -> & Hj).
  apply run_judgement_step in Hj as (g' & e & He & Hj).
  rewrite Forall_forall in Hall.
  by apply (overdue_step g' e i obj t k Hidx Ht (Hall e He)).
Qed.

Lemma overdue_stays_pending g events idx obj t :
  hitObjects !! idx = Some obj -> time obj = Int t ->
  idx ∉ processedIndices (state g) ->
  Forall (fun e => 200 < clockOf e - t) events ->
  idx ∉ processedIndices (state (fst (run hitObjects autoPlay noteSpeedMs g events))).
Proof.
  intros Hidx Ht Hpend Hall.
  pose proof (changes_traced _ _ _ _ (run_changes hitObjects autoPlay noteSpeedMs g events))
    as (_ & _ & P & _).
  rewrite P. intros Hin. apply elem_of_union in Hin as [Hin|Hin]; [done|].
  apply elem_of_list_to_set in Hin. by eapply overdue_run.
Qed.

End Facts.

(** *** The miss that a slow frame loses *)

(** C3 at a failing run.  The only note of the chart lies at 1000 ms and
    no key is pressed.  A tick at 1155 finds it 155 ms overdue, not yet a
    miss; the next tick, at 1215, finds it 215 ms overdue and does not
    scan it.  Whatever follows from clock 1215 on, ticks or key events,
    the note is never judged: it stays unprocessed, no Miss is counted and
    the accuracy stays 101. *)
Theorem overdue_note_never_missed (rest : list Event)
    (Hrest : Forall (fun e => 1215 <= clockOf e) rest) :
  let chart := [tapAt 1000 0] in
  let r := run chart false 800 initialGame (slowFrames ++ rest) in
  run chart false 800 initialGame slowFrames = (initialGame, []) /\
  1215 - 1000 > HIT_WINDOW_BAD /\
  judgements (snd r) = [] /\
  (0%nat ∉ processedIndices (state (fst r))) /\
  miss (state (fst r)) = 0 /\
  gs_accuracy (currentStats (fst r)) = 101%Q.
Proof.
  cbv zeta.
  assert (run [tapAt 1000 0] false 800 initialGame slowFrames = (initialGame, [])) as E
    by (vm_compute; reflexivity).
  pose proof (run_app [tapAt 1000 0] false 800 initialGame slowFrames rest) as Happ.
  rewrite E in Happ.
  assert (run [tapAt 1000 0] false 800 initialGame (slowFrames ++ rest) =
          run [tapAt 1000 0] false 800 initialGame rest) as ->.
  { rewrite Happ. by destruct (run _ _ _ initialGame rest). }
  assert (Forall (fun e => 200 < clockOf e - 1000) rest) as Hall.
  { eapply Forall_impl; [exact Hrest|]. intros e He. simpl in He. lia. }
  assert (judgements (snd (run [tapAt 1000 0] false 800 initialGame rest)) = []) as Hjs.
  { destruct (judgements _) as [|[i k] js] eqn:Ej; [done|]. exfalso.
    assert ((i, k) ∈ judgements (snd (run [tapAt 1000 0] false 800 initialGame rest)))
      as Hj by (rewrite Ej; apply list_elem_of_here).
    pose proof (run_judged_valid _ _ _ _ _ _ Hj) as Hv. simpl in Hv.
    assert (i = 0%nat) as -> by lia.
    apply (overdue_run [tapAt 1000 0] false 800 initialGame rest 0 (tapAt 1000 0) 1000
             eq_refl eq_refl Hall).
    apply list_elem_of_fmap. by exists (0%nat, k). }
  pose proof (changes_traced _ _ _ _
                (run_changes [tapAt 1000 0] false 800 initialGame rest))
    as (_ & _ & _ & C1 & C2 & C3 & C4).
  rewrite Hjs in C1, C2, C3, C4. cbn in C1, C2, C3, C4.
  pose proof (run_counters [tapAt 1000 0] false 800 rest) as Hc. cbv zeta in Hc.
  destruct Hc as (Hst & _).
  split_and!; [done|unfold HIT_WINDOW_BAD; lia|done| |done|].
  - by apply (overdue_stays_pending [tapAt 1000 0] false 800 initialGame rest 0
               (tapAt 1000 0) 1000).
  - rewrite Hst. unfold updateStats. cbn [gs_accuracy]. by rewrite C1, C2, C3, C4.
Qed.

(** After the two ticks, a tick at 1300, a press of J at 1400 and a tick
    at 2000 leave the note unprocessed and the miss counter at 0. *)
Lemma overdue_note_never_missed_witness :
  let r := run [tapAt 1000 0] false 800 initialGame
             (slowFrames ++
              [AnimationFrame 1300; KeyDown "KeyJ" false 1400; AnimationFrame 2000]) in
  (0%nat ∉ processedIndices (state (fst r))) /\ miss (state (fst r)) = 0.
Proof.
  destruct (overdue_note_never_missed
              [AnimationFrame 1300; KeyDown "KeyJ" false 1400; AnimationFrame 2000])
    as (_ & _ & _ & H1 & H2 & _).
  - repeat constructor; simpl; lia.
  - split; assumption.
Defined.

(** *** Autoplay *)

Lemma autoplay_judgements_miss (hitObjects : list HitObject) (noteSpeedMs : Z)
    (g : Game) (events : list Event) (j : nat * HitKind) :
  j ∈ judgements (snd (run hitObjects true noteSpeedMs g events)) -> j.2 = Miss.
Proof.
  intros Hj. apply run_judgement_step in Hj as (g' & e & _ & Hj).
  destruct j as [idx k].
  apply judgement_origin in Hj
    as [(c & n & lanes & obj & col & t & _ & Ha & _)
       |(n & obj & t & _ & Hk & _)]; done.
Qed.

(** X11: with [autoPlay] switched on the keyboard is ignored and nothing
    plays the notes: in any run every judgement is a Miss, and score,
    combo, maxCombo, the displayed score and the Perfect, Good and Bad
    counters stay 0. *)
Theorem autoplay_only_misses (hitObjects : list HitObject) (noteSpeedMs : Z)
    (events : list Event) :
  let r := run hitObjects true noteSpeedMs initialGame events in
  let s := state (fst r) in
  (forall j, j ∈ judgements (snd r) -> j.2 = Miss) /\
  perfect s = 0 /\ good s = 0 /\ bad s = 0 /\
  score s = 0 /\ combo s = 0 /\ maxCombo s = 0 /\
  gs_score (currentStats (fst r)) = 0.
Proof.
  cbv zeta.
  pose proof (autoplay_judgements_miss hitObjects noteSpeedMs initialGame events) as Hm.
  pose proof (changes_traced _ _ _ _
                (run_changes hitObjects true noteSpeedMs initialGame events))
    as (_ & _ & _ & C1 & C2 & C3 & _).
  cbn in C1, C2, C3.
  rewrite countKind_absent in C1 by (intros j Hj; rewrite (Hm j Hj); done).
  rewrite countKind_absent in C2 by (intros j Hj; rewrite (Hm j Hj); done).
  rewrite countKind_absent in C3 by (intros j Hj; rewrite (Hm j Hj); done).
  pose proof (run_counters hitObjects true noteSpeedMs events) as H. cbv zeta in H.
  destruct H as (Hst & Hsc & _ & _ & _ & _ & _ & Hcombo & Hmax).
  split_and!; try done; try lia.
  rewrite Hst. unfold updateStats. cbn [gs_score]. rewrite C1, C2, C3.
  destruct (Z.gtb_spec (Z.of_nat (length hitObjects) * 300) 0) as [Hn|Hn]; [|done].
  apply DoubleFacts.display_zero. lia.
Qed.

(** *** The key tables *)

(** X12: the four keys split the eight lanes among them: every lane from
    0 to 7 belongs to exactly one key, no key has another lane, and the
    column of the linear assist in which a lane is drawn is the column
    that its key lights up. *)
Theorem key_tables_agree :
  (forall code lanes lane,
     INPUT_MAPPING code = Some lanes -> lane ∈ lanes ->
     0 <= lane <= 7 /\ is_Some (KEY_INDEX_MAP code) /\
     linearColumn lane = KEY_INDEX_MAP code) /\
  (forall lane, 0 <= lane <= 7 ->
     exists code lanes, INPUT_MAPPING code = Some lanes /\ lane ∈ lanes) /\
  (forall code code' lanes lanes' lane,
     INPUT_MAPPING code = Some lanes -> INPUT_MAPPING code' = Some lanes' ->
     lane ∈ lanes -> lane ∈ lanes' -> code = code').
Proof.
  assert (forall code lanes lane,
     INPUT_MAPPING code = Some lanes -> lane ∈ lanes ->
     0 <= lane <= 7 /\ is_Some (KEY_INDEX_MAP code) /\
     linearColumn lane = KEY_INDEX_MAP code /\
     code = nth (Z.to_nat lane / 2)
              ["KeyJ"; "KeyK"; "KeyD"; "KeyF"]%string ""%string) as H.
  { intros code lanes lane. unfold INPUT_MAPPING, KEY_INDEX_MAP.
    destruct (String.eqb_spec code "KeyD") as [->|?];
      [intros [= <-]; rewrite !elem_of_cons, elem_of_nil;
       intros [->|[->|[]]]; split_and!; (lia || by eexists || reflexivity)|].
    destruct (String.eqb_spec code "KeyF") as [->|?];
      [intros [= <-]; rewrite !elem_of_cons, elem_of_nil;
       intros [->|[->|[]]]; split_and!; (lia || by eexists || reflexivity)|].
    destruct (String.eqb_spec code "KeyJ") as [->|?];
      [intros [= <-]; rewrite !elem_of_cons, elem_of_nil;
       intros [->|[->|[]]]; split_and!; (lia || by eexists || reflexivity)|].
    destruct (String.eqb_spec code "KeyK") as [->|?];
      [intros [= <-]; rewrite !elem_of_cons, elem_of_nil;
       intros [->|[->|[]]]; split_and!; (lia || by eexists || reflexivity)|].
    done. }
  split_and!.
  - intros code lanes lane Hm Hl. destruct (H code lanes lane Hm Hl) as (?&?&?&_). done.
  - intros lane Hl.
    assert (lane = 0 \/ lane = 1 \/ lane = 2 \/ lane = 3 \/
            lane = 4 \/ lane = 5 \/ lane = 6 \/ lane = 7) as Hc by lia.
    destruct Hc as [->|[->|[->|[->|[->|[->|[->| ->]]]]]]].
    1,2: exists "KeyJ"%string, [0; 1]; split; [done|]; rewrite !elem_of_cons; tauto.
    1,2: exists "KeyK"%string, [2; 3]; split; [done|]; rewrite !elem_of_cons; tauto.
    1,2: exists "KeyD"%string, [4; 5]; split; [done|]; rewrite !elem_of_cons; tauto.
    1,2: exists "KeyF"%string, [6; 7]; split; [done|]; rewrite !elem_of_cons; tauto.
  - intros code code' lanes lanes' lane Hm Hm' Hl Hl'.
    destruct (H code lanes lane Hm Hl) as (_ & _ & _ & ->).
    destruct (H code' lanes' lane Hm' Hl') as (_ & _ & _ & ->). done.
Qed.

(** *** The window of recent deviations *)

Lemma pushDeviation_drop {A} (l : list A) (e : A) :
  (length l <= 30)%nat ->
  pushDeviation l e = drop (length (l ++ [e]) - 30) (l ++ [e]) /\
  (length (pushDeviation l e) <= 30)%nat.
Proof.
  intros Hl. unfold pushDeviation. rewrite length_app. simpl.
  destruct (Nat.ltb_spec 30 (length l + 1)) as [H|H].
  - replace (length l + 1 - 30)%nat with 1%nat by lia.
    destruct l as [|a l]; simpl in *; [lia|].
    rewrite drop_0. split; [done|]. rewrite length_app. simpl. lia.
  - replace (length l + 1 - 30)%nat with 0%nat by lia.
    rewrite drop_0, length_app. simpl. split; [done|lia].
Qed.

Lemma foldl_pushDeviation {A} (es l : list A) :
  (length l <= 30)%nat ->
  foldl pushDeviation l es = drop (length (l ++ es) - 30) (l ++ es) /\
  (length (foldl pushDeviation l es) <= 30)%nat.
Proof.
  revert l. induction es as [|e es IH]; intros l Hl; simpl.
  - rewrite app_nil_r. replace (length l - 30)%nat with 0%nat by lia.
    by rewrite drop_0.
  - destruct (pushDeviation_drop l e Hl) as [E Hl'].
    destruct (IH _ Hl') as [IH1 IH2]. split; [|done].
    rewrite IH1, E. clear IH IH1 IH2 E Hl'.
    rewrite (cons_middle e l es), app_assoc.
    set (m := l ++ [e]).
    assert (length m = S (length l)) as Hm
      by (unfold m; rewrite length_app; simpl; lia).
    rewrite <- (drop_app_le m es) by lia.
    rewrite drop_drop. f_equal.
    rewrite length_drop, !length_app. lia.
Qed.

(** X13: the window of recent hit deviations never holds more than 30
    entries, and after any number of hits it holds the most recent ones,
    oldest first: the last 30 pushed, or all of them while there are
    fewer. *)
Theorem deviation_window {A} (es : list A) :
  let window := foldl pushDeviation [] es in
  (length window <= 30)%nat /\
  window = drop (length es - 30) es.
Proof.
  cbv zeta. destruct (foldl_pushDeviation es []) as [H1 H2]; [simpl; lia|].
  split; [done|]. by rewrite H1.
Qed.

(** *** Concrete runs *)

(** Of the two candidates under the J key at clock 1000, the note at
    1000 ms is selected, and it is not farther away than the one at 1100. *)
Lemma selectBestHit_nearest_witness :
  exists tb, time (tapAt 1000 0) = Int tb /\
             Z.abs (tb - 1000) <= Z.abs (1100 - 1000).
Proof.
  apply (selectBestHit_nearest twoLanes initialState 1000 [0; 1]
           (mkBestHit (tapAt 1000 0) 0 (Int 0) (Int 0)) 1 1%nat (tapAt 1100 1) 1100).
  - vm_compute. reflexivity.
  - apply list_elem_of_further, list_elem_of_here.
  - reflexivity.
  - reflexivity.
  - apply not_elem_of_empty.
  - reflexivity.
  - unfold HIT_WINDOW_BAD. lia.
Defined.

(** The press at 1000 grades the note at 1000 ms within the hit window. *)
Lemma judgement_windows_witness :
  exists obj t now,
    [tapAt 1000 0] !! 0%nat = Some obj /\ time obj = Int t /\
    ((exists code, KeyDown "KeyJ" false 1000 = KeyDown code false now /\
                   Perfect <> Miss /\ -120 <= t - now < 160) \/
     (KeyDown "KeyJ" false 1000 = AnimationFrame now /\ Perfect = Miss /\
      160 < now - t <= 200)).
Proof.
  apply (judgement_windows [tapAt 1000 0] false 800 initialGame
           (KeyDown "KeyJ" false 1000) 0 Perfect).
  vm_compute. apply list_elem_of_here.
Defined.

(** The tick at 1170 settles the note at 1000 ms. *)
Lemma frame_in_window_settles_witness :
  0%nat ∈ processedIndices
            (state (fst (run [tapAt 1000 0] false 800 initialGame [AnimationFrame 1170]))).
Proof.
  destruct (frame_in_window_settles [tapAt 1000 0] false 800 [AnimationFrame 1170])
    as [H _]; [lia|].
  apply (H 1170 0%nat (tapAt 1000 0) 1000);
    [reflexivity|reflexivity|lia|apply list_elem_of_here].
Defined.

(** After the hold on lane 0 was hit with J, releasing J leaves no held
    note on lane 0. *)
Lemma key_up_releases_witness :
  let g := fst (run oneHold false 800 initialGame [KeyDown "KeyJ" false 1000]) in
  heldOn oneHold 0 (state g) = [0%nat] /\
  heldOn oneHold 0 (state (fst (step oneHold false 800 g (KeyUp "KeyJ" 1200)))) = [].
Proof.
  cbv zeta. split; [vm_compute; reflexivity|].
  destruct (key_up_releases oneHold false 800 [KeyDown "KeyJ" false 1000]
              "KeyJ" 1200 [0; 1] eq_refl eq_refl) as (_ & _ & _ & H).
  rewrite (H 0). vm_compute. reflexivity.
Defined.

End EngineMoreFacts.

(** ** Further facts about the chart decoder *)

Module DecoderMoreFacts.

Import OsuParser ChartText GameCanvas JsFacts DecoderFacts.

(** *** The lane of a 4K note *)

Lemma rem2_even s : (Z.rem s 2 =? 0) = Z.even s.
Proof.
  rewrite Zquot.Zrem_even. destruct (Z.even s) eqn:E; [done|].
  apply Z.eqb_neq. intros H.
  assert (s = 0) as -> by (by apply Z.sgn_null_iff). discriminate E.
Qed.

Lemma laneOf_four_key x t :
  0 <= x < 512 ->
  laneOf (Int x) (Int t) (Int 4) =
  Int (let even := Z.even (t / 20 + x / 128) in
       match x / 128 with
       | 0 => if even then 5 else 4
       | 1 => if even then 6 else 7
       | 2 => if even then 0 else 1
       | _ => if even then 2 else 3
       end).
Proof.
  intros Hx. unfold laneOf. cbn -[Z.div Z.rem Z.mul Z.even].
  assert (x * 4 / 512 = x / 128) as ->.
  { replace 512 with (4 * 128) by done. rewrite (Z.mul_comm x 4).
    apply Z.div_mul_cancel_l; lia. }
  assert (0 <= x / 128 <= 3) as Hc.
  { split; [apply Z.div_pos; lia|]. apply Z.lt_succ_r, Z.div_lt_upper_bound; lia. }
  rewrite rem2_even.
  assert (x / 128 = 0 \/ x / 128 = 1 \/ x / 128 = 2 \/ x / 128 = 3)
    as [E|[E|[E|E]]] by lia;
    rewrite E; cbn -[Z.div Z.even]; by destruct (Z.even _).
Qed.

(** X14: in a 4K chart a note whose x lies in [0, 512) is put on one of
    the two lanes of a single key, which depends on x only (D, F, J, K for
    the four columns of 128 pixels), and the lane alternates between the
    two with every 20 ms of note time. *)
Theorem four_key_lanes (x : Z) (Hx : 0 <= x < 512) :
  exists code lanes,
    code = nth (Z.to_nat (x / 128)) ["KeyD"; "KeyF"; "KeyJ"; "KeyK"]%string ""%string /\
    INPUT_MAPPING code = Some lanes /\
    forall t, exists l l',
      laneOf (Int x) (Int t) (Int 4) = Int l /\
      laneOf (Int x) (Int (t + 20)) (Int 4) = Int l' /\
      l ∈ lanes /\ l' ∈ lanes /\ l <> l'.
Proof.
  assert (0 <= x / 128 <= 3) as Hc.
  { split; [apply Z.div_pos; lia|]. apply Z.lt_succ_r, Z.div_lt_upper_bound; lia. }
  assert (forall t, Z.even ((t + 20) / 20 + x / 128) = negb (Z.even (t / 20 + x / 128)))
    as Hflip.
  { intros t. replace (t + 20) with (t + 1 * 20) by lia.
    rewrite Z.div_add by lia.
    replace (t / 20 + 1 + x / 128) with (Z.succ (t / 20 + x / 128)) by lia.
    by rewrite Z.even_succ, <- Z.negb_even. }
  assert (x / 128 = 0 \/ x / 128 = 1 \/ x / 128 = 2 \/ x / 128 = 3)
    as [E|[E|[E|E]]] by lia.
  - exists "KeyD"%string, [4; 5]. rewrite E. split_and!; try done.
    intros t. rewrite !laneOf_four_key, Hflip, E by done. cbv zeta.
    destruct (Z.even _); simpl; eexists _, _; split_and!; try done;
      rewrite !elem_of_cons; tauto.
  - exists "KeyF"%string, [6; 7]. rewrite E. split_and!; try done.
    intros t. rewrite !laneOf_four_key, Hflip, E by done. cbv zeta.
    destruct (Z.even _); simpl; eexists _, _; split_and!; try done;
      rewrite !elem_of_cons; tauto.
  - exists "KeyJ"%string, [0; 1]. rewrite E. split_and!; try done.
    intros t. rewrite !laneOf_four_key, Hflip, E by done. cbv zeta.
    destruct (Z.even _); simpl; eexists _, _; split_and!; try done;
      rewrite !elem_of_cons; tauto.
  - exists "KeyK"%string, [2; 3]. rewrite E. split_and!; try done.
    intros t. rewrite !laneOf_four_key, Hflip, E by done. cbv zeta.
    destruct (Z.even _); simpl; eexists _, _; split_and!; try done;
      rewrite !elem_of_cons; tauto.
Qed.

(** *** White space around a line *)

Lemma trimEnd_app_ws s c :
  isWhiteSpace c = true -> trimEnd (s +:+ String c EmptyString) = trimEnd s.
Proof.
  intros Hc. induction s as [|a s IH]; simpl.
  - by rewrite Hc.
  - by rewrite IH.
Qed.

Lemma trim_app_ws s c :
  isWhiteSpace c = true -> trim (s +:+ String c EmptyString) = trim s.
Proof.
  intros Hc. unfold trim. induction s as [|a s IH]; simpl.
  - by rewrite Hc.
  - destruct (isWhiteSpace a); [done|].
    apply (trimEnd_app_ws (String a s) c Hc).
Qed.

Lemma trim_cons_ws s c : isWhiteSpace c = true -> trim (String c s) = trim s.
Proof. intros Hc. unfold trim. simpl. by rewrite Hc. Qed.

Lemma parseLine_trim st line line' :
  trim line = trim line' -> parseLine st line = parseLine st line'.
Proof. intros E. unfold parseLine. by rewrite E. Qed.

Lemma forOf_parseLine_trim lines lines' st :
  Forall2 (fun a b => trim a = trim b) lines lines' ->
  forOf parseLine st lines = forOf parseLine st lines'.
Proof.
  intros H. revert st. induction H as [|a b l l' Hab Hl IH]; intros st; simpl; [done|].
  rewrite (parseLine_trim st a b Hab). destruct (parseLine st b); simpl; [apply IH|done].
Qed.

Lemma split_app_sep c l rest :
  contains c l = false ->
  split c (l +:+ String c rest) = l :: split c rest.
Proof.
  induction l as [|a l IH]; simpl; intros H.
  - by rewrite Ascii.eqb_refl.
  - apply orb_false_iff in H as [Ha Hl]. rewrite Ha, (IH Hl). done.
Qed.

Lemma split_no_sep c l : contains c l = false -> split c l = [l].
Proof.
  induction l as [|a l IH]; simpl; intros H; [done|].
  apply orb_false_iff in H as [Ha Hl]. by rewrite Ha, (IH Hl).
Qed.

Lemma contains_app_cr l :
  contains newline l = false ->
  contains newline (l +:+ String "013"%char EmptyString) = false.
Proof.
  induction l as [|a l IH]; simpl; intros H; [done|].
  apply orb_false_iff in H as [Ha Hl]. by rewrite Ha, (IH Hl).
Qed.

Lemma string_app_assoc (a b c : string) : (a +:+ b) +:+ c = a +:+ (b +:+ c).
Proof.
  induction a as [|x a IH]; [reflexivity|].
  change (String x ((a +:+ b) +:+ c) = String x (a +:+ (b +:+ c))).
  by rewrite IH.
Qed.

Lemma split_crlf_lf lines :
  Forall (fun l => contains newline l = false) lines ->
  Forall2 (fun a b => trim a = trim b)
    (split newline (joinWith crlf lines)) (split newline (joinWith lf lines)).
Proof.
  induction 1 as [|l ls Hl Hls IH]; [by repeat constructor|].
  destruct ls as [|l' ls].
  - simpl. rewrite (split_no_sep newline l Hl). by repeat constructor.
  - assert (joinWith crlf (l :: l' :: ls) =
            (l +:+ String "013"%char EmptyString) +:+
            String newline (joinWith crlf (l' :: ls))) as ->
      by (rewrite string_app_assoc; reflexivity).
    assert (joinWith lf (l :: l' :: ls) =
            l +:+ String newline (joinWith lf (l' :: ls))) as -> by reflexivity.
    rewrite (split_app_sep newline _ _ (contains_app_cr l Hl)).
    rewrite (split_app_sep newline _ _ Hl).
    constructor; [|exact IH]. by apply trim_app_ws.
Qed.

(** X15: the decoder is insensitive to the end-of-line convention and to
    white space around a line: a chart whose lines are joined by CR LF
    decodes to exactly what the same lines joined by LF decode to, and
    adding a white-space character before or after a line does not change
    what the line does. *)
Theorem crlf_insensitive (lines : list string)
    (Hlines : Forall (fun l => contains newline l = false) lines) :
  parseOsuText (joinWith crlf lines) = parseOsuText (joinWith lf lines) /\
  (forall st line c, isWhiteSpace c = true ->
     parseLine st (String c line) = parseLine st line /\
     parseLine st (line +:+ String c EmptyString) = parseLine st line).
Proof.
  split.
  - unfold parseOsuText.
    by rewrite (forOf_parseLine_trim _ _ initialParseState (split_crlf_lf lines Hlines)).
  - intros st line c Hc. split; apply parseLine_trim.
    + by apply trim_cons_ws.
    + by apply trim_app_ws.
Qed.

(** *** Text outside the known sections *)

Lemma forOf_unknown_section lines st :
  section st ∉ knownSections ->
  Forall (fun l => startsWith (trim l) "[" = false) lines ->
  forOf parseLine st lines = Ok st.
Proof.
  intros Hs H. induction H as [|l ls Hl Hls IH]; simpl; [done|].
  by rewrite (parseLine_unknown_section st l Hs Hl).
Qed.

(** X16: the lines before the first section header are ignored: a text
    none of whose lines starts, after trimming, with an opening bracket
    (the empty text among them) decodes without error to the default
    chart: title, artist and creator Unknown, version Normal, an empty
    audio file name and no note. *)
Theorem headerless_text_is_default (text : string)
    (Hlines : Forall (fun l => startsWith (trim l) "[" = false) (split newline text)) :
  parseOsuText text = Ok initialData /\
  hitObjects initialData = [] /\ audioFilename initialData = Some ""%string.
Proof.
  split; [|done]. unfold parseOsuText.
  rewrite (forOf_unknown_section _ initialParseState); [done| |done].
  unfold knownSections. simpl. rewrite !elem_of_cons, elem_of_nil.
  intros [H|[H|[H|[H|[H|[H|[]]]]]]]; discriminate H.
Qed.

(** *** When the text decoder fails *)


(** *** What the archive decoder throws *)

Section ArchiveFacts.

Variable File : Type.
Variable AudioBuffer : Type.
Variable loadAsync : File -> result (list (string * ZipObject)).
Variable newAudioContext : result unit.
Variable decodeAudioData : string -> result AudioBuffer.
Variable createObjectURL : string -> string.

(** X17: what a failure of the archive decoder comes from.  Either the
    archive does not open, or it opens and one of these holds: no entry
    name ends in [.osu] (the missing-chart error); the first such entry is
    a folder or is empty (the unreadable-chart error); the text decoder
    throws, or the chart names no audio file (a [TypeError]); an entry
    cannot be read; no audio context can be made; the audio cannot be
    decoded.  An empty chart entry is reported as unreadable, although the
    text decoder accepts the empty text. *)
Theorem archive_failures (file : File) :
  (forall e,
     parseOSZ File AudioBuffer loadAsync newAudioContext decodeAudioData
       createObjectURL file = Throw e ->
     loadAsync file = Throw e \/
     exists files,
       loadAsync file = Ok files /\
       ((e = noOsuFile /\ forall f, f ∈ files -> endsWith f.1 ".osu" = false) \/
        (exists name o,
           findEntry (fun filename => endsWith filename ".osu") files = Some (name, o) /\
           ((e = unreadableOsu /\ (dir o = true \/ async o = Ok ""%string)) \/
            (e = TypeError /\
             exists content, async o = Ok content /\
               (parseOsuText content = Throw TypeError \/
                exists d, parseOsuText content = Ok d /\ audioFilename d = None)) \/
            (exists f, f ∈ files /\ async f.2 = Throw e) \/
            newAudioContext = Throw e \/
            (exists f blob,
               f ∈ files /\ async f.2 = Ok blob /\
               decodeAudioData blob = Throw e))))) /\
  (forall files name o,
     loadAsync file = Ok files ->
     findEntry (fun filename => endsWith filename ".osu") files = Some (name, o) ->
     dir o = true \/ async o = Ok ""%string ->
     parseOSZ File AudioBuffer loadAsync newAudioContext decodeAudioData
       createObjectURL file = Throw unreadableOsu) /\
  parseOsuText "" = Ok initialData.
Proof.
  split_and!; [apply parseOSZ_throw| |done].
  intros files name o Hl Hf Ho. unfold parseOSZ. rewrite Hl. cbn [bindR].
  rewrite Hf. unfold readEntry.
  destruct (dir o); [done|]. destruct Ho as [Ho|Ho]; [done|]. by rewrite Ho.
Qed.

(** *** A key without value *)

Lemma keyValue_no_colon line :
  contains ":" line = false -> keyValue line = (trim line, None).
Proof.
  intros H. unfold keyValue. by rewrite (split_no_sep ":" line H).
Qed.

(** X18: a key that stands alone on its line has the value [undefined].
    In [General], a line [AudioFilename] without colon makes the audio
    file name undefined, and a chart decoded with an undefined audio file
    name makes the archive decoder throw a [TypeError] instead of loading
    the chart without audio. *)
Theorem bare_audio_key (file : File) (files : list (string * ZipObject))
    (name : string) (o : ZipObject) (content : string) (d : BeatmapData)
    (Hopen : loadAsync file = Ok files)
    (Hentry : findEntry (fun filename => endsWith filename ".osu") files
              = Some (name, o))
    (Hread : readEntry o = Ok (Some content))
    (Hcontent : content <> ""%string)
    (Hparse : parseOsuText content = Ok d)
    (Haudio : audioFilename d = None) :
  parseOSZ File AudioBuffer loadAsync newAudioContext decodeAudioData
    createObjectURL file = Throw TypeError /\
  (forall st line,
     section st = "General"%string -> trim line = "AudioFilename"%string ->
     parseLine st line = Ok (set_data (set_audioFilename None (data st)) st)).
Proof.
  split.
  - unfold parseOSZ. rewrite Hopen. cbn [bindR]. rewrite Hentry, Hread. cbn [bindR].
    apply String.eqb_neq in Hcontent. rewrite Hcontent, Hparse. cbn [bindR].
    unfold loadAudio. rewrite Haudio.
    apply findEntry_Some in Hentry as [Hin _]. destruct files; [|done].
    by apply elem_of_nil in Hin.
  - intros st line Hs Ht. unfold parseLine. rewrite Ht, Hs.
    by vm_compute.
Qed.

End ArchiveFacts.

(** *** Concrete charts *)

(** A note with x = 64 of a 4K chart lies on a lane of the D key. *)
Lemma four_key_lanes_witness :
  exists lanes l,
    INPUT_MAPPING "KeyD" = Some lanes /\
    laneOf (Int 64) (Int 0) (Int 4) = Int l /\ l ∈ lanes.
Proof.
  destruct (four_key_lanes 64) as (code & lanes & Hc & Hm & Ht); [lia|].
  destruct (Ht 0) as (l & l' & H1 & _ & H3 & _).
  exists lanes, l. rewrite Hc in Hm. split_and!; [exact Hm|exact H1|exact H3].
Defined.

(** Two lines joined by CR LF and by LF. *)
Lemma crlf_insensitive_witness :
  parseOsuText (joinWith crlf ["[HitObjects]"; "64,192,1000,1,0"]) =
  parseOsuText (joinWith lf ["[HitObjects]"; "64,192,1000,1,0"]).
Proof.
  apply (crlf_insensitive ["[HitObjects]"; "64,192,1000,1,0"]).
  repeat (constructor; [vm_compute; reflexivity|]). constructor.
Defined.

(** The format line alone decodes to the default chart. *)
Lemma headerless_text_is_default_witness : parseOsuText formatLine = Ok initialData.
Proof.
  apply (headerless_text_is_default formatLine).
  set (ls := split newline formatLine). vm_compute in ls. subst ls.
  repeat (constructor; [vm_compute; reflexivity|]). constructor.
Defined.

(** An archive whose chart has a bare [AudioFilename] line. *)
Lemma bare_audio_key_witness :
  parseOsuText chartBareAudio = Ok (set_audioFilename None initialData) /\
  sampleOSZ [fileEntry "chart.osu" chartBareAudio] = Throw TypeError.
Proof.
  assert (parseOsuText chartBareAudio = Ok (set_audioFilename None initialData)) as H
    by (vm_compute; reflexivity).
  split; [exact H|].
  apply (bare_audio_key (list (string * ZipObject)) nat openedArchive (Ok tt)
           (fun _ => Throw EncodingError) (fun blob => blob)
           [fileEntry "chart.osu" chartBareAudio] [fileEntry "chart.osu" chartBareAudio]
           "chart.osu" (mkZipObject false (Ok chartBareAudio)) chartBareAudio
           (set_audioFilename None initialData)).
  - reflexivity.
  - vm_compute. reflexivity.
  - reflexivity.
  - intros E. vm_compute in E. discriminate E.
  - exact H.
  - reflexivity.
Defined.

End DecoderMoreFacts.

(** ** Facts about the demo chart *)

Module DemoTrackFacts.

Import OsuParser DemoTrack.

Lemma lane_of_random (r : Q) :
  (0 <= r)%Q -> (r < 1)%Q -> 0 <= Qfloor (r * 8) <= 7.
Proof.
  intros H0 H1. split.
  - change 0 with (Qfloor 0). apply Qfloor_resp_le.
    apply Qmult_le_0_compat; [done|]. by vm_compute.
  - apply Z.lt_succ_r. rewrite Zlt_Qlt.
    eapply Qle_lt_trans; [apply Qfloor_le|].
    change (inject_Z (Z.succ 7)) with (1 * 8)%Q.
    apply Qmult_lt_compat_r; [by vm_compute|done].
Qed.

Lemma StronglySorted_snoc {A} (R : A -> A -> Prop) l a :
  StronglySorted R l -> Forall (fun b => R b a) l -> StronglySorted R (l ++ [a]).
Proof.
  induction 1 as [|b l Hs IH Hb]; intros Hl; simpl.
  - repeat constructor.
  - apply Forall_cons in Hl as [Hba Hl]. constructor; [by apply IH|].
    apply Forall_app. split; [done|]. by repeat constructor.
Qed.

Lemma noteLoop_notes fuel random calls t k acc :
  (forall n, (0 <= random n)%Q /\ (random n < 1)%Q) ->
  t = 2000 + 250 * k -> 0 <= k ->
  Forall (fun h => demoNote h /\ exists th, time h = Int th /\ th < t) acc ->
  StronglySorted timeLt acc ->
  Forall demoNote (noteLoop fuel random calls t acc) /\
  StronglySorted timeLt (noteLoop fuel random calls t acc) /\
  (length (noteLoop fuel random calls t acc) <= length acc + fuel)%nat.
Proof.
  intros Hr. revert calls t k acc.
  induction fuel as [|fuel IH]; intros calls t k acc Ht Hk Hacc Hs; simpl.
  - split_and!; [|done|lia]. eapply Forall_impl; [exact Hacc|]. by intros h [? _].
  - change (duration * 1000) with 60000. change (beatInterval / 2) with 250.
    change beatInterval with 500.
    destruct (Z.ltb_spec t 60000) as [Hlt|Hge].
    2: { split_and!; [|done|lia]. eapply Forall_impl; [exact Hacc|]. by intros h [? _]. }
    assert (Forall (fun h => demoNote h /\ exists th, time h = Int th /\ th < t + 250) acc)
      as Hacc'.
    { eapply Forall_impl; [exact Hacc|]. intros h [? (th & ? & ?)].
      split; [done|]. exists th. split; [done|lia]. }
    destruct (Qgtb (random calls) double_0_3).
    + set (h := mkHitObject _ _ _ _ _ _ _).
      assert (demoNote h) as Hh.
      { exists t, k, (Qfloor (random (calls + 1)%nat * 8)). unfold h. simpl.
        split_and!; try done.
        - apply lane_of_random; apply Hr.
        - apply lane_of_random; apply Hr.
        - destruct (Qgtb _ double_0_8); [by right|by left]. }
      destruct (IH (calls + 3)%nat (t + 250) (k + 1) (acc ++ [h])) as (I1 & I2 & I3);
        try lia.
      * apply Forall_app. split; [done|]. constructor; [|constructor].
        split; [done|]. exists t. split; [done|lia].
      * apply StronglySorted_snoc; [done|].
        eapply Forall_impl; [exact Hacc|]. intros b [_ (th & Hb & Hlt')].
        exists th, t. done.
      * split_and!; [done|done|]. rewrite length_app in I3. simpl in I3. lia.
    + destruct (IH (calls + 1)%nat (t + 250) (k + 1) acc) as (I1 & I2 & I3);
        try done; try lia.
      split_and!; [done|done|lia].
Qed.

Lemma noteLoop_fuel fuel extra random calls t acc :
  60000 <= t + 250 * Z.of_nat fuel ->
  noteLoop (fuel + extra) random calls t acc = noteLoop fuel random calls t acc.
Proof.
  revert calls t acc. induction fuel as [|fuel IH]; intros calls t acc Ht.
  - simpl. destruct extra; [done|]. simpl.
    change (duration * 1000) with 60000.
    destruct (Z.ltb_spec t 60000); [lia|done].
  - simpl. change (duration * 1000) with 60000. change (beatInterval / 2) with 250.
    destruct (t <? 60000); [|done].
    destruct (Qgtb _ _); apply IH; lia.
Qed.

(** X19: whatever [Math.random] returns (values from 0 up to, not
    including, 1), the demo chart satisfies what a timeline should: its
    times strictly increase, every lane lies in [0, 7], every hold ends
    500 ms after it starts, every note is a tap of type 1 or a hold of
    type 128 on a half beat between 2000 and 60000 ms, and there are at
    most 232 notes; the loop ends by its own bound after 232 rounds. *)
Theorem demo_track_timeline (random : nat -> Q)
    (Hrandom : forall n, (0 <= random n)%Q /\ (random n < 1)%Q) :
  let notes := hitObjects (generateDemoTrack random) in
  timelineInvariant notes /\
  StronglySorted timeLt notes /\
  Forall demoNote notes /\
  (length notes <= 232)%nat /\
  forall extra, noteLoop (iterations + extra) random 0 2000 [] = notes.
Proof.
  cbv zeta. cbn [generateDemoTrack hitObjects].
  destruct (noteLoop_notes iterations random 0 2000 0 [] Hrandom) as (H1 & H2 & H3);
    [done|done|constructor|constructor|].
  assert (timelineInvariant (noteLoop iterations random 0 2000 [])) as Hinv.
  { split_and!.
    - unfold sortedByTime. revert H2.
      generalize (noteLoop iterations random 0 2000 []). intros l.
      induction 1 as [|a l' Hs IH Ha]; constructor; [done|].
      eapply Forall_impl; [exact Ha|]. intros b (ta & tb & ? & ? & ?).
      exists ta, tb. split_and!; try done. lia.
    - eapply Forall_impl; [exact H1|].
      intros h (t & k & col & _ & _ & _ & _ & Hc & Hr & _). by exists col.
    - eapply Forall_impl; [exact H1|].
      intros h (t & k & col & Ht & _ & _ & _ & _ & _ & _ & _ & _ & [[_ He]|[_ He]]) e Hh;
        rewrite He in Hh; [done|]. injection Hh as <-.
      exists (t + 500), t. split_and!; try done. lia. }
  split_and!; [exact Hinv|exact H2|exact H1| |].
  - change (length (@nil HitObject) + iterations)%nat with 232%nat in H3. exact H3.
  - intros extra. apply noteLoop_fuel. unfold iterations. lia.
Qed.

(** With every draw equal to one half the chart has at most 232 notes. *)
Lemma demo_track_timeline_witness :
  (length (hitObjects (generateDemoTrack (fun _ => 1 # 2))) <= 232)%nat.
Proof.
  destruct (demo_track_timeline (fun _ => 1 # 2)) as (_ & _ & _ & H & _).
  - intros n. split; unfold Qle, Qlt; simpl; lia.
  - exact H.
Defined.

End DemoTrackFacts.

(** ** Facts about the library and the result screen *)

Module AppFacts.

Import App GameCanvas.

Section Facts.

Variable File : Type.
Variable Song : Type.
Variable parseOSZ : File -> result Song.
Variable message : exn -> string.

Lemma decodeAll_ok files songs acc :
  Forall2 (fun f s => parseOSZ f = Ok s) files songs ->
  decodeAll File Song parseOSZ files acc = Ok (acc ++ songs).
Proof.
  intros H. revert acc.
  induction H as [|f s fs ss Hf Hfs IH]; intros acc; simpl.
  - by rewrite app_nil_r.
  - rewrite Hf, IH, <- app_assoc. done.
Qed.

Lemma decodeAll_throw before f after e acc :
  Forall (fun f => exists s, parseOSZ f = Ok s) before ->
  parseOSZ f = Throw e ->
  decodeAll File Song parseOSZ (before ++ f :: after) acc = Throw e.
Proof.
  intros H Hf. revert acc.
  induction H as [|b bs [s Hb] Hbs IH]; intros acc; simpl.
  - by rewrite Hf.
  - rewrite Hb. apply IH.
Qed.

(** X20: an upload is all or nothing.  If every picked file decodes, the
    songs are appended to the library in the order of the files, the last
    of them becomes the selected song and the game can be started; if one
    file fails, nothing is added, not even the songs decoded before it, the
    selection stays, and the message of that first failure is shown.  An
    empty pick changes nothing. *)
Theorem upload_all_or_nothing (a : AppState Song) :
  handleFileUpload File Song parseOSZ message [] a = a /\
  (forall files songs,
     files <> [] -> Forall2 (fun f s => parseOSZ f = Ok s) files songs ->
     let a' := handleFileUpload File Song parseOSZ message files a in
     library Song a' = library Song a ++ songs /\
     currentSong Song a' = last songs /\ is_Some (currentSong Song a') /\
     error Song a' = None /\ loading Song a' = false /\
     gameState Song (handleStartGame Song a') = PLAYING) /\
  (forall before f after e,
     Forall (fun f => exists s, parseOSZ f = Ok s) before ->
     parseOSZ f = Throw e ->
     let a' := handleFileUpload File Song parseOSZ message (before ++ f :: after) a in
     library Song a' = library Song a /\
     selectedSongIndex Song a' = selectedSongIndex Song a /\
     error Song a' = Some (errorText message e) /\ loading Song a' = false /\
     gameState Song a' = gameState Song a).
Proof.
  split_and!; [done| |].
  - intros files songs Hne H. cbv zeta.
    pose proof (decodeAll_ok files songs [] H) as Hd. simpl in Hd.
    pose proof (Forall2_length _ _ _ H) as Hlen.
    destruct files as [|f files]; [done|]. unfold handleFileUpload. rewrite Hd.
    cbn [library error loading].
    assert (currentSong Song
              (mkAppState Song (gameState Song a) (library Song a ++ songs)
                 (Z.of_nat (length (library Song a)) + Z.of_nat (length songs) - 1)
                 (stats Song a) false None (playerRating Song a)) = last songs) as Hc.
    { unfold currentSong. cbn [selectedSongIndex library].
      simpl in Hlen.
      destruct (Z.ltb_spec (Z.of_nat (length (library Song a)) +
                            Z.of_nat (length songs) - 1) 0); [lia|].
      rewrite last_lookup, lookup_app_r by lia. f_equal. lia. }
    assert (is_Some (last songs)) as Hs.
    { rewrite last_lookup. apply lookup_lt_is_Some. simpl in Hlen. lia. }
    split_and!; try done.
    + by rewrite Hc.
    + unfold handleStartGame. rewrite Hc. by destruct Hs as [s ->].
  - intros before f after e Hb Hf. cbv zeta.
    pose proof (decodeAll_throw before f after e [] Hb Hf) as Hd.
    unfold handleFileUpload. rewrite Hd. by destruct (before ++ f :: after).
Qed.

(** X21: the result screen never lowers the player rating, and a game
    raises it by at most 101.  Whatever the engine displays at any point of
    any run, handing it to [handleGameEnd] shows the results with these
    statistics, leaves the rating as it is unless the accuracy exceeds 90,
    and adds the displayed score divided by 10000 otherwise. *)
Theorem rating_after_game (hitObjects : list HitObject) (autoPlay : bool)
    (noteSpeedMs : Z) (events : list Event) (a : AppState Song) :
  let finalStats :=
    currentStats (fst (run hitObjects autoPlay noteSpeedMs initialGame events)) in
  let a' := handleGameEnd Song finalStats a in
  playerRating Song a <= playerRating Song a' <= playerRating Song a + 101 /\
  ((gs_accuracy finalStats <= 90)%Q -> playerRating Song a' = playerRating Song a) /\
  ((90 < gs_accuracy finalStats)%Q ->
   playerRating Song a' = playerRating Song a + gs_score finalStats / 10000) /\
  gameState Song a' = RESULTS /\ stats Song a' = Some finalStats /\
  library Song a' = library Song a.
Proof.
  cbv zeta.
  pose proof (EngineMoreFacts.run_display_range hitObjects autoPlay noteSpeedMs events)
    as Hr.
  set (st := currentStats (fst (run hitObjects autoPlay noteSpeedMs initialGame events)))
    in *.
  unfold handleGameEnd. cbn [playerRating gameState stats library].
  unfold JsFraction.Qgtb.
  assert (0 <= gs_score st / 10000 <= 101) as Hb.
  { split; [apply Z.div_pos; lia|]. apply Z.div_le_upper_bound; lia. }
  destruct (Qle_bool (gs_accuracy st) 90) eqn:E; simpl.
  - apply Qle_bool_iff in E. split_and!; try done; try lia.
    intros Hlt. exfalso. by apply (Qlt_not_le _ _ Hlt).
  - split_and!; try done; try lia.
    intros Hle. apply Qle_bool_iff in Hle. congruence.
Qed.

End Facts.

End AppFacts.
